(** * audio-summarizer: a shallow embedding of the transcript pipeline

    The development follows the Python sources:
    - [src/summarizer_extractive.py]: [get_model], [sentence_tokenize],
      [summarize_extract];
    - [app.py]: [STOP_WORDS], [allowed_file], [extract_keywords],
      [compute_stats] and [process];
    - [src/preprocess.py]: [save_wav_mono_16k];
    - [src/asr_vosk.py]: [transcribe_file].

    Conventions.
    - A Python [str] is a list of code points; the code points modelled are
      U+0000..U+00FF, carried by [ascii] (Latin-1), with Python's own
      classification of them ([str.isspace], [\s], [\w], [str.lower]).
    - A Python [int] is a [Z]; a length or an index that cannot be negative
      is a [nat].
    - A Python float (a score, a time, a statistic) is the rational it
      denotes ([Q]); comparisons are the ones of the rationals.
    - The samples of a signal are numpy [float32].  The module [F32] has
      them as the numbers of IEEE 754 binary32, with NaN, the infinities
      and the rounding of the division: the normalization of
      [save_wav_mono_16k] is verified there.  The section [Preprocess]
      runs the same code on exact rationals; it serves where the
      arithmetic plays no part (which error is raised, what [process]
      answers) and for the algebra of the scaling.
    - A raised exception is a value of [exn]; code that can raise returns
      in [exn + A]; code that also touches the process state runs in the
      monad [M]. *)

From Stdlib Require Import String Ascii List NArith ZArith QArith Qround Qabs Qminmax Qpower.
From Stdlib Require Import Lia Lqa Bool Arith Permutation Sorted.
From Stdlib Require Import DecimalString SpecFloat.
Import ListNotations.

Close Scope Q_scope.
Set Implicit Arguments.

(** ** Python strings *)

Definition str := list ascii.

(** A string literal of the source. *)
Definition lit (s : string) : str := list_ascii_of_string s.

Module Py.

(** [str.isspace] on one code point, which is also what [\s] matches in a
    [str] pattern: TAB..CR, FS..US, SPACE, NEL (U+0085), NBSP (U+00A0). *)
Definition isspace (c : ascii) : bool :=
  let n := N_of_ascii c in
  (((9 <=? n) && (n <=? 13)) || ((28 <=? n) && (n <=? 32))
   || (n =? 133) || (n =? 160))%N.

(** [[a-zA-Z]] *)
Definition is_ascii_alpha (c : ascii) : bool :=
  let n := N_of_ascii c in
  (((65 <=? n) && (n <=? 90)) || ((97 <=? n) && (n <=? 122)))%N.

(** [[a-z]] *)
Definition is_ascii_lower (c : ascii) : bool :=
  let n := N_of_ascii c in ((97 <=? n) && (n <=? 122))%N.

(** [\w] in a [str] pattern: alphanumeric code points ([str.isalnum]) and
    the underscore.  In Latin-1 these are the ASCII digits and letters,
    the ordinal indicators, the micro sign, the superscript digits, the
    vulgar fractions and the accented letters. *)
Definition is_word (c : ascii) : bool :=
  let n := N_of_ascii c in
  (((48 <=? n) && (n <=? 57)) || ((65 <=? n) && (n <=? 90)) || (n =? 95)
   || ((97 <=? n) && (n <=? 122))
   || (n =? 170) || (n =? 178) || (n =? 179) || (n =? 181)
   || (n =? 185) || (n =? 186) || ((188 <=? n) && (n <=? 190))
   || ((192 <=? n) && (n <=? 214)) || ((216 <=? n) && (n <=? 246))
   || (248 <=? n))%N.

(** [str.lower] on one code point: A-Z and the accented capitals
    U+00C0..U+00DE (but the multiplication sign U+00D7) move up by 32. *)
Definition lower_char (c : ascii) : ascii :=
  let n := N_of_ascii c in
  if (((65 <=? n) && (n <=? 90))
      || ((192 <=? n) && (n <=? 222) && negb (n =? 215)))%N
  then ascii_of_N (n + 32) else c.

Definition lower (s : str) : str := map lower_char s.

(** [itertools.dropwhile], used for the two halves of [str.strip]. *)
Fixpoint dropwhile (p : ascii -> bool) (s : str) : str :=
  match s with
  | [] => []
  | c :: s' => if p c then dropwhile p s' else s
  end.

Fixpoint takewhile (p : ascii -> bool) (s : str) : str :=
  match s with
  | [] => []
  | c :: s' => if p c then c :: takewhile p s' else []
  end.

Definition lstrip (s : str) : str := dropwhile isspace s.
Definition rstrip (s : str) : str := rev (dropwhile isspace (rev s)).

(** [str.strip()] *)
Definition strip (s : str) : str := rstrip (lstrip s).

(** Truth value of a [str]: non-empty. *)
Definition truthy (s : str) : bool :=
  match s with [] => false | _ => true end.

(** [str.split()] without arguments: the maximal runs of non-whitespace.
    [cur] is the run being read, most recent character first. *)
Fixpoint split_from (cur : str) (s : str) : list str :=
  match s with
  | [] => match cur with [] => [] | _ => [rev cur] end
  | c :: s' =>
      if isspace c
      then match cur with
           | [] => split_from [] s'
           | _ => rev cur :: split_from [] s'
           end
      else split_from (c :: cur) s'
  end.

Definition split (s : str) : list str := split_from [] s.

(** [sep.join(parts)] *)
Fixpoint join (sep : str) (parts : list str) : str :=
  match parts with
  | [] => []
  | [p] => p
  | p :: ps => p ++ sep ++ join sep ps
  end.

(** [l[:stop]] for a Python int [stop]. *)
Definition slice_to {A} (stop : Z) (l : list A) : list A :=
  let n := Z.of_nat (length l) in
  let stop' := if (stop <? 0)%Z then Z.max (n + stop) 0 else Z.min stop n in
  firstn (Z.to_nat stop') l.

(** [l[start:]] for a Python int [start]. *)
Definition slice_from {A} (start : Z) (l : list A) : list A :=
  let n := Z.of_nat (length l) in
  let start' := if (start <? 0)%Z then Z.max (n + start) 0 else Z.min start n in
  skipn (Z.to_nat start') l.

(** [str(n)] for an int. *)
Definition str_of_int (n : Z) : str :=
  lit (NilZero.string_of_int (Z.to_int n)).

End Py.

(** [a == b] on strings. *)
Definition str_eqb (a b : str) : bool :=
  if list_eq_dec ascii_dec a b then true else false.

(** ** Paths *)

(** [p.rfind(c)]: the last index of [c], or -1. *)
Fixpoint rfind_from (i best : Z) (c : ascii) (p : str) : Z :=
  match p with
  | [] => best
  | x :: p' => rfind_from (i + 1) (if (x =? c)%char then i else best) c p'
  end.

Definition rfind (c : ascii) (p : str) : Z := rfind_from 0 (-1) c p.

(** [os.path.splitext(p)] of [posixpath]: the extension starts at the last
    dot, provided the dot comes after the last slash and after a character
    of the file name that is not a dot. *)
Definition splitext (p : str) : str * str :=
  let sepIndex := rfind "/" p in
  let dotIndex := rfind "." p in
  if (dotIndex >? sepIndex)%Z then
    let stem :=
      firstn (Z.to_nat (dotIndex - (sepIndex + 1)))
             (skipn (Z.to_nat (sepIndex + 1)) p) in
    if existsb (fun ch => negb (ch =? ".")%char) stem
    then (firstn (Z.to_nat dotIndex) p, skipn (Z.to_nat dotIndex) p)
    else (p, [])
  else (p, []).

(** ** Regular expressions

    The three patterns of the sources are compiled by hand into matchers;
    the scanning loop of [re] (leftmost match, then on from its end) is
    shared by [re.split] and [re.findall]. *)

Module Re.

(** A pattern tried at one position: [prev] is the character before the
    position ([None] at the start of the text), [s] the text from the
    position on.  The answer is the length of the match at that position. *)
Definition matcher := option ascii -> str -> option nat.

(** The text cut by the scanner: what lies between two matches, and the
    matches. *)
Inductive chunk : Type :=
  | Gap (s : str)
  | Hit (s : str).

Section Scan.

Variable m : matcher.

(** The scanning loop.  [skip] characters still belong to the match
    found last; [gap] is the text read since then, most recent character
    first.  None of the patterns below matches the empty string, so a
    match of length 0 does not occur and is treated as no match. *)
Fixpoint scan (skip : nat) (prev : option ascii) (gap : str) (s : str)
  : list chunk :=
  match s with
  | [] => [Gap (rev gap)]
  | c :: s' =>
      match skip with
      | S k => scan k (Some c) gap s'
      | O =>
          match m prev s with
          | Some (S n) =>
              Gap (rev gap) :: Hit (firstn (S n) s) :: scan n (Some c) [] s'
          | _ => scan 0 (Some c) (c :: gap) s'
          end
      end
  end.

End Scan.

Fixpoint gaps (l : list chunk) : list str :=
  match l with
  | [] => []
  | Gap s :: l' => s :: gaps l'
  | Hit _ :: l' => gaps l'
  end.

Fixpoint hits (l : list chunk) : list str :=
  match l with
  | [] => []
  | Gap _ :: l' => hits l'
  | Hit s :: l' => s :: hits l'
  end.

(** [re.split(pattern, text)] for a pattern without groups. *)
Definition split (m : matcher) (text : str) : list str :=
  gaps (scan m 0 None [] text).

(** [re.findall(pattern, text)] for a pattern without groups. *)
Definition findall (m : matcher) (text : str) : list str :=
  hits (scan m 0 None [] text).

(** [[.!?]] *)
Definition is_sentence_end (c : ascii) : bool :=
  (c =? ".")%char || (c =? "!")%char || (c =? "?")%char.

(** Length of the longest prefix in a character class: a greedy [+]. *)
Definition run (p : ascii -> bool) (s : str) : nat :=
  length (Py.takewhile p s).

(** [(?<=[.!?])\s+] *)
Definition after_end_spaces : matcher := fun prev s =>
  match prev with
  | Some p =>
      if is_sentence_end p
      then match run Py.isspace s with O => None | n => Some n end
      else None
  | None => None
  end.

(** [[.!?]+] *)
Definition sentence_end_run : matcher := fun _ s =>
  match run is_sentence_end s with O => None | n => Some n end.

(** [\b] between two neighbours: exactly one of them is a word character
    (the outside of the text is not). *)
Definition word_boundary (a b : option ascii) : bool :=
  xorb (match a with Some c => Py.is_word c | None => false end)
       (match b with Some c => Py.is_word c | None => false end).

(** The greedy [{lo,}] followed by [\b]: the longest count first, then
    shorter ones down to [lo], until [\b] holds after the repetition. *)
Fixpoint backtrack (s : str) (lo j : nat) : option nat :=
  match j with
  | O => None
  | S j' =>
      if j <? lo then None
      else if word_boundary (nth_error s j') (nth_error s j) then Some j
      else backtrack s lo j'
  end.

(** [\b[a-zA-Z]{3,}\b] *)
Definition alpha3_word : matcher := fun prev s =>
  if word_boundary prev (hd_error s)
  then backtrack s 3 (run Py.is_ascii_alpha s)
  else None.

End Re.

(** ** Exceptions *)

Inductive exn_class : Type :=
  | ValueError
  | IndexError
  | OtherException.

(** An exception: its class and [str(e)]. *)
Record exn : Type := Raise { exn_class_of : exn_class; exn_msg : str }.

(** ** [src/summarizer_extractive.py] *)

(** [sentence_tokenize(text)] *)
Definition sentence_tokenize (text : str) : list str :=
  if negb (Py.truthy text) || negb (Py.truthy (Py.strip text)) then []
  else
    let sentences := Re.split Re.after_end_spaces text in
    let sentences :=
      map Py.strip (filter (fun s => Py.truthy (Py.strip s)) sentences) in
    let sentences := filter (fun s => 3 <? length s) sentences in
    sentences.

(** A highlight: [{"sentence": ..., "score": ...}]. *)
Record Highlight : Type := mkHighlight { sentence : str; score : Q }.

(** The libraries the summarizer calls: [sentence_transformers], [numpy]
    and [sklearn].  The [n]-th construction of a [SentenceTransformer] in
    the process either raises or gives a handle; [encode] stands for
    [model.encode(sentences, show_progress_bar=False)], [np_mean] for
    [np.mean(embeddings, axis=0, keepdims=True)], [cosine_similarity] for
    [cosine_similarity(embeddings, doc_embedding).flatten()] and [argsort]
    for [np.argsort]. *)
Record Libs : Type := mkLibs {
  Handle : Type;
  Emb : Type;
  SentenceTransformer : str -> nat -> exn + Handle;
  encode : Handle -> list str -> exn + Emb;
  np_mean : Emb -> exn + Emb;
  cosine_similarity : Emb -> Emb -> exn + list Q;
  argsort : list Q -> list nat
}.

(** What the process did that can be observed from outside. *)
Inductive event : Type :=
  | EvLoad (ok : bool)
  | EvEncode (sentences : list str)
  | EvPrint (line : str).

Definition is_load (e : event) : bool :=
  match e with EvLoad _ => true | _ => false end.

Definition is_loaded (e : event) : bool :=
  match e with EvLoad true => true | _ => false end.

Definition is_encode (e : event) : bool :=
  match e with EvEncode _ => true | _ => false end.

(** The state of the process: the module global [_model] and the events so
    far, most recent first. *)
Record World (H : Type) : Type := mkWorld {
  _model : option H;
  events : list event
}.

Arguments mkWorld {H} _ _.

(** The state of a fresh process: [_model = None]. *)
Definition fresh (H : Type) : World H := mkWorld None [].

(** Computations that read and write the process state and may raise. *)
Definition M (H A : Type) : Type := World H -> (exn + A) * World H.

Definition ret {H A} (a : A) : M H A := fun w => (inr a, w).

Definition throw {H A} (e : exn) : M H A := fun w => (inl e, w).

Definition bind {H A B} (c : M H A) (k : A -> M H B) : M H B :=
  fun w =>
    match c w with
    | (inr a, w') => k a w'
    | (inl e, w') => (inl e, w')
    end.

(** [try: body except Exception as e: handler(e)] *)
Definition try_except {H A} (body : M H A) (handler : exn -> M H A) : M H A :=
  fun w =>
    match body w with
    | (inr a, w') => (inr a, w')
    | (inl e, w') => handler e w'
    end.

(** A library call that leaves the process state alone. *)
Definition call {H A} (r : exn + A) : M H A := fun w => (r, w).

Definition emit {H} (e : event) : M H unit :=
  fun w => (inr tt, mkWorld (_model w) (e :: events w)).

Declare Scope monad_scope.
Delimit Scope monad_scope with monad.
Notation "x <- c ;; k" := (bind c (fun x => k))
  (at level 61, c at next level, right associativity) : monad_scope.
Notation "c ;;; k" := (bind c (fun _ => k))
  (at level 61, right associativity) : monad_scope.

(** [[f(x) for x in l]] where [f] may raise. *)
Fixpoint traverse {A B} (f : A -> exn + B) (l : list A) : exn + list B :=
  match l with
  | [] => inr []
  | x :: l' =>
      match f x with
      | inl e => inl e
      | inr y =>
          match traverse f l' with
          | inl e => inl e
          | inr ys => inr (y :: ys)
          end
      end
  end.

(** [l[i]] for an index that is not negative. *)
Definition getitem {A} (l : list A) (i : nat) : exn + A :=
  match nth_error l i with
  | Some x => inr x
  | None => inl (Raise IndexError (lit "index out of range"))
  end.

(** [sorted] on a list of indices. *)
Fixpoint insert_sorted (i : nat) (l : list nat) : list nat :=
  match l with
  | [] => [i]
  | j :: l' => if i <=? j then i :: l else j :: insert_sorted i l'
  end.

Fixpoint sorted (l : list nat) : list nat :=
  match l with
  | [] => []
  | i :: l' => insert_sorted i (sorted l')
  end.

Definition SENTENCE_MODEL_NAME : str := lit "all-MiniLM-L6-v2".

Section Summarizer.

Variable L : Libs.

Local Open Scope monad_scope.

(** [get_model()] *)
Definition get_model : M (Handle L) (Handle L) := fun w =>
  match _model w with
  | None =>
      match SentenceTransformer L SENTENCE_MODEL_NAME
              (length (filter is_load (events w))) with
      | inr h => (inr h, mkWorld (Some h) (EvLoad true :: events w))
      | inl e =>
          (inl (Raise OtherException
                  (lit "Failed to load sentence model '"
                   ++ SENTENCE_MODEL_NAME ++ lit "': " ++ exn_msg e)),
           mkWorld None (EvLoad false :: events w))
      end
  | Some h => (inr h, w)
  end.

(** The body of the [try] of [summarize_extract]. *)
Definition embedding_path (sentences : list str) (top_k : Z)
  : M (Handle L) (str * list Highlight) :=
  model <- get_model ;;
  emit (EvEncode sentences) ;;;
  embeddings <- call (encode L model sentences) ;;
  doc_embedding <- call (np_mean L embeddings) ;;
  scores <- call (cosine_similarity L embeddings doc_embedding) ;;
  let k := Z.min top_k (Z.of_nat (length sentences)) in
  let top_indices := rev (Py.slice_from (- k) (argsort L scores)) in
  highlights <- call (traverse (fun i =>
                  match getitem sentences i, getitem scores i with
                  | inr s, inr x => inr (mkHighlight s x)
                  | inl e, _ => inl e
                  | _, inl e => inl e
                  end) top_indices) ;;
  let ordered_indices := sorted top_indices in
  parts <- call (traverse (getitem sentences) ordered_indices) ;;
  ret (Py.join (lit " ") parts, highlights).

(** The [except Exception as e] of [summarize_extract]. *)
Definition fallback_path (sentences : list str) (top_k : Z) (e : exn)
  : M (Handle L) (str * list Highlight) :=
  emit (EvPrint (lit "Warning: Summarization failed, using fallback: "
                 ++ exn_msg e)) ;;;
  let fallback_sentences := Py.slice_to top_k sentences in
  let highlights := map (fun sent => mkHighlight sent 0) fallback_sentences in
  ret (Py.join (lit " ") fallback_sentences, highlights).

(** [summarize_extract(transcript_text, top_k)] *)
Definition summarize_extract (transcript_text : str) (top_k : Z)
  : M (Handle L) (str * list Highlight) :=
  let sentences := sentence_tokenize transcript_text in
  if length sentences =? 0 then ret ([], [])
  else if (Z.of_nat (length sentences) <=? top_k)%Z then
    let highlights := map (fun sent => mkHighlight sent 1) sentences in
    ret (Py.strip transcript_text, highlights)
  else
    try_except (embedding_path sentences top_k)
               (fallback_path sentences top_k).

End Summarizer.

(** ** [app.py]: keywords and statistics *)

(** [STOP_WORDS]: the words of the literal, split at whitespace. *)
Definition STOP_WORDS : list str := Py.split (lit "
a about above after again against all am an and any are aren't as at be
because been before being below between both but by can't cannot could
couldn't did didn't do does doesn't doing don't down during each few for
from further get got had hadn't has hasn't have haven't having he he'd
he'll he's her here here's hers herself him himself his how how's i i'd
i'll i'm i've if in into is isn't it it's its itself let's me more most
mustn't my myself no nor not of off on once only or other ought our ours
ourselves out over own same shan't she she'd she'll she's should
shouldn't so some such than that that's the their theirs them themselves
then there there's these they they'd they'll they're they've this those
through to too under until up very was wasn't we we'd we'll we're we've
were weren't what what's when when's where where's which while who who's
whom why why's will with won't would wouldn't you you'd you'll you're
you've your yours yourself yourselves just also like well really going
know think right yeah yes one two get got much way thing things going
gonna actually even still kind sort actually gonna know like really well
").

(** [w in STOP_WORDS] *)
Definition in_stop_words (w : str) : bool := existsb (str_eqb w) STOP_WORDS.

(** A [collections.Counter]: the keys in the order of their first
    insertion, each with its count. *)
Definition Counter_t := list (str * nat).

Fixpoint counter_incr (w : str) (c : Counter_t) : Counter_t :=
  match c with
  | [] => [(w, 1)]
  | (v, n) :: c' =>
      if str_eqb v w then (v, S n) :: c' else (v, n) :: counter_incr w c'
  end.

(** [Counter(iterable)] *)
Definition Counter (l : list str) : Counter_t :=
  fold_left (fun c w => counter_incr w c) l [].

(** [sorted(items, key=itemgetter(1), reverse=True)]: stable, so items of
    equal count keep their order. *)
Fixpoint insert_by_count (x : str * nat) (l : list (str * nat))
  : list (str * nat) :=
  match l with
  | [] => [x]
  | y :: l' =>
      if snd x <? snd y then y :: insert_by_count x l' else x :: l
  end.

Fixpoint sort_by_count (l : list (str * nat)) : list (str * nat) :=
  match l with
  | [] => []
  | x :: l' => insert_by_count x (sort_by_count l')
  end.

(** [Counter.most_common(n)] for an int [n], which is
    [heapq.nlargest(n, items, key=itemgetter(1))]: nothing for [n <= 0],
    else the first [n] items of the stable descending sort. *)
Definition most_common (n : Z) (c : Counter_t) : list (str * nat) :=
  if (n <=? 0)%Z then [] else firstn (Z.to_nat n) (sort_by_count c).

(** [{"word": ..., "count": ...}] *)
Record Keyword : Type := mkKeyword { word : str; count : nat }.

(** [extract_keywords(text, top_n)] *)
Definition extract_keywords (text : str) (top_n : Z) : list Keyword :=
  let words := Re.findall Re.alpha3_word (Py.lower text) in
  let filtered := filter (fun w => negb (in_stop_words w)) words in
  let counter := Counter filtered in
  map (fun wc => mkKeyword (fst wc) (snd wc)) (most_common top_n counter).

(** The default of [top_n]. *)
Definition extract_keywords_default (text : str) : list Keyword :=
  extract_keywords text 12.

(** A segment of the recognizer: [{'text': ..., 'start': ..., 'end': ...}],
    the two times being optional keys. *)
Record Segment : Type := mkSegment {
  seg_text : str;
  seg_start : option Q;
  seg_end : option Q
}.

(** [round(x)]: to the nearest integer, a tie to the even one. *)
Definition py_round (x : Q) : Z :=
  let f := Qfloor x in
  match (x - inject_Z f ?= 1 # 2)%Q with
  | Lt => f
  | Gt => (f + 1)%Z
  | Eq => if Z.even f then f else (f + 1)%Z
  end.

(** [round(x, 1)]: to one decimal. *)
Definition py_round1 (x : Q) : Q := (inject_Z (py_round (x * 10)) / 10)%Q.

(** The dict [compute_stats] returns. *)
Record Stats : Type := mkStats {
  word_count : nat;
  sentence_count : nat;
  char_count : nat;
  duration_sec : Q;
  reading_time_min : Z
}.

(** [compute_stats(transcript, segments)] *)
Definition compute_stats (transcript : str) (segments : list Segment) : Stats :=
  let words := Py.split transcript in
  let word_count := length words in
  let sentence_count :=
    match length (Re.findall Re.sentence_end_run transcript) with
    | O => 1
    | n => n
    end in
  let char_count := length transcript in
  let duration_sec :=
    match rev segments with
    | [] => 0%Q
    | last_seg :: _ =>
        match seg_end last_seg with
        | Some e => e
        | None => 0%Q
        end
    end in
  let reading_time_min :=
    Z.max 1 (py_round (Z.of_nat word_count # 200)) in
  mkStats word_count sentence_count char_count
          (py_round1 duration_sec) reading_time_min.

(** ** [src/preprocess.py]

    The samples are rationals here and the arithmetic is exact; [F32]
    below has the same code on the numbers of single precision. *)

(** What [librosa.load(path, sr=None, mono=False)] gives: one row of
    samples, or one row per channel. *)
Inductive ndarray : Type :=
  | Arr1 (samples : list Q)
  | Arr2 (channels : list (list Q)).

(** The file [sf.write] is asked to write. *)
Record WavOut : Type := mkWavOut {
  out_path : str;
  out_samples : list Q;
  out_samplerate : Z;
  out_subtype : str
}.

(** The audio libraries: [librosa_load] stands for
    [librosa.load(path, sr=None, mono=False)], [pydub_installed] tells
    whether [from pydub import AudioSegment] succeeds, [pydub_convert]
    stands for [AudioSegment.from_file] followed by the export to a
    temporary wave file and gives the path of that file, [resample] stands
    for [librosa.resample(y, orig_sr=, target_sr=)] and [sf_write] for
    [sf.write]. *)
Record AudioLibs : Type := mkAudioLibs {
  librosa_load : str -> exn + (ndarray * Z);
  pydub_installed : bool;
  pydub_convert : str -> exn + str;
  resample : list Q -> Z -> Z -> exn + list Q;
  sf_write : WavOut -> exn + unit
}.

Definition Qsum (l : list Q) : Q := fold_right Qplus 0%Q l.

(** [np.mean(y, axis=0)] on rows of equal length: the mean of each column. *)
Definition mean_axis0 (channels : list (list Q)) : list Q :=
  match channels with
  | [] => []
  | c0 :: _ =>
      map (fun i =>
             (Qsum (map (fun c => nth i c 0%Q) channels)
              / inject_Z (Z.of_nat (length channels)))%Q)
          (seq 0 (length c0))
  end.

(** [np.max(np.abs(y))], which raises on an empty array. *)
Definition max_abs (y : list Q) : exn + Q :=
  match y with
  | [] =>
      inl (Raise ValueError
             (lit "zero-size array to reduction operation maximum which has no identity"))
  | x :: y' => inr (fold_left (fun m v => Qmax m (Qabs v)) y' (Qabs x))
  end.

(** [x > 0] *)
Definition Qpositive (x : Q) : bool := negb (Qle_bool x 0).

(** [if y.ndim > 1: y = np.mean(y, axis=0)] *)
Definition downmix (y : ndarray) : list Q :=
  match y with
  | Arr1 samples => samples
  | Arr2 channels => mean_axis0 channels
  end.

(** The two [except] clauses of [save_wav_mono_16k]: a [ValueError]
    passes, any other exception becomes one. *)
Definition reraise_value_error (e : exn) : exn :=
  match exn_class_of e with
  | ValueError => e
  | _ => Raise ValueError (lit "Failed to process audio file: " ++ exn_msg e)
  end.

Section Preprocess.

Variable A : AudioLibs.

(** The [except Exception as e] of [_load_via_pydub]. *)
Definition conversion_error (e : exn) : exn :=
  Raise ValueError
    (lit "Failed to convert audio file: " ++ exn_msg e
     ++ lit ". Make sure ffmpeg is installed on your system.").

(** [_load_via_pydub(input_path)] *)
Definition _load_via_pydub (input_path : str) : exn + (ndarray * Z) :=
  if negb (pydub_installed A) then
    inl (Raise ValueError
           (lit "pydub is required for this audio format. Install with: pip install pydub  (also requires ffmpeg on your system)"))
  else
    match pydub_convert A input_path with
    | inl e => inl (conversion_error e)
    | inr tmp_wav_path =>
        match librosa_load A tmp_wav_path with
        | inl e => inl (conversion_error e)
        | inr r => inr r
        end
    end.

(** [_load_audio(input_path)] *)
Definition _load_audio (input_path : str) : exn + (ndarray * Z) :=
  let ext := Py.lower (snd (splitext input_path)) in
  if str_eqb ext (lit ".webm") then _load_via_pydub input_path
  else
    match librosa_load A input_path with
    | inr r => inr r
    | inl _ => _load_via_pydub input_path
    end.

(** The [try] body of [save_wav_mono_16k]. *)
Definition save_wav_body (input_path out : str) (target_sr : Z)
  : exn + WavOut :=
  match _load_audio input_path with
  | inl e => inl e
  | inr (y, sr) =>
      let y := downmix y in
      match (if (sr =? target_sr)%Z then inr y
             else resample A y sr target_sr) with
      | inl e => inl e
      | inr y =>
          match max_abs y with
          | inl e => inl e
          | inr max_val =>
              if Qpositive max_val then
                let y := map (fun v => (v / max_val)%Q) y in
                let f := mkWavOut out y target_sr (lit "PCM_16") in
                match sf_write A f with
                | inl e => inl e
                | inr _ => inr f
                end
              else
                inl (Raise ValueError (lit "Audio file contains only silence"))
          end
      end
  end.

(** [save_wav_mono_16k(input_path, out_path, target_sr)].  The value is
    the file that was written. *)
Definition save_wav_mono_16k (input_path out : str) (target_sr : Z)
  : exn + WavOut :=
  match save_wav_body input_path out target_sr with
  | inr f => inr f
  | inl e => inl (reraise_value_error e)
  end.

End Preprocess.

(** ** [src/asr_vosk.py] *)

(** One entry of a recognizer result's ['result'] list. *)
Record WordInfo : Type := mkWordInfo {
  w_start : option Q;
  w_end : option Q
}.

(** [json.loads(rec.Result())]: the keys the code reads. *)
Record RecResult : Type := mkRecResult {
  r_text : option str;
  r_result : option (list WordInfo)
}.

(** An open wave file: its header and its frames. *)
Record Wave : Type := mkWave {
  getnchannels : Z;
  getsampwidth : Z;
  getframerate : Z;
  frames : list Z
}.

(** [vosk] and [wave].  [AcceptWaveform] gives [None] where the binding
    raises its [Exception("Failed to process waveform")]. *)
Record AsrLibs : Type := mkAsrLibs {
  VoskModel : Type;
  Rec : Type;
  Model : str -> exn + VoskModel;
  wave_open : str -> exn + Wave;
  KaldiRecognizer : VoskModel -> Z -> Rec;
  AcceptWaveform : Rec -> list Z -> option (bool * Rec);
  Result : Rec -> RecResult * Rec;
  FinalResult : Rec -> RecResult
}.

(** The successive values of [wf.readframes(n)] before the empty one.
    [cur] is the chunk being filled, most recent frame first, and [room]
    what it can still take. *)
Fixpoint readframes_all (n room : nat) (cur : list Z) (l : list Z)
  : list (list Z) :=
  match l with
  | [] => match cur with [] => [] | _ => [rev cur] end
  | x :: l' =>
      match room with
      | O =>
          match n with
          | O => []
          | S n' => rev cur :: readframes_all n n' [x] l'
          end
      | S room' => readframes_all n room' (x :: cur) l'
      end
  end.

(** The segment built from one result, if its text is not blank. *)
Definition segment_of (result : RecResult) : option Segment :=
  match r_text result with
  | Some t =>
      if Py.truthy (Py.strip t) then
        match r_result result with
        | Some (w0 :: ws) =>
            let first := w0 in
            let last := List.last ws w0 in
            Some (mkSegment (Py.strip t)
                    (Some (match w_start first with Some x => x | None => 0%Q end))
                    (Some (match w_end last with Some x => x | None => 0%Q end)))
        | _ => Some (mkSegment (Py.strip t) None None)
        end
      else None
  | None => None
  end.

Definition append_opt {A} (l : list A) (o : option A) : list A :=
  match o with Some x => l ++ [x] | None => l end.

Section Asr.

Variable V : AsrLibs.

(** The [while True] loop over the chunks: the recognizer and the
    segments after it, or the exception of [AcceptWaveform]. *)
Fixpoint feed (rec : Rec V) (segments : list Segment)
  (chunks : list (list Z)) : exn + (Rec V * list Segment) :=
  match chunks with
  | [] => inr (rec, segments)
  | data :: chunks' =>
      match AcceptWaveform V rec data with
      | None =>
          inl (Raise OtherException (lit "Failed to process waveform"))
      | Some (true, rec') =>
          let (result, rec'') := Result V rec' in
          feed rec'' (append_opt segments (segment_of result)) chunks'
      | Some (false, rec') => feed rec' segments chunks'
      end
  end.

(** [transcribe_file(wav_path, model_path)] *)
Definition transcribe_file (wav_path model_path : str)
  : exn + (str * list Segment) :=
  match Model V model_path with
  | inl e =>
      inl (Raise OtherException
             (lit "Failed to load Vosk model from " ++ model_path
              ++ lit ": " ++ exn_msg e))
  | inr model =>
      match wave_open V wav_path with
      | inl e =>
          inl (Raise ValueError (lit "Failed to open WAV file: " ++ exn_msg e))
      | inr wf =>
          if negb (getnchannels wf =? 1)%Z then
            inl (Raise ValueError
                   (lit "WAV must be mono (1 channel), got "
                    ++ Py.str_of_int (getnchannels wf) ++ lit " channels"))
          else if negb (getsampwidth wf =? 2)%Z then
            inl (Raise ValueError
                   (lit "WAV must be 16-bit (2 bytes), got "
                    ++ Py.str_of_int (getsampwidth wf) ++ lit " bytes"))
          else if negb (getframerate wf =? 16000)%Z then
            inl (Raise ValueError
                   (lit "WAV must be 16kHz, got "
                    ++ Py.str_of_int (getframerate wf) ++ lit "Hz"))
          else
            let rec := KaldiRecognizer V model (getframerate wf) in
            match feed rec [] (readframes_all 4000 4000 [] (frames wf)) with
            | inl e => inl e
            | inr (rec, segments) =>
                let final := FinalResult V rec in
                let segments := append_opt segments (segment_of final) in
                let full_transcript :=
                  Py.join (lit " ")
                    (map (fun s => Py.strip (seg_text s)) segments) in
                inr (full_transcript, segments)
            end
      end
  end.

End Asr.

(** ** [app.py]: the request handler *)

Definition UPLOAD_FOLDER : str := lit "uploads".
Definition ALLOWED_EXT : list str :=
  [lit ".wav"; lit ".mp3"; lit ".m4a"; lit ".flac"; lit ".ogg"; lit ".webm"].
Definition VOSK_MODEL_PATH : str := lit "models/vosk-model".

(** [allowed_file(filename)] *)
Definition allowed_file (filename : str) : bool :=
  let ext := snd (splitext (Py.lower filename)) in
  existsb (str_eqb ext) ALLOWED_EXT.

(** [a < b] on strings: by code points, a proper prefix first. *)
Fixpoint str_ltb (a b : str) : bool :=
  match a, b with
  | _, [] => false
  | [], _ :: _ => true
  | x :: a', y :: b' =>
      (N_of_ascii x <? N_of_ascii y)%N
      || ((N_of_ascii x =? N_of_ascii y)%N && str_ltb a' b')
  end.

Fixpoint insert_str (x : str) (l : list str) : list str :=
  match l with
  | [] => [x]
  | y :: l' => if str_ltb y x then y :: insert_str x l' else x :: l
  end.

(** [sorted] on a set of strings. *)
Definition sorted_strs (l : list str) : list str :=
  fold_right insert_str [] l.

(** [round(x, 2)] *)
Definition py_round2 (x : Q) : Q := (inject_Z (py_round (x * 100)) / 100)%Q.

(** The file of the form field [audio]: its name and the size it has once
    saved. *)
Record Upload : Type := mkUpload {
  filename : str;
  saved_size : Z
}.

(** The JSON body of a response. *)
Inductive Body : Type :=
  | ErrorBody (error : str)
  | ResultBody (transcript summary : str) (highlights : list Highlight)
      (keywords : list Keyword) (stats : Stats) (file_size_mb : Q)
      (segments : list Segment).

Record Response : Type := mkResponse { body : Body; status : Z }.

(** [werkzeug], [uuid] and [tempfile] as [process] uses them. *)
Record WebLibs : Type := mkWebLibs {
  secure_filename : str -> str;
  uuid4_hex : str;
  temp_wav_name : str
}.

(** [tmp_in]: where [process] saves an upload of this name. *)
Definition saved_upload_path (W : WebLibs) (name : str) : str :=
  let fname := secure_filename W name in
  let fname := if Py.truthy fname then fname else lit "upload" in
  let ext := snd (splitext fname) in
  let unique_fname := uuid4_hex W ++ ext in
  UPLOAD_FOLDER ++ lit "/" ++ unique_fname.

Section Process.

Variable L : Libs.
Variable A : AudioLibs.
Variable V : AsrLibs.
Variable W : WebLibs.

Local Open Scope monad_scope.

(** The [try] body of [process], from the saved upload on: the steps
    after [file_size] has been read. *)
Definition process_upload (tmp_in : str) (file_size : Z)
  : M (Handle L) Response :=
  if (file_size =? 0)%Z then
    ret (mkResponse (ErrorBody (lit "Uploaded file is empty")) 400)
  else
    let wav_path := temp_wav_name W in
    _ <- call (save_wav_mono_16k A tmp_in wav_path 16000) ;;
    r <- call (transcribe_file V wav_path VOSK_MODEL_PATH) ;;
    let (transcript, segments) := (r : str * list Segment) in
    if negb (Py.truthy transcript) || negb (Py.truthy (Py.strip transcript))
    then ret (mkResponse (ErrorBody (lit "No speech detected in audio file")) 400)
    else
      sh <- summarize_extract L transcript 5 ;;
      let (summary, top_sentences) := (sh : str * list Highlight) in
      let keywords := extract_keywords_default transcript in
      let stats := compute_stats transcript segments in
      let file_size_mb :=
        py_round2 (inject_Z file_size / inject_Z (1024 * 1024))%Q in
      ret (mkResponse
             (ResultBody transcript summary top_sentences keywords stats
                file_size_mb (Py.slice_to 50 segments))
             200).

(** The [try] body of [process]. *)
Definition process_body (files_audio : option Upload)
  : M (Handle L) Response :=
  match files_audio with
  | None => ret (mkResponse (ErrorBody (lit "No file uploaded")) 400)
  | Some f =>
      if str_eqb (filename f) []
      then ret (mkResponse (ErrorBody (lit "No file selected")) 400)
      else if negb (allowed_file (filename f))
      then ret (mkResponse
                  (ErrorBody (lit "Invalid file type. Allowed: "
                              ++ Py.join (lit ", ") (sorted_strs ALLOWED_EXT)))
                  400)
      else
        let tmp_in := saved_upload_path W (filename f) in
        process_upload tmp_in (saved_size f)
  end.

(** The two [except] clauses of [process]. *)
Definition process_except (e : exn) : M (Handle L) Response :=
  match exn_class_of e with
  | ValueError =>
      ret (mkResponse (ErrorBody (lit "Audio format error: " ++ exn_msg e)) 400)
  | _ =>
      ret (mkResponse (ErrorBody (lit "Processing failed: " ++ exn_msg e)) 500)
  end.

(** [process()], for the file of the form field [audio] if there is one. *)
Definition process (files_audio : option Upload) : M (Handle L) Response :=
  try_except (process_body files_audio) process_except.

End Process.

(** ** What the summarizer relies on in its libraries *)

(** [np.argsort] gives the indices of its argument, each once, in an order
    along which the values do not decrease; the similarity has one score
    per encoded sentence. *)
Record LibsOk (L : Libs) : Prop := mkLibsOk {
  argsort_perm :
    forall sc, Permutation (argsort L sc) (seq 0 (length sc));
  argsort_sorted :
    forall sc,
      StronglySorted (fun i j => (nth i sc 0 <= nth j sc 0)%Q) (argsort L sc);
  scores_length :
    forall h ss e d sc,
      encode L h ss = inr e -> cosine_similarity L e d = inr sc ->
      length sc = length ss
}.

(** ** Concrete libraries, to run the model *)

(** A stable argsort by insertion. *)
Fixpoint insert_idx (sc : list Q) (i : nat) (l : list nat) : list nat :=
  match l with
  | [] => [i]
  | j :: l' =>
      if Qle_bool (nth i sc 0%Q) (nth j sc 0%Q) then i :: l
      else j :: insert_idx sc i l'
  end.

Definition argsort_stable (sc : list Q) : list nat :=
  fold_right (insert_idx sc) [] (seq 0 (length sc)).

(** Libraries in which a sentence is embedded as its length and scored
    by it. *)
Definition length_libs : Libs :=
  mkLibs (fun _ _ => inr tt)
         (fun _ ss => inr (map (fun s => inject_Z (Z.of_nat (length s))) ss))
         (fun e => inr e)
         (fun e _ => inr e)
         argsort_stable.

(** Libraries whose model cannot be loaded. *)
Definition broken_libs : Libs :=
  mkLibs (Handle := unit) (Emb := list Q)
         (fun _ _ => inl (Raise OtherException (lit "no such model")))
         (fun _ _ => inl (Raise OtherException (lit "no model")))
         (fun e => inr e)
         (fun e _ => inr e)
         argsort_stable.

(** Libraries whose model loads at the third attempt. *)
Definition flaky_libs : Libs :=
  mkLibs (Handle := nat) (Emb := list Q)
         (fun _ n => if n <? 2 then inl (Raise OtherException (lit "busy"))
                     else inr n)
         (fun _ ss => inr (map (fun s => inject_Z (Z.of_nat (length s))) ss))
         (fun e => inr e)
         (fun e _ => inr e)
         argsort_stable.

Definition four_sentences : str :=
  lit "This is great. It works well. Testing now. Final check done.".

Definition six_sentences : str :=
  lit "Short one here. A much longer sentence follows it. Tiny bit. Then a sentence of middle size. Another. The last of the six sentences.".

(** ** Order-preserving selection *)

(** [subseq s l]: [s] is [l] with some elements left out. *)
Inductive subseq {A : Type} : list A -> list A -> Prop :=
  | subseq_nil : forall l, subseq [] l
  | subseq_take : forall x s l, subseq s l -> subseq (x :: s) (x :: l)
  | subseq_skip : forall x s l, subseq s l -> subseq s (x :: l).

(** ** The life of a process *)

(** The states a process goes through: from one state to a later one by
    calls of [get_model] and [summarize_extract], the two functions that
    touch the state. *)
Inductive steps (L : Libs) : World (Handle L) -> World (Handle L) -> Prop :=
  | steps_refl : forall w, steps L w w
  | steps_get_model : forall w w',
      steps L w w' -> steps L w (snd (get_model L w'))
  | steps_summarize : forall w w' text top_k,
      steps L w w' -> steps L w (snd (summarize_extract L text top_k w')).

(** The successful loads recorded in a state. *)
Definition loads_done {H} (w : World H) : nat :=
  length (filter is_loaded (events w)).

(** [_model] holds a handle exactly when one load succeeded, and no load
    succeeded otherwise. *)
Definition model_inv {H} (w : World H) : Prop :=
  match _model w with
  | None => loads_done w = 0
  | Some _ => loads_done w = 1
  end.

(** From [w] to [w']: the invariant is kept and a cached handle stays. *)
Definition evolves {H} (w w' : World H) : Prop :=
  (model_inv w -> model_inv w') /\
  (forall h, _model w = Some h -> _model w' = Some h).

(** ** Splitting at the ends of sentences, as the specification words it *)

Definition is_end_opt (prev : option ascii) : bool :=
  match prev with Some p => Re.is_sentence_end p | None => false end.

(** The character before the position that follows [s], when [prev] is
    the character before [s]. *)
Definition last_opt (prev : option ascii) (s : str) : option ascii :=
  match rev s with [] => prev | c :: _ => Some c end.

(** [s], read after the character [prev], has no [.], [!] or [?] that is
    followed by whitespace. *)
Fixpoint no_cut (prev : option ascii) (s : str) : bool :=
  match s with
  | [] => true
  | c :: s' => negb (is_end_opt prev && Py.isspace c) && no_cut (Some c) s'
  end.

(** [split_at_ends prev s pieces]: [pieces] are the parts of [s] (read
    after the character [prev]) between the separators, a separator being
    a maximal run of whitespace that follows a [.], [!] or [?]. *)
Inductive split_at_ends : option ascii -> str -> list str -> Prop :=
  | split_done : forall prev s,
      no_cut prev s = true -> split_at_ends prev s [s]
  | split_cut : forall prev p c w rest pieces,
      no_cut prev (p ++ [c]) = true ->
      Re.is_sentence_end c = true ->
      w <> [] ->
      forallb Py.isspace w = true ->
      match rest with [] => True | x :: _ => Py.isspace x = false end ->
      split_at_ends (last_opt None w) rest pieces ->
      split_at_ends prev ((p ++ [c]) ++ w ++ rest) ((p ++ [c]) :: pieces).

(** The tokenizer in the words of the specification: trim each piece,
    drop the empty ones and the ones of length 3 or less. *)
Definition keep_sentences (pieces : list str) : list str :=
  filter (fun s => Py.truthy s && (3 <? length s)) (map Py.strip pieces).

(** ** Keywords, as the specification words them *)

Definition str_dec : forall a b : str, {a = b} + {a <> b} :=
  list_eq_dec ascii_dec.

Definition is_word_opt (c : option ascii) : bool :=
  match c with Some x => Py.is_word x | None => false end.

(** [h] stands in [text] as a whole word: no word character before it and
    none after it. *)
Definition whole_word_in (h text : str) : Prop :=
  exists pre post,
    text = pre ++ h ++ post /\
    is_word_opt (last_opt None pre) = false /\
    is_word_opt (hd_error post) = false.

(** The list [filtered] of [extract_keywords]: the tokens that are
    counted. *)
Definition keyword_tokens (text : str) : list str :=
  filter (fun w => negb (in_stop_words w))
         (Re.findall Re.alpha3_word (Py.lower text)).

(** The place of the first occurrence of [w] in [l] ([length l] when there
    is none). *)
Fixpoint first_index (w : str) (l : list str) : nat :=
  match l with
  | [] => 0
  | x :: l' => if str_eqb x w then 0 else S (first_index w l')
  end.

(** [a] comes before [b] among the keywords: a larger count, or the same
    count and an earlier first occurrence among the tokens. *)
Definition ranks_before (toks : list str) (a b : Keyword) : Prop :=
  count b < count a \/
  (count a = count b /\
   first_index (word a) toks < first_index (word b) toks).

(** ** Statistics, as the specification words them *)

(** The number of runs of characters of a class in [s]: the number of
    places where a character of the class does not follow one.
    [inside] tells whether the character before [s] is in the class. *)
Fixpoint count_runs (p : ascii -> bool) (inside : bool) (s : str) : nat :=
  match s with
  | [] => 0
  | c :: s' =>
      (if p c && negb inside then 1 else 0) + count_runs p (p c) s'
  end.

Definition not_space (c : ascii) : bool := negb (Py.isspace c).

(** The ['end'] of the last segment if there is one and it has the key,
    else 0. *)
Fixpoint last_end (segments : list Segment) : Q :=
  match segments with
  | [] => 0%Q
  | [s] => match seg_end s with Some e => e | None => 0%Q end
  | _ :: l => last_end l
  end.

(** To the nearest integer, a tie to the even one, on a fraction of
    integers [n / 200]. *)
Definition round_div_200 (n : Z) : Z :=
  let q := (n / 200)%Z in
  let r := (n mod 200)%Z in
  if (r <? 100)%Z then q
  else if (100 <? r)%Z then (q + 1)%Z
  else if Z.even q then q else (q + 1)%Z.

(** ** Concrete audio and recognizer libraries *)

(** [sub] occurs in [s]. *)
Definition contains (sub s : str) : Prop :=
  exists pre post, s = pre ++ sub ++ post.

Definition stereo_samples : ndarray :=
  Arr2 [[(1 # 2)%Q; (-1 # 4)%Q; 0%Q]; [0%Q; (-1 # 4)%Q; (1 # 4)%Q]].

(** A decoder that gives two channels at 16 kHz, whatever the file. *)
Definition stereo_audio : AudioLibs :=
  mkAudioLibs
    (fun _ => inr (stereo_samples, 16000%Z))
    true
    (fun _ => inr (lit "/tmp/converted.wav"))
    (fun y _ _ => inr y)
    (fun _ => inr tt).

Definition stereo_wf : Wave := mkWave 2 2 16000 [0%Z; 0%Z].

(** A recognizer that hears nothing, on a file with two channels. *)
Definition stereo_wave : AsrLibs :=
  mkAsrLibs (VoskModel := unit) (Rec := unit)
    (fun _ => inr tt)
    (fun _ => inr stereo_wf)
    (fun _ _ => tt)
    (fun _ _ => Some (false, tt))
    (fun _ => (mkRecResult (Some []) None, tt))
    (fun _ => mkRecResult (Some []) None).

Definition plain_web : WebLibs :=
  mkWebLibs (fun name => name) (lit "0123456789abcdef0123456789abcdef")
            (lit "/tmp/tmpwav.wav").

(** What [Counter(l)] holds: its keys are the distinct members of [l] in
    the order of their first occurrence, each with the number of its
    occurrences. *)
Record counts (l : list str) (c : Counter_t) : Prop := mkCounts {
  counts_nodup : NoDup (map fst c);
  counts_value : forall v n, In (v, n) c ->
                             n = count_occ str_dec l v /\ In v l;
  counts_all : forall v, In v l -> In v (map fst c);
  counts_order :
    StronglySorted (fun a b => first_index a l < first_index b l) (map fst c)
}.

(** Larger count first; among equal counts, the order [P]. *)
Definition count_order (P : str * nat -> str * nat -> Prop)
  (a b : str * nat) : Prop :=
  snd b < snd a \/ (snd a = snd b /\ P a b).

Definition pets : str :=
  lit "The cat and the dog. Dog cat bird bird BIRD fish cat emu".

(** A decoder that gives one channel at 16 kHz whose peak is 1 already,
    and the same signal at a quarter of the volume under another name. *)
Definition loud_samples : list Q := [1%Q; (-1 # 2)%Q; (1 # 4)%Q].

Definition mono_audio : AudioLibs :=
  mkAudioLibs
    (fun path => if str_eqb path (lit "quiet.wav")
                 then inr (Arr1 (map (Qmult (1 # 4)) loud_samples), 16000%Z)
                 else inr (Arr1 loud_samples, 16000%Z))
    true
    (fun _ => inr (lit "/tmp/converted.wav"))
    (fun y _ _ => inr y)
    (fun _ => inr tt).

(** The [ValueError] of [_load_via_pydub] when pydub is missing. *)
Definition pydub_required : exn :=
  Raise ValueError
    (lit "pydub is required for this audio format. Install with: pip install pydub  (also requires ffmpeg on your system)").

(** A segment as [transcribe_file] builds it: a text that is not empty and
    has no whitespace at either end, and both times or none. *)
Definition well_formed_segment (s : Segment) : Prop :=
  seg_text s <> [] /\ Py.strip (seg_text s) = seg_text s /\
  (seg_start s = None <-> seg_end s = None).

(** A recognizer on a file of one channel that completes an utterance at
    each chunk, with word times, and has a last word without times. *)
Definition talking_wf : Wave := mkWave 1 2 16000 [1%Z; 2%Z; 3%Z].

Definition talking_wave : AsrLibs :=
  mkAsrLibs (VoskModel := unit) (Rec := nat)
    (fun _ => inr tt)
    (fun _ => inr talking_wf)
    (fun _ _ => 0)
    (fun rec _ => Some (true, S rec))
    (fun rec =>
       (mkRecResult (Some (lit " the cat sat on the mat. the cat slept. "))
          (Some [mkWordInfo (Some (1 # 10)%Q) (Some (5 # 10)%Q);
                 mkWordInfo (Some (6 # 10)%Q) (Some (123 # 100)%Q)]),
        rec))
    (fun _ => mkRecResult (Some (lit "good night cat")) None).

(** A recognizer that has no model, one that cannot open the file, one
    that fails on the first chunk, and one that hears nothing. *)
Definition no_model_wave : AsrLibs :=
  mkAsrLibs (VoskModel := unit) (Rec := unit)
    (fun _ => inl (Raise OtherException (lit "folder is empty")))
    (fun _ => inr talking_wf)
    (fun _ _ => tt)
    (fun _ _ => Some (false, tt))
    (fun _ => (mkRecResult (Some []) None, tt))
    (fun _ => mkRecResult (Some []) None).

Definition unreadable_wave : AsrLibs :=
  mkAsrLibs (VoskModel := unit) (Rec := unit)
    (fun _ => inr tt)
    (fun _ => inl (Raise OtherException (lit "file does not start with RIFF id")))
    (fun _ _ => tt)
    (fun _ _ => Some (false, tt))
    (fun _ => (mkRecResult (Some []) None, tt))
    (fun _ => mkRecResult (Some []) None).

Definition failing_wave : AsrLibs :=
  mkAsrLibs (VoskModel := unit) (Rec := unit)
    (fun _ => inr tt)
    (fun _ => inr talking_wf)
    (fun _ _ => tt)
    (fun _ _ => None)
    (fun _ => (mkRecResult (Some []) None, tt))
    (fun _ => mkRecResult (Some []) None).

Definition silent_wave : AsrLibs :=
  mkAsrLibs (VoskModel := unit) (Rec := unit)
    (fun _ => inr tt)
    (fun _ => inr talking_wf)
    (fun _ _ => tt)
    (fun _ _ => Some (true, tt))
    (fun _ => (mkRecResult (Some (lit "   ")) None, tt))
    (fun _ => mkRecResult None None).

(** A decoder that finds silence only. *)
Definition silent_audio : AudioLibs :=
  mkAudioLibs
    (fun _ => inr (Arr1 [0%Q; 0%Q], 16000%Z))
    true
    (fun _ => inr (lit "/tmp/converted.wav"))
    (fun y _ _ => inr y)
    (fun _ => inr tt).

(** The body of a successful response. *)
Definition is_result (b : Body) : bool :=
  match b with ResultBody _ _ _ _ _ _ _ => true | ErrorBody _ => false end.

(** If [encode] was called, a model is held. *)
Definition encode_inv {H} (w : World H) : Prop :=
  existsb is_encode (events w) = true -> _model w <> None.

(** ** Single precision: the samples as numpy holds them

    [librosa.load] gives an array of [float32].  Here the samples are the
    numbers of IEEE 754 binary32, NaN and the infinities among them, and
    [np.abs], [np.max], [>] and [/] are the operations of the standard on
    them, as [SpecFloat] defines them.  [np.mean] and the resampler are
    calls of the libraries. *)

Module F32.

(** binary32: 24 bits of precision, exponents below 128. *)
Definition prec : Z := 24.
Definition emax : Z := 128.

(** A [float32]: a zero, an infinity, NaN, or [m * 2 ^ e] with [m] and [e]
    in the canonical form of the format. *)
Record float32 : Type := mk {
  bits : spec_float;
  canonical : valid_binary prec emax bits = true
}.

Definition is_nan (x : spec_float) : bool :=
  match x with S754_nan => true | _ => false end.

Definition is_inf (x : spec_float) : bool :=
  match x with S754_infinity _ => true | _ => false end.

(** Neither NaN nor an infinity. *)
Definition is_finite (x : spec_float) : bool :=
  match x with S754_zero _ | S754_finite _ _ _ => true | _ => false end.

Definition zero : float32 := mk (S754_zero false) eq_refl.

Definition abs_canonical (x : spec_float) :
  valid_binary prec emax x = true -> valid_binary prec emax (SFabs x) = true :=
  match x with
  | S754_finite _ _ _ => fun H => H
  | _ => fun _ => eq_refl
  end.

(** [np.abs] *)
Definition abs (x : float32) : float32 :=
  mk (SFabs (bits x)) (abs_canonical (bits x) (canonical x)).

(** [-x] *)
Definition opp_canonical (x : spec_float) :
  valid_binary prec emax x = true -> valid_binary prec emax (SFopp x) = true :=
  match x with
  | S754_finite _ _ _ => fun H => H
  | _ => fun _ => eq_refl
  end.

Definition opp (x : float32) : float32 :=
  mk (SFopp (bits x)) (opp_canonical (bits x) (canonical x)).

(** [np.maximum(a, b)]: [a] when [a] is NaN or [a >= b], else [b]; so a
    NaN on either side gives NaN. *)
Definition maximum (a b : float32) : float32 :=
  if is_nan (bits a) || SFleb (bits b) (bits a) then a else b.

(** [np.max(np.abs(y))], which raises on an empty array. *)
Definition max_abs (y : list float32) : exn + float32 :=
  match y with
  | [] =>
      inl (Raise ValueError
             (lit "zero-size array to reduction operation maximum which has no identity"))
  | x :: y' => inr (fold_left (fun m v => maximum m (abs v)) y' (abs x))
  end.

(** [max_val > 0], false on NaN. *)
Definition positive (x : float32) : bool := SFltb (S754_zero false) (bits x).

(** [v / max_val] *)
Definition divide (v max_val : float32) : spec_float :=
  SFdiv prec emax (bits v) (bits max_val).







(** What [librosa.load(path, sr=None, mono=False)] gives: one row of
    samples, or one row per channel. *)
Inductive ndarray : Type :=
  | Arr1 (samples : list float32)
  | Arr2 (channels : list (list float32)).

(** The file [sf.write] is asked to write: the samples are the quotients
    as the division gives them. *)
Record WavOut : Type := mkWavOut {
  out_path : str;
  out_samples : list spec_float;
  out_samplerate : Z;
  out_subtype : str
}.

(** The audio libraries, as in [AudioLibs] above; [np_mean] stands for
    [np.mean(y, axis=0)] on an array of more than one row. *)
Record AudioLibs : Type := mkAudioLibs {
  librosa_load : str -> exn + (ndarray * Z);
  pydub_installed : bool;
  pydub_convert : str -> exn + str;
  np_mean : list (list float32) -> list float32;
  resample : list float32 -> Z -> Z -> exn + list float32;
  sf_write : WavOut -> exn + unit
}.

Section Preprocess.

Variable A : AudioLibs.

(** [if y.ndim > 1: y = np.mean(y, axis=0)] *)
Definition downmix (y : ndarray) : list float32 :=
  match y with
  | Arr1 samples => samples
  | Arr2 channels => np_mean A channels
  end.

(** [_load_via_pydub(input_path)] *)
Definition _load_via_pydub (input_path : str) : exn + (ndarray * Z) :=
  if negb (pydub_installed A) then
    inl (Raise ValueError
           (lit "pydub is required for this audio format. Install with: pip install pydub  (also requires ffmpeg on your system)"))
  else
    match pydub_convert A input_path with
    | inl e => inl (conversion_error e)
    | inr tmp_wav_path =>
        match librosa_load A tmp_wav_path with
        | inl e => inl (conversion_error e)
        | inr r => inr r
        end
    end.

(** [_load_audio(input_path)] *)
Definition _load_audio (input_path : str) : exn + (ndarray * Z) :=
  let ext := Py.lower (snd (splitext input_path)) in
  if str_eqb ext (lit ".webm") then _load_via_pydub input_path
  else
    match librosa_load A input_path with
    | inr r => inr r
    | inl _ => _load_via_pydub input_path
    end.

(** The [try] body of [save_wav_mono_16k]. *)
Definition save_wav_body (input_path out : str) (target_sr : Z)
  : exn + WavOut :=
  match _load_audio input_path with
  | inl e => inl e
  | inr (y, sr) =>
      let y := downmix y in
      match (if (sr =? target_sr)%Z then inr y
             else resample A y sr target_sr) with
      | inl e => inl e
      | inr y =>
          match max_abs y with
          | inl e => inl e
          | inr max_val =>
              if positive max_val then
                let y := map (fun v => divide v max_val) y in
                let f := mkWavOut out y target_sr (lit "PCM_16") in
                match sf_write A f with
                | inl e => inl e
                | inr _ => inr f
                end
              else
                inl (Raise ValueError (lit "Audio file contains only silence"))
          end
      end
  end.

(** [save_wav_mono_16k(input_path, out_path, target_sr)].  The value is
    the file that was written. *)
Definition save_wav_mono_16k (input_path out : str) (target_sr : Z)
  : exn + WavOut :=
  match save_wav_body input_path out target_sr with
  | inr f => inr f
  | inl e => inl (reraise_value_error e)
  end.

End Preprocess.

End F32.

(** ** Concrete signals in single precision *)

(** 0.1, 0.3 and 0.7 as [float32] has them. *)
Definition tenth : F32.float32 :=
  F32.mk (S754_finite false 13421773 (-27)) eq_refl.
Definition three_tenths : F32.float32 :=
  F32.mk (S754_finite false 10066330 (-25)) eq_refl.
Definition seven_tenths : F32.float32 :=
  F32.mk (S754_finite false 11744051 (-24)) eq_refl.

(** A decoder that gives the one-channel signal [y] at 16 kHz, whatever
    the file, with a writer that works or not. *)
Definition playing (y : list F32.float32) (writer_works : bool)
  : F32.AudioLibs :=
  F32.mkAudioLibs
    (fun _ => inr (F32.Arr1 y, 16000%Z))
    true
    (fun _ => inr (lit "/tmp/converted.wav"))
    (fun channels => hd [] channels)
    (fun y _ _ => inr y)
    (fun _ => if writer_works then inr tt
              else inl (Raise OtherException (lit "disk full"))).


(** ** Calls of [get_model] that overlap

    [get_model] tests [_model], constructs the model, assigns it and
    returns [_model] in four steps, and holds no lock: between two of the
    steps of one call, another thread of the process can run steps of its
    own call. *)

(** Where a call of [get_model] stands: before the test [_model is None],
    before [SentenceTransformer(...)], before the assignment of its value
    to [_model], before [return _model], or after it has returned or
    raised. *)
Inductive call_state (H : Type) : Type :=
  | AtTest
  | AtConstruct
  | AtAssign (h : H)
  | AtReturn
  | Returned (r : option H)
  | Raised (e : exn).

Arguments AtTest {H}.
Arguments AtConstruct {H}.
Arguments AtAssign {H} _.
Arguments AtReturn {H}.
Arguments Returned {H} _.
Arguments Raised {H} _.

(** The next step of a call in the state [w] of the process. *)
Definition call_step (L : Libs) (w : World (Handle L))
  (c : call_state (Handle L)) : World (Handle L) * call_state (Handle L) :=
  match c with
  | AtTest =>
      match _model w with
      | None => (w, AtConstruct)
      | Some _ => (w, AtReturn)
      end
  | AtConstruct =>
      match SentenceTransformer L SENTENCE_MODEL_NAME
              (length (filter is_load (events w))) with
      | inr h => (mkWorld (_model w) (EvLoad true :: events w), AtAssign h)
      | inl e =>
          (mkWorld (_model w) (EvLoad false :: events w),
           Raised (Raise OtherException
                     (lit "Failed to load sentence model '"
                      ++ SENTENCE_MODEL_NAME ++ lit "': " ++ exn_msg e)))
      end
  | AtAssign h => (mkWorld (Some h) (events w), AtReturn)
  | AtReturn => (w, Returned (_model w))
  | Returned r => (w, Returned r)
  | Raised e => (w, Raised e)
  end.

(** A call that runs its four steps with no other thread in between. *)
Definition call_alone (L : Libs) (w : World (Handle L))
  : World (Handle L) * call_state (Handle L) :=
  let (w1, c1) := call_step L w AtTest in
  let (w2, c2) := call_step L w1 c1 in
  let (w3, c3) := call_step L w2 c2 in
  call_step L w3 c3.

Fixpoint set_nth {A : Type} (i : nat) (x : A) (l : list A) {struct l}
  : list A :=
  match l, i with
  | [], _ => []
  | _ :: l', O => x :: l'
  | y :: l', S i' => y :: set_nth i' x l'
  end.

(** The process and the calls in progress, one per thread; the thread [i]
    runs one step. *)
Definition pool_step (L : Libs) (i : nat)
  (p : World (Handle L) * list (call_state (Handle L)))
  : World (Handle L) * list (call_state (Handle L)) :=
  match nth_error (snd p) i with
  | Some c =>
      let (w', c') := call_step L (fst p) c in (w', set_nth i c' (snd p))
  | None => p
  end.

(** The threads run in the order of [schedule]. *)
Definition run (L : Libs) (schedule : list nat)
  (p : World (Handle L) * list (call_state (Handle L)))
  : World (Handle L) * list (call_state (Handle L)) :=
  fold_left (fun p i => pool_step L i p) schedule p.

(** The loads attempted so far, and the calls that can still attempt
    one. *)
Definition attempts {H} (w : World H) : nat :=
  length (filter is_load (events w)).

Definition can_load {H} (c : call_state H) : bool :=
  match c with AtTest | AtConstruct => true | _ => false end.

Definition pending {H} (cs : list (call_state H)) : nat :=
  length (filter can_load cs).

(** A call that found, or will find, the handle [h] stored. *)
Definition served {H} (h : H) (c : call_state H) : Prop :=
  c = AtTest \/ c = AtReturn \/ c = Returned (Some h).

(** Libraries whose [n]-th construction gives the handle [n]. *)
Definition counting_libs : Libs :=
  mkLibs (Handle := nat) (Emb := list Q)
         (fun _ n => inr n)
         (fun _ ss => inr (map (fun s => inject_Z (Z.of_nat (length s))) ss))
         (fun e => inr e)
         (fun e _ => inr e)
         argsort_stable.

(** ** What the recognizer is handed *)

(** [fed V rec chunks rec']: the recognizer [rec] has been handed the
    chunks one after the other and has accepted each; where a chunk
    completed an utterance, its result has been read before the next
    chunk; [rec'] is the recognizer after the last chunk. *)
Inductive fed (V : AsrLibs) : Rec V -> list (list Z) -> Rec V -> Prop :=
  | fed_none : forall rec, fed V rec [] rec
  | fed_partial : forall rec data rec1 chunks rec',
      AcceptWaveform V rec data = Some (false, rec1) ->
      fed V rec1 chunks rec' ->
      fed V rec (data :: chunks) rec'
  | fed_utterance : forall rec data rec1 chunks rec',
      AcceptWaveform V rec data = Some (true, rec1) ->
      fed V (snd (Result V rec1)) chunks rec' ->
      fed V rec (data :: chunks) rec'.

(** ** The request *)

(** [process()], from the request on: [request.files] raises, as it does
    for a body above [MAX_CONTENT_LENGTH], or it holds the file of the
    form field [audio] if there is one.  The access is inside the [try]. *)
Definition process_request (L : Libs) (A : AudioLibs) (V : AsrLibs)
  (W : WebLibs) (request_files : exn + option Upload)
  : M (Handle L) Response :=
  try_except
    (bind (call request_files) (fun files_audio =>
       process_body L A V W files_audio))
    (process_except L).

(** An upload [process] answers before it saves anything: no file, no
    name, or a name that is not allowed. *)
Definition turned_away (files_audio : option Upload) : Prop :=
  match files_audio with
  | None => True
  | Some f => filename f = [] \/ allowed_file (filename f) = false
  end.

(** What werkzeug raises for a body above [MAX_CONTENT_LENGTH]. *)
Definition request_too_large : exn :=
  Raise OtherException
    (lit "413 Request Entity Too Large: The data value transmitted exceeds the capacity limit.").

(** * Properties *)

(** ** Lists, slices and the monad *)

Lemma traverse_Forall2 {A B} (f : A -> exn + B) (l : list A) (ys : list B) :
  traverse f l = inr ys -> Forall2 (fun x y => f x = inr y) l ys.
Proof.
  revert ys; induction l as [|x l IH]; simpl; intros ys E.
  - injection E as <-. constructor.
  - destruct (f x) as [e|y] eqn:Ex; [discriminate|].
    destruct (traverse f l) as [e|ys'] eqn:El; [discriminate|].
    injection E as <-. constructor; auto.
Qed.

Lemma traverse_length {A B} (f : A -> exn + B) (l : list A) (ys : list B) :
  traverse f l = inr ys -> length ys = length l.
Proof.
  intros E. apply traverse_Forall2 in E.
  induction E; simpl; congruence.
Qed.

Lemma slice_to_firstn {A} (k : Z) (l : list A) :
  (0 <= k)%Z -> Py.slice_to k l = firstn (Z.to_nat k) l.
Proof.
  intros Hk. unfold Py.slice_to.
  destruct (k <? 0)%Z eqn:E; [lia|].
  destruct (Z.min_spec k (Z.of_nat (length l))) as [[_ ->]|[Hle ->]]; auto.
  rewrite Nat2Z.id, firstn_all.
  symmetry. apply firstn_all2. lia.
Qed.

Lemma slice_from_neg_length {A} (k : Z) (l : list A) :
  (1 <= k)%Z ->
  length (Py.slice_from (- k) l) = Nat.min (Z.to_nat k) (length l).
Proof.
  intros Hk. unfold Py.slice_from.
  destruct (- k <? 0)%Z eqn:E; [|lia].
  rewrite length_skipn. lia.
Qed.

Lemma slice_from_is_skipn {A} (k : Z) (l : list A) :
  exists n, Py.slice_from k l = skipn n l.
Proof. unfold Py.slice_from. eexists; reflexivity. Qed.

(** [get_model] touches the state only when [_model] is [None]. *)
Lemma get_model_cached (L : Libs) (w : World (Handle L)) (h : Handle L) :
  _model w = Some h -> get_model L w = (inr h, w).
Proof. intros E. unfold get_model. rewrite E. reflexivity. Qed.

(** What a normal return of the [try] body tells. *)
Lemma embedding_path_inr (L : Libs) (ss : list str) (top_k : Z)
  (w w' : World (Handle L)) (summary : str) (hl : list Highlight) :
  embedding_path L ss top_k w = (inr (summary, hl), w') ->
  exists h e d sc parts,
    fst (get_model L w) = inr h /\
    encode L h ss = inr e /\
    np_mean L e = inr d /\
    cosine_similarity L e d = inr sc /\
    let top_indices :=
      rev (Py.slice_from (- Z.min top_k (Z.of_nat (length ss))) (argsort L sc)) in
    traverse (fun i =>
                match getitem ss i, getitem sc i with
                | inr s, inr x => inr (mkHighlight s x)
                | inl e, _ => inl e
                | _, inl e => inl e
                end) top_indices = inr hl /\
    traverse (getitem ss) (sorted top_indices) = inr parts /\
    summary = Py.join (lit " ") parts.
Proof.
  unfold embedding_path, bind, call, emit, ret.
  destruct (get_model L w) as [[e0|h] w1] eqn:Eg; [discriminate|].
  destruct (encode L h ss) as [e0|e] eqn:Ee; [discriminate|].
  destruct (np_mean L e) as [e0|d] eqn:Ed; [discriminate|].
  destruct (cosine_similarity L e d) as [e0|sc] eqn:Es; [discriminate|].
  match goal with
  | |- context [traverse ?f ?l] =>
      destruct (traverse f l) as [e0|hl0] eqn:Eh; [discriminate|]
  end.
  match goal with
  | |- context [traverse (getitem ss) ?l] =>
      destruct (traverse (getitem ss) l) as [e0|parts] eqn:Ep; [discriminate|]
  end.
  intros E. injection E as <- <- <-.
  exists h, e, d, sc, parts. simpl. repeat split; auto.
Qed.

(** No exception leaves [summarize_extract]. *)
Lemma summarize_extract_returns (L : Libs) (text : str) (top_k : Z)
  (w : World (Handle L)) :
  exists r w', summarize_extract L text top_k w = (inr r, w').
Proof.
  unfold summarize_extract.
  destruct (length (sentence_tokenize text) =? 0); [eexists _, _; reflexivity|].
  destruct (_ <=? top_k)%Z; [eexists _, _; reflexivity|].
  unfold try_except.
  destruct (embedding_path L _ top_k w) as [[e|r] w1].
  - eexists _, _. reflexivity.
  - eexists _, _. reflexivity.
Qed.

(** ** The short transcript *)

(** C1.  When the transcript has [n] sentences with [1 <= n <= top_k],
    [summarize_extract] returns the trimmed transcript as the summary and
    one highlight per sentence, in the order of the sentences, each with
    score 1.0; the process state is the one it started from, so no model
    was loaded and nothing was encoded. *)
Theorem summarize_extract_short (L : Libs) (text : str) (top_k : Z)
  (w : World (Handle L)) :
  1 <= length (sentence_tokenize text) ->
  (Z.of_nat (length (sentence_tokenize text)) <= top_k)%Z ->
  exists hl,
    summarize_extract L text top_k w = (inr (Py.strip text, hl), w) /\
    length hl = length (sentence_tokenize text) /\
    map sentence hl = sentence_tokenize text /\
    Forall (fun h => score h = 1%Q) hl.
Proof.
  intros Hn Hk.
  exists (map (fun s => mkHighlight s 1) (sentence_tokenize text)).
  unfold summarize_extract.
  destruct (length (sentence_tokenize text) =? 0) eqn:E0.
  { apply Nat.eqb_eq in E0. lia. }
  destruct (_ <=? top_k)%Z eqn:Ek; [|lia].
  split; [reflexivity|].
  split; [apply length_map|].
  split.
  - rewrite map_map. simpl. apply map_id.
  - apply Forall_forall. intros h Hin.
    apply in_map_iff in Hin. destruct Hin as [s [<- _]]. reflexivity.
Qed.

Lemma summarize_extract_short_witness :
  exists hl,
    summarize_extract length_libs four_sentences 5 (fresh _)
    = (inr (Py.strip four_sentences, hl), fresh _) /\
    length hl = length (sentence_tokenize four_sentences) /\
    map sentence hl = sentence_tokenize four_sentences /\
    Forall (fun h => score h = 1%Q) hl.
Proof.
  apply (@summarize_extract_short length_libs four_sentences 5 (fresh _)).
  - vm_compute. lia.
  - vm_compute. discriminate.
Defined.

(** ** The fallback *)

(** C2.  When the transcript has more than [top_k] sentences and the
    [try] body raises, [summarize_extract] returns normally: the summary
    is the first [top_k] sentences joined by one space, the highlights are
    these sentences in the same order, each with score 0.0. *)
Theorem summarize_extract_fallback (L : Libs) (text : str) (top_k : Z)
  (w w1 : World (Handle L)) (e : exn) :
  (0 <= top_k)%Z ->
  (top_k < Z.of_nat (length (sentence_tokenize text)))%Z ->
  embedding_path L (sentence_tokenize text) top_k w = (inl e, w1) ->
  fst (summarize_extract L text top_k w)
  = inr (Py.join (lit " ") (firstn (Z.to_nat top_k) (sentence_tokenize text)),
         map (fun s => mkHighlight s 0)
             (firstn (Z.to_nat top_k) (sentence_tokenize text))).
Proof.
  intros H0 Hk Hbody.
  unfold summarize_extract.
  destruct (length (sentence_tokenize text) =? 0) eqn:E0.
  { apply Nat.eqb_eq in E0. lia. }
  destruct (_ <=? top_k)%Z eqn:Ek; [lia|].
  unfold try_except. rewrite Hbody.
  unfold fallback_path, bind, emit, ret. simpl.
  rewrite slice_to_firstn by assumption. reflexivity.
Qed.

Lemma summarize_extract_fallback_witness :
  fst (summarize_extract broken_libs six_sentences 5 (fresh _))
  = inr (Py.join (lit " ") (firstn 5 (sentence_tokenize six_sentences)),
         map (fun s => mkHighlight s 0)
             (firstn 5 (sentence_tokenize six_sentences))).
Proof.
  refine (@summarize_extract_fallback broken_libs six_sentences 5
            (fresh _) _ _ _ _ _).
  - lia.
  - vm_compute. reflexivity.
  - vm_compute. reflexivity.
Defined.

(** ** Sorting indices *)

Lemma insert_sorted_perm (i : nat) (l : list nat) :
  Permutation (insert_sorted i l) (i :: l).
Proof.
  induction l as [|j l IH]; simpl; auto.
  destruct (i <=? j); auto.
  rewrite IH. apply perm_swap.
Qed.

Lemma sorted_perm (l : list nat) : Permutation (sorted l) l.
Proof.
  induction l as [|i l IH]; simpl; auto.
  rewrite insert_sorted_perm. auto.
Qed.

Lemma insert_sorted_sorted (i : nat) (l : list nat) :
  StronglySorted le l -> StronglySorted le (insert_sorted i l).
Proof.
  induction 1 as [|j l Hs IH Hj]; simpl.
  - repeat constructor.
  - destruct (i <=? j) eqn:E.
    + apply Nat.leb_le in E. constructor.
      * constructor; auto.
      * constructor; auto.
        eapply Forall_impl; [|exact Hj]. simpl. intros; lia.
    + apply Nat.leb_gt in E. constructor; auto.
      rewrite (insert_sorted_perm i l). constructor; auto. lia.
Qed.

Lemma sorted_sorted (l : list nat) : StronglySorted le (sorted l).
Proof.
  induction l; simpl; [constructor|]. now apply insert_sorted_sorted.
Qed.

Lemma sorted_nodup_increasing (l : list nat) :
  StronglySorted le l -> NoDup l -> StronglySorted lt l.
Proof.
  induction 1 as [|i l Hs IH Hi]; intros Hn; [constructor|].
  inversion Hn as [|? ? Hni Hn']; subst.
  constructor; auto.
  rewrite Forall_forall in *. intros j Hj.
  specialize (Hi j Hj).
  assert (i <> j) by (intros ->; contradiction). lia.
Qed.

Lemma StronglySorted_skipn {A} (R : A -> A -> Prop) (n : nat) (l : list A) :
  StronglySorted R l -> StronglySorted R (skipn n l).
Proof.
  revert l; induction n as [|n IH]; intros l Hs; [exact Hs|].
  destruct l as [|x l]; [constructor|].
  simpl. apply IH. now inversion Hs.
Qed.

Lemma StronglySorted_snoc {A} (R : A -> A -> Prop) (l : list A) (x : A) :
  StronglySorted R l -> Forall (fun y => R y x) l ->
  StronglySorted R (l ++ [x]).
Proof.
  induction 1 as [|y l Hs IH Hy]; intros Hx; simpl.
  - repeat constructor.
  - inversion Hx; subst. constructor; auto.
    apply Forall_app. split; auto.
Qed.

Lemma StronglySorted_rev {A} (R : A -> A -> Prop) (l : list A) :
  StronglySorted R l -> StronglySorted (fun a b => R b a) (rev l).
Proof.
  induction 1 as [|x l Hs IH Hx]; simpl; [constructor|].
  apply StronglySorted_snoc; auto.
  apply Forall_rev. exact Hx.
Qed.

Lemma StronglySorted_Forall2 {A B} (R : A -> A -> Prop) (R' : B -> B -> Prop)
  (P : A -> B -> Prop) (l : list A) (l' : list B) :
  (forall a b a' b', R a b -> P a a' -> P b b' -> R' a' b') ->
  Forall2 P l l' -> StronglySorted R l -> StronglySorted R' l'.
Proof.
  intros HR HP. induction HP as [|a a' l l' Ha HP IH]; intros Hs.
  - constructor.
  - inversion Hs as [|? ? Hs' Hall]; subst.
    constructor; auto.
    clear IH Hs Hs'. induction HP as [|b b' l l' Hb HP IH]; constructor.
    + inversion Hall; subst. eauto.
    + inversion Hall; subst. auto.
Qed.

Lemma NoDup_skipn {A} (n : nat) (l : list A) : NoDup l -> NoDup (skipn n l).
Proof.
  revert l; induction n as [|n IH]; intros l Hn; [exact Hn|].
  destruct l; [constructor|]. simpl. apply IH. now inversion Hn.
Qed.

Lemma NoDup_rev_list {A} (l : list A) : NoDup l -> NoDup (rev l).
Proof.
  intros Hn. eapply Permutation_NoDup; [apply Permutation_rev|exact Hn].
Qed.

(** Indices that increase pick a subsequence. *)
Lemma increasing_indices_subseq {A} (l : list A) :
  forall (idxs : list nat) (parts : list A),
    StronglySorted lt idxs ->
    Forall2 (fun i p => nth_error l i = Some p) idxs parts ->
    subseq parts l.
Proof.
  induction l as [|x l IH]; intros idxs parts Hs HF.
  - destruct HF as [|i p idxs parts Hi _]; [constructor|].
    destruct i; discriminate.
  - destruct HF as [|i p idxs parts Hi HF]; [constructor|].
    inversion Hs as [|? ? Hs' Hall]; subst.
    assert (Hshift : forall js ps,
               StronglySorted lt js -> Forall (fun j => 0 < j) js ->
               Forall2 (fun i p => nth_error (x :: l) i = Some p) js ps ->
               subseq ps l).
    { intros js ps Hjs Hpos HF2.
      apply (IH (map pred js)).
      - clear HF2. induction Hjs as [|j js Hjs IHjs Hj]; simpl; constructor.
        + inversion Hpos; subst; auto.
        + inversion Hpos as [|? ? Hj0 Hpos']; subst.
          rewrite Forall_map. rewrite Forall_forall in *.
          intros k Hk. specialize (Hj k Hk). specialize (Hpos' k Hk). lia.
      - clear Hjs. induction HF2 as [|j q js ps Hj HF2 IH2]; simpl; constructor.
        + inversion Hpos; subst. destruct j; [lia|]. exact Hj.
        + inversion Hpos; subst. auto. }
    destruct i as [|i].
    + simpl in Hi. injection Hi as ->.
      apply subseq_take. apply (Hshift idxs parts); auto.
    + apply subseq_skip. apply (Hshift (S i :: idxs) (p :: parts)).
      * exact Hs.
      * constructor; [lia|].
        eapply Forall_impl; [|exact Hall]. simpl. intros; lia.
      * constructor; auto.
Qed.

(** ** The stable argsort meets what is asked of [np.argsort] *)

Lemma insert_idx_perm (sc : list Q) (i : nat) (l : list nat) :
  Permutation (insert_idx sc i l) (i :: l).
Proof.
  induction l as [|j l IH]; simpl; auto.
  destruct (Qle_bool _ _); auto.
  rewrite IH. apply perm_swap.
Qed.

Lemma argsort_stable_perm (sc : list Q) :
  Permutation (argsort_stable sc) (seq 0 (length sc)).
Proof.
  unfold argsort_stable. induction (seq 0 (length sc)) as [|i l IH]; simpl; auto.
  rewrite insert_idx_perm. auto.
Qed.

Lemma insert_idx_sorted (sc : list Q) (i : nat) (l : list nat) :
  StronglySorted (fun i j => (nth i sc 0 <= nth j sc 0)%Q) l ->
  StronglySorted (fun i j => (nth i sc 0 <= nth j sc 0)%Q) (insert_idx sc i l).
Proof.
  induction 1 as [|j l Hs IH Hj]; simpl.
  - repeat constructor.
  - destruct (Qle_bool (nth i sc 0%Q) (nth j sc 0%Q)) eqn:E.
    + apply Qle_bool_iff in E. constructor.
      * constructor; auto.
      * constructor; auto.
        eapply Forall_impl; [|exact Hj]. simpl. intros k Hk.
        eapply Qle_trans; eauto.
    + constructor; auto.
      rewrite (insert_idx_perm sc i l). constructor; auto.
      destruct (Qlt_le_dec (nth i sc 0%Q) (nth j sc 0%Q)) as [Hlt|Hle]; auto.
      apply Qlt_le_weak in Hlt. apply Qle_bool_iff in Hlt. congruence.
Qed.

Lemma argsort_stable_sorted (sc : list Q) :
  StronglySorted (fun i j => (nth i sc 0 <= nth j sc 0)%Q) (argsort_stable sc).
Proof.
  unfold argsort_stable. induction (seq 0 (length sc)) as [|i l IH]; simpl.
  - constructor.
  - now apply insert_idx_sorted.
Qed.

Lemma length_libs_ok : LibsOk length_libs.
Proof.
  constructor; simpl.
  - apply argsort_stable_perm.
  - apply argsort_stable_sorted.
  - intros h ss e d sc He Hc. injection He as <-. injection Hc as <-.
    apply length_map.
Qed.

Lemma broken_libs_ok : LibsOk broken_libs.
Proof.
  constructor; simpl.
  - apply argsort_stable_perm.
  - apply argsort_stable_sorted.
  - intros h ss e d sc He. discriminate.
Qed.

(** ** The scored path *)

Lemma getitem_inr {A} (l : list A) (i : nat) (x : A) :
  getitem l i = inr x -> nth_error l i = Some x.
Proof.
  unfold getitem. destruct (nth_error l i); [|discriminate].
  now intros [= ->].
Qed.

Lemma highlight_at (ss : list str) (sc : list Q) (i : nat) (h : Highlight) :
  match getitem ss i, getitem sc i with
  | inr s, inr x => inr (mkHighlight s x)
  | inl e, _ => inl e
  | _, inl e => inl e
  end = inr h ->
  nth_error ss i = Some (sentence h) /\ nth_error sc i = Some (score h).
Proof.
  destruct (getitem ss i) as [e|s] eqn:Es; [discriminate|].
  destruct (getitem sc i) as [e|x] eqn:Ex; [discriminate|].
  intros [= <-]. simpl. split; now apply getitem_inr.
Qed.

Lemma summarize_extract_long (L : Libs) (text : str) (top_k : Z)
  (w : World (Handle L)) :
  (0 <= top_k)%Z ->
  (top_k < Z.of_nat (length (sentence_tokenize text)))%Z ->
  summarize_extract L text top_k w
  = try_except (embedding_path L (sentence_tokenize text) top_k)
               (fallback_path L (sentence_tokenize text) top_k) w.
Proof.
  intros H0 Hk. unfold summarize_extract.
  destruct (length (sentence_tokenize text) =? 0) eqn:E0.
  { apply Nat.eqb_eq in E0. lia. }
  destruct (_ <=? top_k)%Z eqn:Ek; [lia|]. reflexivity.
Qed.

(** C3.  When the transcript has more than [top_k] sentences and the
    [try] body returns, its result is the result of [summarize_extract];
    the highlights are the sentences at a list [idxs] of distinct indices,
    in an order along which the score does not increase; the summary joins
    the sentences at the same indices put in increasing order, so it is a
    subsequence of the sentences. *)
Theorem summarize_extract_orders (L : Libs) (ok : LibsOk L) (text : str)
  (top_k : Z) (w w' : World (Handle L)) (summary : str)
  (hl : list Highlight) :
  (0 <= top_k)%Z ->
  (top_k < Z.of_nat (length (sentence_tokenize text)))%Z ->
  embedding_path L (sentence_tokenize text) top_k w = (inr (summary, hl), w') ->
  summarize_extract L text top_k w = (inr (summary, hl), w') /\
  exists idxs ordered parts,
    NoDup idxs /\
    Forall2 (fun i h => nth_error (sentence_tokenize text) i = Some (sentence h))
            idxs hl /\
    StronglySorted (fun a b => (score b <= score a)%Q) hl /\
    Permutation ordered idxs /\
    StronglySorted lt ordered /\
    Forall2 (fun i p => nth_error (sentence_tokenize text) i = Some p)
            ordered parts /\
    summary = Py.join (lit " ") parts /\
    subseq parts (sentence_tokenize text).
Proof.
  intros H0 Hk Hbody. split.
  { rewrite summarize_extract_long by assumption.
    unfold try_except. rewrite Hbody. reflexivity. }
  apply embedding_path_inr in Hbody.
  destruct Hbody as (h & e & d & sc & parts & _ & _ & _ & _ & Hhl & Hparts & ->).
  set (ss := sentence_tokenize text) in *.
  set (top := rev (Py.slice_from (- Z.min top_k (Z.of_nat (length ss)))
                                 (argsort L sc))) in *.
  destruct (slice_from_is_skipn (- Z.min top_k (Z.of_nat (length ss)))
              (argsort L sc)) as [n Hn].
  assert (Hnodup : NoDup top).
  { unfold top. rewrite Hn. apply NoDup_rev_list, NoDup_skipn.
    eapply Permutation_NoDup.
    - apply Permutation_sym, (argsort_perm ok).
    - apply seq_NoDup. }
  apply traverse_Forall2 in Hhl. apply traverse_Forall2 in Hparts.
  exists top, (sorted top), parts.
  split; [exact Hnodup|].
  split.
  { eapply Forall2_impl; [|exact Hhl]. intros i x Hx.
    now apply highlight_at in Hx. }
  split.
  { apply StronglySorted_Forall2
      with (R := fun i j => (nth j sc 0 <= nth i sc 0)%Q)
           (P := fun i x => nth_error sc i = Some (score x)) (l := top).
    - intros a b a' b' Hab Ha Hb.
      rewrite (nth_error_nth _ _ 0%Q Ha) in Hab.
      rewrite (nth_error_nth _ _ 0%Q Hb) in Hab. exact Hab.
    - eapply Forall2_impl; [|exact Hhl]. intros i x Hx.
      now apply highlight_at in Hx.
    - unfold top. rewrite Hn.
      apply StronglySorted_rev
        with (R := fun i j => (nth i sc 0 <= nth j sc 0)%Q).
      apply StronglySorted_skipn, (argsort_sorted ok). }
  assert (Hinc : StronglySorted lt (sorted top)).
  { apply sorted_nodup_increasing; [apply sorted_sorted|].
    eapply Permutation_NoDup; [apply Permutation_sym, sorted_perm|exact Hnodup]. }
  assert (HF : Forall2 (fun i p => nth_error ss i = Some p) (sorted top) parts).
  { eapply Forall2_impl; [|exact Hparts]. intros i p. apply getitem_inr. }
  split; [apply sorted_perm|].
  split; [exact Hinc|].
  split; [exact HF|].
  split; [reflexivity|].
  eapply increasing_indices_subseq; eauto.
Qed.

Lemma summarize_extract_orders_witness :
  exists summary hl w',
    summarize_extract length_libs six_sentences 2 (fresh _)
    = (inr (summary, hl), w') /\
    exists idxs ordered parts,
      NoDup idxs /\
      Forall2 (fun i h => nth_error (sentence_tokenize six_sentences) i
                          = Some (sentence h)) idxs hl /\
      StronglySorted (fun a b => (score b <= score a)%Q) hl /\
      Permutation ordered idxs /\
      StronglySorted lt ordered /\
      Forall2 (fun i p => nth_error (sentence_tokenize six_sentences) i = Some p)
              ordered parts /\
      summary = Py.join (lit " ") parts /\
      subseq parts (sentence_tokenize six_sentences).
Proof.
  eexists _, _, _.
  apply (@summarize_extract_orders length_libs length_libs_ok six_sentences 2
           (fresh _)).
  - lia.
  - vm_compute. reflexivity.
  - vm_compute. reflexivity.
Defined.

(** ** The number of highlights *)

(** C10.  For [top_k >= 1], [summarize_extract] returns normally and the
    number of highlights is the smaller of the number of sentences and
    [top_k], whichever path is taken. *)
Theorem highlights_count (L : Libs) (ok : LibsOk L) (text : str) (top_k : Z)
  (w : World (Handle L)) :
  (1 <= top_k)%Z ->
  exists summary hl w',
    summarize_extract L text top_k w = (inr (summary, hl), w') /\
    Z.of_nat (length hl)
    = Z.min (Z.of_nat (length (sentence_tokenize text))) top_k.
Proof.
  intros Hk. unfold summarize_extract.
  set (ss := sentence_tokenize text).
  destruct (length ss =? 0) eqn:E0.
  { apply Nat.eqb_eq in E0. eexists _, _, _. split; [reflexivity|].
    rewrite E0. simpl. lia. }
  destruct (_ <=? top_k)%Z eqn:Ek.
  { eexists _, _, _. split; [reflexivity|]. rewrite length_map. lia. }
  apply Z.leb_gt in Ek.
  unfold try_except.
  destruct (embedding_path L ss top_k w) as [[e|[summary hl]] w1] eqn:Hbody.
  - unfold fallback_path, bind, emit, ret. simpl.
    eexists _, _, _. split; [reflexivity|].
    rewrite length_map, slice_to_firstn, length_firstn by lia. lia.
  - exists summary, hl, w1. split; [reflexivity|].
    apply embedding_path_inr in Hbody.
    destruct Hbody as (h & e & d & sc & parts & _ & He & _ & Hs & Hhl & _).
    apply traverse_length in Hhl. rewrite Hhl, length_rev.
    rewrite Z.min_l by lia.
    rewrite slice_from_neg_length by assumption.
    rewrite (Permutation_length (argsort_perm ok sc)), length_seq.
    rewrite (scores_length ok _ _ _ He Hs). fold ss. lia.
Qed.

Lemma highlights_count_witness :
  exists summary hl w',
    summarize_extract length_libs six_sentences 5 (fresh _)
    = (inr (summary, hl), w') /\
    Z.of_nat (length hl)
    = Z.min (Z.of_nat (length (sentence_tokenize six_sentences))) 5.
Proof.
  apply (@highlights_count length_libs length_libs_ok six_sentences 5 (fresh _)).
  lia.
Defined.

(** ** The cached model *)

Lemma evolves_refl {H} (w : World H) : evolves w w.
Proof. split; auto. Qed.

Lemma evolves_trans {H} (w1 w2 w3 : World H) :
  evolves w1 w2 -> evolves w2 w3 -> evolves w1 w3.
Proof. intros [A1 B1] [A2 B2]. split; auto. Qed.

Lemma emit_evolves {H} (ev : event) (w : World H) :
  is_loaded ev = false -> evolves w (snd (emit ev w)).
Proof.
  intros Hev. unfold evolves, model_inv, loads_done, emit. simpl.
  rewrite Hev. split; auto.
Qed.

Lemma get_model_evolves (L : Libs) (w : World (Handle L)) :
  evolves w (snd (get_model L w)).
Proof.
  unfold get_model. destruct (_model w) as [h|] eqn:Em.
  - apply evolves_refl.
  - destruct (SentenceTransformer L _ _) as [e|h]; simpl;
      unfold evolves, model_inv, loads_done; simpl; rewrite Em; simpl.
    + split; [auto|discriminate].
    + split; [intros ->; reflexivity|discriminate].
Qed.

Lemma embedding_path_evolves (L : Libs) (ss : list str) (top_k : Z)
  (w : World (Handle L)) :
  evolves w (snd (embedding_path L ss top_k w)).
Proof.
  unfold embedding_path, bind, call, ret.
  pose proof (get_model_evolves L w) as Hg.
  destruct (get_model L w) as [[e0|h] w1]; simpl in *; [exact Hg|].
  pose proof (@emit_evolves _ (EvEncode ss) w1 eq_refl) as He.
  unfold emit in *. simpl in *.
  set (w2 := mkWorld (_model w1) (EvEncode ss :: events w1)) in *.
  assert (Hw2 : evolves w w2) by (eapply evolves_trans; eauto).
  destruct (encode L h ss) as [e0|e]; [exact Hw2|].
  destruct (np_mean L e) as [e0|d]; [exact Hw2|].
  destruct (cosine_similarity L e d) as [e0|sc]; [exact Hw2|].
  match goal with
  | |- context [traverse ?f ?l] => destruct (traverse f l); [exact Hw2|]
  end.
  match goal with
  | |- context [traverse ?f ?l] => destruct (traverse f l); exact Hw2
  end.
Qed.

Lemma summarize_extract_evolves (L : Libs) (text : str) (top_k : Z)
  (w : World (Handle L)) :
  evolves w (snd (summarize_extract L text top_k w)).
Proof.
  unfold summarize_extract.
  destruct (length (sentence_tokenize text) =? 0); [apply evolves_refl|].
  destruct (_ <=? top_k)%Z; [apply evolves_refl|].
  unfold try_except.
  pose proof (embedding_path_evolves L (sentence_tokenize text) top_k w) as Hb.
  destruct (embedding_path L _ top_k w) as [[e|r] w1]; simpl in *; [|exact Hb].
  eapply evolves_trans; [exact Hb|].
  unfold fallback_path, bind, ret, emit. cbn [snd].
  apply (@emit_evolves _ (EvPrint _) w1 eq_refl).
Qed.

Lemma steps_evolves (L : Libs) (w w' : World (Handle L)) :
  steps L w w' -> evolves w w'.
Proof.
  induction 1.
  - apply evolves_refl.
  - eapply evolves_trans; [eassumption|apply get_model_evolves].
  - eapply evolves_trans; [eassumption|apply summarize_extract_evolves].
Qed.

Lemma get_model_stores (L : Libs) (w w1 : World (Handle L)) (h : Handle L) :
  get_model L w = (inr h, w1) -> _model w1 = Some h.
Proof.
  unfold get_model. destruct (_model w) as [h0|] eqn:Em.
  - intros [= <- <-]. exact Em.
  - destruct (SentenceTransformer L _ _); [discriminate|].
    intros [= <- <-]. reflexivity.
Qed.

(** A call that no other thread interrupts does what [get_model] does. *)
Lemma call_alone_get_model (L : Libs) (w : World (Handle L)) :
  call_alone L w
  = match get_model L w with
    | (inr h, w') => (w', Returned (Some h))
    | (inl e, w') => (w', Raised e)
    end.
Proof.
  unfold call_alone, get_model. cbn [call_step].
  destruct (_model w) as [h|] eqn:Em; cbn [call_step].
  - rewrite Em. reflexivity.
  - destruct (SentenceTransformer L _ _) as [e|h]; cbn [call_step _model events].
    + rewrite Em. reflexivity.
    + reflexivity.
Qed.

Lemma call_step_budget (L : Libs) (w : World (Handle L))
  (c : call_state (Handle L)) :
  attempts (fst (call_step L w c))
  + (if can_load (snd (call_step L w c)) then 1 else 0)
  <= attempts w + (if can_load c then 1 else 0).
Proof.
  unfold attempts. destruct c; cbn [call_step can_load].
  - destruct (_model w); simpl; lia.
  - destruct (SentenceTransformer L _ _); simpl; lia.
  - simpl. lia.
  - simpl. lia.
  - simpl. lia.
  - simpl. lia.
Qed.

Lemma pending_set_nth {H} (cs : list (call_state H)) :
  forall i c c',
    nth_error cs i = Some c ->
    pending (set_nth i c' cs) + (if can_load c then 1 else 0)
    = pending cs + (if can_load c' then 1 else 0).
Proof.
  unfold pending.
  induction cs as [|c0 cs IH]; intros i c c' Hi.
  - destruct i; discriminate.
  - destruct i as [|i]; cbn [nth_error set_nth filter] in *.
    + injection Hi as ->. destruct (can_load c), (can_load c'); simpl; lia.
    + specialize (IH i c c' Hi). destruct (can_load c0); simpl; lia.
Qed.

Lemma pool_step_budget (L : Libs) (i : nat)
  (p : World (Handle L) * list (call_state (Handle L))) :
  attempts (fst (pool_step L i p)) + pending (snd (pool_step L i p))
  <= attempts (fst p) + pending (snd p).
Proof.
  unfold pool_step. destruct (nth_error (snd p) i) as [c|] eqn:Ei; [|lia].
  pose proof (call_step_budget L (fst p) c) as Hb.
  pose proof (@pending_set_nth _ (snd p) i c (snd (call_step L (fst p) c)) Ei)
    as Hp.
  destruct (call_step L (fst p) c) as [w' c']. cbn [fst snd] in *. lia.
Qed.

(** However the threads take turns, each call attempts one load at
    most. *)
Lemma run_budget (L : Libs) (schedule : list nat) :
  forall p : World (Handle L) * list (call_state (Handle L)),
    attempts (fst (run L schedule p)) + pending (snd (run L schedule p))
    <= attempts (fst p) + pending (snd p).
Proof.
  unfold run. induction schedule as [|i schedule IH]; intros p; cbn [fold_left].
  - lia.
  - specialize (IH (pool_step L i p)).
    pose proof (pool_step_budget L i p). lia.
Qed.

Lemma pending_repeat {H} (n : nat) :
  pending (repeat (@AtTest H) n) = n.
Proof.
  unfold pending. induction n as [|n IH]; simpl; [reflexivity|].
  now rewrite IH.
Qed.

Lemma Forall_set_nth {A} (P : A -> Prop) (l : list A) :
  forall i x, Forall P l -> P x -> Forall P (set_nth i x l).
Proof.
  induction l as [|y l IH]; intros i x Hl Hx; cbn [set_nth].
  - constructor.
  - inversion Hl; subst. destruct i; constructor; auto.
Qed.

Lemma call_step_served (L : Libs) (w : World (Handle L)) (h : Handle L)
  (c : call_state (Handle L)) :
  _model w = Some h -> served h c ->
  fst (call_step L w c) = w /\ served h (snd (call_step L w c)).
Proof.
  intros Em [->|[->| ->]]; cbn [call_step]; rewrite ?Em; cbn [fst snd];
    unfold served; auto.
Qed.

Lemma pool_step_served (L : Libs) (h : Handle L) (i : nat)
  (w : World (Handle L)) (cs : list (call_state (Handle L))) :
  _model w = Some h -> Forall (served h) cs ->
  exists cs', pool_step L i (w, cs) = (w, cs') /\ Forall (served h) cs'.
Proof.
  intros Em Hcs. unfold pool_step. cbn [fst snd].
  destruct (nth_error cs i) as [c|] eqn:Ei; [|eauto].
  assert (Hc : served h c).
  { rewrite Forall_forall in Hcs. apply Hcs. eapply nth_error_In; eauto. }
  destruct (@call_step_served L w h c Em Hc) as [Hw Hs].
  destruct (call_step L w c) as [w' c']. cbn [fst snd] in *. subst w'.
  eexists. split; [reflexivity|]. now apply Forall_set_nth.
Qed.

(** Once a handle is stored, calls that start find it, however they take
    turns: the state does not change. *)
Lemma run_served (L : Libs) (h : Handle L) (schedule : list nat) :
  forall (w : World (Handle L)) (cs : list (call_state (Handle L))),
    _model w = Some h -> Forall (served h) cs ->
    fst (run L schedule (w, cs)) = w /\
    Forall (served h) (snd (run L schedule (w, cs))).
Proof.
  unfold run. induction schedule as [|i schedule IH]; intros w cs Em Hcs;
    cbn [fold_left].
  - auto.
  - destruct (@pool_step_served L h i w cs Em Hcs) as (cs' & -> & Hcs').
    now apply IH.
Qed.

Lemma served_repeat {H} (h : H) (n : nat) :
  Forall (served h) (repeat AtTest n).
Proof. apply Forall_forall. intros c Hc. apply repeat_spec in Hc. now left. Qed.

(** C9.  Among calls that do not overlap, the model is loaded once at
    most.  In every state [w] that a fresh process reaches by whole calls
    of [get_model] and [summarize_extract], at most one load has
    succeeded.  A call of [get_model] made while no handle is stored
    performs the load: if the construction returns a handle, the call
    stores it and returns it; if it raises, the call raises and nothing is
    stored.  Once a call has returned a handle, every later call returns
    this same handle and leaves the state as it is: no load, no event.
    For calls in threads, whose steps are taken in any order: a call that
    is not interrupted does what [get_model] does; [n] calls attempt [n]
    loads at most; and calls that start once a handle is stored leave the
    state as it is and can only return this handle. *)
Theorem model_loaded_once (L : Libs) (w : World (Handle L)) :
  steps L (fresh _) w ->
  loads_done w <= 1 /\
  (forall w0 : World (Handle L),
      _model w0 = None ->
      match SentenceTransformer L SENTENCE_MODEL_NAME (attempts w0) with
      | inr h =>
          get_model L w0
          = (inr h, mkWorld (Some h) (EvLoad true :: events w0))
      | inl e =>
          exists e', get_model L w0
                     = (inl e', mkWorld None (EvLoad false :: events w0))
      end) /\
  (forall h w1 w2,
      get_model L w = (inr h, w1) -> steps L w1 w2 ->
      get_model L w2 = (inr h, w2)) /\
  (forall w0 : World (Handle L),
      call_alone L w0
      = match get_model L w0 with
        | (inr h, w') => (w', Returned (Some h))
        | (inl e, w') => (w', Raised e)
        end) /\
  (forall (w0 : World (Handle L)) (n : nat) (schedule : list nat),
      attempts (fst (run L schedule (w0, repeat AtTest n)))
      <= attempts w0 + n) /\
  (forall (h : Handle L) (n : nat) (schedule : list nat),
      _model w = Some h ->
      fst (run L schedule (w, repeat AtTest n)) = w /\
      Forall (served h) (snd (run L schedule (w, repeat AtTest n)))).
Proof.
  intros Hw. split; [|split; [|split; [|split; [|split]]]].
  - apply steps_evolves in Hw. destruct Hw as [Hinv _].
    specialize (Hinv eq_refl). unfold model_inv in Hinv.
    destruct (_model w); lia.
  - intros w0 Em. unfold get_model, attempts. rewrite Em.
    destruct (SentenceTransformer L _ _); [eexists|]; reflexivity.
  - intros h w1 w2 Hg Hs.
    apply get_model_stores in Hg.
    apply steps_evolves in Hs. destruct Hs as [_ Hkeep].
    apply get_model_cached. auto.
  - apply call_alone_get_model.
  - intros w0 n schedule.
    pose proof (run_budget L schedule (w0, repeat AtTest n)) as Hb.
    cbn [fst snd] in Hb. rewrite pending_repeat in Hb. lia.
  - intros h n schedule Em.
    apply run_served; [exact Em|apply served_repeat].
Qed.

Lemma model_loaded_once_witness :
  let L := counting_libs in
  let w := snd (get_model L
             (snd (summarize_extract L six_sentences 5
                (snd (get_model L (fresh _)))))) in
  (_model w = Some 0 /\ loads_done w = 1) /\
  loads_done w <= 1 /\
  (forall w0 : World (Handle L),
      _model w0 = None ->
      match SentenceTransformer L SENTENCE_MODEL_NAME (attempts w0) with
      | inr h =>
          get_model L w0
          = (inr h, mkWorld (Some h) (EvLoad true :: events w0))
      | inl e =>
          exists e', get_model L w0
                     = (inl e', mkWorld None (EvLoad false :: events w0))
      end) /\
  (forall h w1 w2,
      get_model L w = (inr h, w1) -> steps L w1 w2 ->
      get_model L w2 = (inr h, w2)) /\
  (forall w0 : World (Handle L),
      call_alone L w0
      = match get_model L w0 with
        | (inr h, w') => (w', Returned (Some h))
        | (inl e, w') => (w', Raised e)
        end) /\
  (forall (w0 : World (Handle L)) (n : nat) (schedule : list nat),
      attempts (fst (run L schedule (w0, repeat AtTest n)))
      <= attempts w0 + n) /\
  (forall (h : Handle L) (n : nat) (schedule : list nat),
      _model w = Some h ->
      fst (run L schedule (w, repeat AtTest n)) = w /\
      Forall (served h) (snd (run L schedule (w, repeat AtTest n)))).
Proof.
  cbv zeta. split; [split; reflexivity|].
  apply (@model_loaded_once counting_libs).
  apply steps_get_model, steps_summarize, steps_get_model, steps_refl.
Defined.

(** C9, as it is worded, fails on the code once two calls overlap.  In a
    fresh process two threads call [get_model]; both make the test before
    either has assigned.  The model is loaded twice.  When the threads
    alternate, both calls return the second handle; when the first call
    returns before the second assigns, the two calls return two
    handles. *)
Lemma model_loaded_once_counterexample :
  (let p := run counting_libs [0; 1; 0; 1; 0; 1; 0; 1]
              (fresh _, [AtTest; AtTest]) in
   loads_done (fst p) = 2 /\
   snd p = [Returned (Some 1); Returned (Some 1)]) /\
  (let p := run counting_libs [0; 1; 0; 0; 0; 1; 1; 1]
              (fresh _, [AtTest; AtTest]) in
   loads_done (fst p) = 2 /\
   snd p = [Returned (Some 0); Returned (Some 1)]).
Proof. split; split; reflexivity. Qed.

(** ** The tokenizer *)

Lemma takewhile_dropwhile (p : ascii -> bool) (s : str) :
  Py.takewhile p s ++ Py.dropwhile p s = s.
Proof.
  induction s as [|c s IH]; simpl; auto.
  destruct (p c); simpl; congruence.
Qed.

Lemma takewhile_all (p : ascii -> bool) (s : str) :
  forallb p (Py.takewhile p s) = true.
Proof.
  induction s as [|c s IH]; simpl; auto.
  destruct (p c) eqn:E; simpl; auto. now rewrite E.
Qed.

Lemma dropwhile_head (p : ascii -> bool) (s : str) :
  match Py.dropwhile p s with [] => True | x :: _ => p x = false end.
Proof.
  induction s as [|c s IH]; simpl; auto.
  destruct (p c) eqn:E; auto.
Qed.

Lemma dropwhile_length (p : ascii -> bool) (s : str) :
  length (Py.dropwhile p s) <= length s.
Proof.
  induction s as [|c s IH]; simpl; auto.
  destruct (p c); simpl; lia.
Qed.

Lemma firstn_takewhile (p : ascii -> bool) (s : str) :
  firstn (length (Py.takewhile p s)) s = Py.takewhile p s.
Proof.
  induction s as [|c s IH]; simpl; auto.
  destruct (p c); simpl; congruence.
Qed.

Lemma skipn_takewhile (p : ascii -> bool) (s : str) :
  skipn (length (Py.takewhile p s)) s = Py.dropwhile p s.
Proof.
  induction s as [|c s IH]; simpl; auto.
  destruct (p c); simpl; congruence.
Qed.

Lemma dropwhile_all (p : ascii -> bool) (s : str) :
  forallb p s = true -> Py.dropwhile p s = [].
Proof.
  induction s as [|c s IH]; simpl; auto.
  destruct (p c); simpl; [auto|discriminate].
Qed.

Lemma last_opt_cons (prev : option ascii) (c : ascii) (s : str) :
  last_opt prev (c :: s) = last_opt (Some c) s.
Proof.
  unfold last_opt. simpl. destruct (rev s); reflexivity.
Qed.

Lemma last_opt_snoc (prev : option ascii) (s : str) (c : ascii) :
  last_opt prev (s ++ [c]) = Some c.
Proof. unfold last_opt. rewrite rev_app_distr. reflexivity. Qed.

Lemma last_opt_rev (prev : option ascii) (gap : str) :
  last_opt prev (rev gap) = match gap with [] => prev | c :: _ => Some c end.
Proof. unfold last_opt. now rewrite rev_involutive. Qed.

Lemma no_cut_app (prev : option ascii) (a b : str) :
  no_cut prev (a ++ b) = no_cut prev a && no_cut (last_opt prev a) b.
Proof.
  revert prev; induction a as [|c a IH]; intros prev; simpl.
  - reflexivity.
  - rewrite IH, last_opt_cons. now rewrite andb_assoc.
Qed.

Lemma space_not_end (c : ascii) :
  Py.isspace c = true -> Re.is_sentence_end c = false.
Proof.
  unfold Re.is_sentence_end.
  destruct (c =? ".")%char eqn:E1; [apply Ascii.eqb_eq in E1; subst; discriminate|].
  destruct (c =? "!")%char eqn:E2; [apply Ascii.eqb_eq in E2; subst; discriminate|].
  destruct (c =? "?")%char eqn:E3; [apply Ascii.eqb_eq in E3; subst; discriminate|].
  reflexivity.
Qed.

Lemma last_opt_spaces (c : ascii) (w : str) :
  Py.isspace c = true -> forallb Py.isspace w = true ->
  is_end_opt (last_opt (Some c) w) = false.
Proof.
  revert c; induction w as [|x w IH]; intros c Hc Hw; simpl in *.
  - now apply space_not_end.
  - apply andb_true_iff in Hw. destruct Hw as [Hx Hw].
    rewrite last_opt_cons. auto.
Qed.

(** Inside a match the scanner only moves on. *)
Lemma scan_skip (m : Re.matcher) (s : str) :
  forall n prev gap,
    Re.scan m n prev gap s
    = Re.scan m 0 (last_opt prev (firstn n s)) gap (skipn n s).
Proof.
  induction s as [|c s IH]; intros n prev gap.
  - destruct n; reflexivity.
  - destruct n as [|n]; [reflexivity|].
    simpl Re.scan at 1. rewrite IH.
    simpl firstn. simpl skipn. now rewrite last_opt_cons.
Qed.

(** [(?<=[.!?])\s+] at a position. *)
Lemma after_end_spaces_at (prev : option ascii) (c : ascii) (s : str) :
  Re.after_end_spaces prev (c :: s)
  = if is_end_opt prev && Py.isspace c
    then Some (S (length (Py.takewhile Py.isspace s)))
    else None.
Proof.
  unfold Re.after_end_spaces, Re.run, is_end_opt.
  destruct prev as [p|]; [|reflexivity].
  destruct (Re.is_sentence_end p); [|reflexivity].
  simpl. destruct (Py.isspace c); reflexivity.
Qed.

Lemma scan_split_at_ends (k : nat) :
  forall (s : str) (prev0 : option ascii) (gap : str),
    length s <= k ->
    is_end_opt prev0 = false ->
    no_cut prev0 (rev gap) = true ->
    split_at_ends prev0 (rev gap ++ s)
      (Re.gaps (Re.scan Re.after_end_spaces 0
                  (last_opt prev0 (rev gap)) gap s)).
Proof.
  induction k as [|k IH]; intros s prev0 gap Hlen Hprev Hgap.
  - destruct s; [|simpl in Hlen; lia].
    simpl. rewrite app_nil_r. now constructor.
  - destruct s as [|c s].
    { simpl. rewrite app_nil_r. now constructor. }
    simpl in Hlen.
    cbn [Re.scan]. rewrite after_end_spaces_at.
    destruct (is_end_opt (last_opt prev0 (rev gap)) && Py.isspace c) eqn:Ecut.
    + apply andb_true_iff in Ecut. destruct Ecut as [Hend Hsp].
      rewrite last_opt_rev in Hend.
      destruct gap as [|p gap]; [congruence|].
      simpl in Hend. cbn [Re.gaps].
      rewrite scan_skip, firstn_takewhile, skipn_takewhile.
      set (w := Py.takewhile Py.isspace s).
      set (rest := Py.dropwhile Py.isspace s).
      replace (rev (p :: gap) ++ c :: s)
        with ((rev gap ++ [p]) ++ (c :: w) ++ rest).
      2:{ simpl. unfold w, rest.
          rewrite takewhile_dropwhile. reflexivity. }
      simpl rev. apply split_cut; auto.
      * discriminate.
      * simpl. rewrite Hsp. apply takewhile_all.
      * apply dropwhile_head.
      * rewrite last_opt_cons.
        assert (Hw : is_end_opt (last_opt (Some c) w) = false).
        { apply last_opt_spaces; auto. apply takewhile_all. }
        specialize (IH rest (last_opt (Some c) w) [] ).
        simpl in IH. apply IH; auto.
        pose proof (dropwhile_length Py.isspace s). fold rest in H. lia.
    + specialize (IH s prev0 (c :: gap)).
      rewrite last_opt_rev in IH. simpl in IH.
      rewrite <- app_assoc in IH. simpl in IH.
      apply IH; auto; [lia|].
      rewrite no_cut_app, Hgap. simpl. now rewrite Ecut.
Qed.

(** [re.split] with the pattern of the tokenizer cuts the text at the
    ends of sentences. *)
Lemma re_split_at_ends (text : str) :
  split_at_ends None text (Re.split Re.after_end_spaces text).
Proof.
  unfold Re.split.
  apply (@scan_split_at_ends (length text) text None []); auto.
Qed.

Lemma no_cut_after_end (c x : ascii) (s : str) :
  Re.is_sentence_end c = true -> Py.isspace x = true ->
  no_cut (Some c) (x :: s) = false.
Proof. intros Hc Hx. simpl. now rewrite Hc, Hx. Qed.

Lemma nonempty_spaces_head (w : str) :
  w <> [] -> forallb Py.isspace w = true ->
  exists x w', w = x :: w' /\ Py.isspace x = true.
Proof.
  destruct w as [|x w']; [congruence|]. simpl. intros _ H.
  apply andb_true_iff in H. exists x, w'. tauto.
Qed.

(** A piece that ends a sentence cannot go on into its separator. *)
Lemma piece_not_longer (prev : option ascii) (p : str) (c : ascii)
  (w rest d tail : str) :
  Re.is_sentence_end c = true ->
  w <> [] -> forallb Py.isspace w = true ->
  w ++ rest = d ++ tail ->
  no_cut prev ((p ++ [c]) ++ d) = true -> d = [].
Proof.
  intros Hc Hw Hsp Heq Hnc.
  destruct d as [|x d]; [reflexivity|exfalso].
  destruct (nonempty_spaces_head Hw Hsp) as (y & w' & -> & Hy).
  simpl in Heq. injection Heq as <- _.
  rewrite no_cut_app, last_opt_snoc in Hnc.
  rewrite (@no_cut_after_end c y d Hc Hy) in Hnc.
  now rewrite andb_false_r in Hnc.
Qed.

Lemma span_unique (p : ascii -> bool) (w1 : str) :
  forall w2 r1 r2,
    forallb p w1 = true -> forallb p w2 = true ->
    match r1 with [] => True | x :: _ => p x = false end ->
    match r2 with [] => True | x :: _ => p x = false end ->
    w1 ++ r1 = w2 ++ r2 -> w1 = w2 /\ r1 = r2.
Proof.
  induction w1 as [|x w1 IH]; intros w2 r1 r2 H1 H2 Hr1 Hr2 Heq.
  - destruct w2 as [|y w2]; [auto|].
    simpl in *. subst r1. apply andb_true_iff in H2. destruct H2; congruence.
  - destruct w2 as [|y w2].
    + simpl in *. subst r2. apply andb_true_iff in H1. destruct H1; congruence.
    + simpl in *. injection Heq as <- Heq.
      apply andb_true_iff in H1. apply andb_true_iff in H2.
      destruct (IH w2 r1 r2) as [-> ->]; tauto.
Qed.

(** The pieces are determined by the text. *)
Lemma split_at_ends_unique (prev : option ascii) (s : str) (l1 l2 : list str) :
  split_at_ends prev s l1 -> split_at_ends prev s l2 -> l1 = l2.
Proof.
  intros H1. revert l2.
  induction H1 as [prev s Hnc|prev p c w rest pieces Hnc Hc Hw Hsp Hrest H1 IH];
    intros l2 H2.
  - inversion H2 as [|? p c w rest pieces Hnc' Hc Hw Hsp Hrest H2' E1 E2];
      subst; [reflexivity|exfalso].
    destruct (nonempty_spaces_head Hw Hsp) as (y & w' & -> & Hy).
    rewrite no_cut_app, last_opt_snoc in Hnc.
    simpl app in Hnc. rewrite (@no_cut_after_end c y _ Hc Hy) in Hnc.
    now rewrite andb_false_r in Hnc.
  - remember ((p ++ [c]) ++ w ++ rest) as s eqn:Es.
    destruct H2 as [prev s Hnc2|prev p2 c2 w2 rest2 pieces2 Hnc2 Hc2 Hw2 Hsp2 Hrest2 H2].
    + exfalso. subst s.
      destruct (nonempty_spaces_head Hw Hsp) as (y & w' & -> & Hy).
      rewrite no_cut_app, last_opt_snoc in Hnc2.
      simpl app in Hnc2. rewrite (@no_cut_after_end c y _ Hc Hy) in Hnc2.
      now rewrite andb_false_r in Hnc2.
    + assert (Hpiece : p2 ++ [c2] = p ++ [c] /\ w2 ++ rest2 = w ++ rest).
      { apply app_eq_app in Es. destruct Es as [d [[E1 E2]|[E1 E2]]].
        - assert (d = []) as ->.
          { apply (@piece_not_longer prev p c w rest d (w2 ++ rest2)); auto.
            now rewrite <- E1. }
          rewrite app_nil_r in E1. simpl in E2. auto.
        - assert (d = []) as ->.
          { apply (@piece_not_longer prev p2 c2 w2 rest2 d (w ++ rest)); auto.
            now rewrite <- E1. }
          rewrite app_nil_r in E1. simpl in E2. auto. }
      destruct Hpiece as [Ep Ew]. rewrite Ep.
      destruct (@span_unique Py.isspace w2 w rest2 rest) as [E3 E4]; auto.
      subst w2 rest2. f_equal. apply IH. exact H2.
Qed.

Lemma no_cut_spaces (s : str) :
  forall prev, is_end_opt prev = false -> forallb Py.isspace s = true ->
               no_cut prev s = true.
Proof.
  induction s as [|c s IH]; intros prev Hp Hs; simpl in *; auto.
  apply andb_true_iff in Hs. destruct Hs as [Hc Hs].
  rewrite Hp. simpl. apply IH; auto. simpl. now apply space_not_end.
Qed.

Lemma forallb_rev_str (p : ascii -> bool) (s : str) :
  forallb p (rev s) = forallb p s.
Proof.
  induction s as [|c s IH]; simpl; auto.
  rewrite forallb_app, IH. simpl. rewrite andb_true_r. apply andb_comm.
Qed.

Lemma dropwhile_nil_all (p : ascii -> bool) (s : str) :
  Py.dropwhile p s = [] -> forallb p s = true.
Proof.
  induction s as [|c s IH]; simpl; auto.
  destruct (p c); simpl; [auto|discriminate].
Qed.

Lemma strip_nil_iff (s : str) :
  Py.strip s = [] <-> forallb Py.isspace s = true.
Proof.
  unfold Py.strip, Py.rstrip, Py.lstrip. split.
  - intros H. apply (f_equal (@rev ascii)) in H.
    rewrite rev_involutive in H. simpl in H.
    apply dropwhile_nil_all in H. rewrite forallb_rev_str in H.
    pose proof (dropwhile_head Py.isspace s) as Hh.
    destruct (Py.dropwhile Py.isspace s) as [|x r] eqn:E.
    + now apply dropwhile_nil_all.
    + simpl in H. rewrite Hh in H. discriminate.
  - intros H. now rewrite (dropwhile_all _ _ H).
Qed.

Lemma map_filter_comm {A B} (f : A -> B) (p : B -> bool) (l : list A) :
  map f (filter (fun x => p (f x)) l) = filter p (map f l).
Proof.
  induction l as [|x l IH]; simpl; auto.
  destruct (p (f x)); simpl; congruence.
Qed.

Lemma filter_filter {A} (p q : A -> bool) (l : list A) :
  filter q (filter p l) = filter (fun x => p x && q x) l.
Proof.
  induction l as [|x l IH]; simpl; auto.
  destruct (p x); simpl; [destruct (q x)|]; congruence.
Qed.

(** C4.  The text has exactly one list of pieces cut at the ends of
    sentences (a [.], [!] or [?] followed by whitespace, the whitespace
    being the separator), and [sentence_tokenize] is these pieces, each
    trimmed, without the empty ones and the ones of length 3 or less.  A
    text of whitespace only, the empty one too, has no sentence; and when
    there is no sentence, [summarize_extract] returns the empty summary
    and no highlight, whatever the libraries and [top_k]. *)
Theorem sentence_tokenize_spec (text : str) :
  exists pieces,
    split_at_ends None text pieces /\
    (forall pieces', split_at_ends None text pieces' -> pieces' = pieces) /\
    sentence_tokenize text = keep_sentences pieces /\
    (forallb Py.isspace text = true -> sentence_tokenize text = []) /\
    (sentence_tokenize text = [] ->
     forall (L : Libs) (top_k : Z) (w : World (Handle L)),
       summarize_extract L text top_k w = (inr ([], []), w)).
Proof.
  exists (Re.split Re.after_end_spaces text).
  pose proof (re_split_at_ends text) as Hsplit.
  assert (Hblank : forallb Py.isspace text = true -> sentence_tokenize text = []).
  { intros Hsp. unfold sentence_tokenize.
    apply strip_nil_iff in Hsp. rewrite Hsp. simpl.
    now rewrite orb_true_r. }
  split; [exact Hsplit|].
  split; [intros pieces' H'; eapply split_at_ends_unique; eauto|].
  split; [|split; [exact Hblank|]].
  - unfold sentence_tokenize, keep_sentences.
    destruct (negb (Py.truthy text) || negb (Py.truthy (Py.strip text))) eqn:Eg.
    + assert (Hsp : forallb Py.isspace text = true).
      { apply orb_true_iff in Eg. destruct Eg as [Eg|Eg].
        - destruct text; [reflexivity|discriminate].
        - apply strip_nil_iff. destruct (Py.strip text); [reflexivity|discriminate]. }
      assert (Hone : split_at_ends None text [text]).
      { constructor. now apply no_cut_spaces. }
      rewrite (split_at_ends_unique Hsplit Hone). simpl.
      apply strip_nil_iff in Hsp. now rewrite Hsp.
    + rewrite (map_filter_comm Py.strip Py.truthy).
      apply filter_filter.
  - intros Hnil L top_k w. unfold summarize_extract. now rewrite Hnil.
Qed.

(** ** The scanner's matches *)

(** Every match the scanner reports is a match of the pattern at its
    place in the text. *)
Lemma scan_hits (m : Re.matcher) (h : str) (s : str) :
  forall n prev gap,
    In (Re.Hit h) (Re.scan m n prev gap s) ->
    exists pre post k,
      s = pre ++ h ++ post /\
      m (last_opt prev pre) (h ++ post) = Some (S k) /\
      h = firstn (S k) (h ++ post).
Proof.
  induction s as [|c s IH]; intros n prev gap Hin.
  - simpl in Hin. destruct Hin as [Hin|[]]. discriminate.
  - assert (Hrec : forall n' gap',
               In (Re.Hit h) (Re.scan m n' (Some c) gap' s) ->
               exists pre post k,
                 c :: s = pre ++ h ++ post /\
                 m (last_opt prev pre) (h ++ post) = Some (S k) /\
                 h = firstn (S k) (h ++ post)).
    { intros n' gap' Hin'. apply IH in Hin'.
      destruct Hin' as (pre & post & k & -> & Hm & Hh).
      exists (c :: pre), post, k. rewrite last_opt_cons. auto. }
    cbn [Re.scan] in Hin. destruct n as [|n]; [|eauto].
    destruct (m prev (c :: s)) as [[|k]|] eqn:Em; [eauto| |eauto].
    destruct Hin as [Hin|[Hin|Hin]]; [discriminate| |eauto].
    injection Hin as Hh.
    assert (Hh' : h = firstn (S k) (c :: s)) by (symmetry; exact Hh).
    assert (E : h ++ skipn (S k) (c :: s) = c :: s).
    { rewrite Hh'. apply firstn_skipn. }
    exists [], (skipn (S k) (c :: s)), k.
    cbn [app]. rewrite E. unfold last_opt. simpl rev.
    repeat split; auto.
Qed.

Lemma findall_hits (m : Re.matcher) (h text : str) :
  In h (Re.findall m text) ->
  exists pre post k,
    text = pre ++ h ++ post /\
    m (last_opt None pre) (h ++ post) = Some (S k) /\
    h = firstn (S k) (h ++ post).
Proof.
  unfold Re.findall. intros Hin.
  apply scan_hits with (n := 0) (gap := []).
  induction (Re.scan m 0 None [] text) as [|[g|x] l IH]; simpl in *.
  - contradiction.
  - right. auto.
  - destruct Hin as [->|Hin]; auto.
Qed.

Lemma backtrack_some (s : str) (lo j0 j : nat) :
  Re.backtrack s lo j0 = Some j ->
  lo <= j /\ 1 <= j /\ j <= j0 /\
  Re.word_boundary (nth_error s (j - 1)) (nth_error s j) = true.
Proof.
  induction j0 as [|j0 IH]; cbn [Re.backtrack]; [discriminate|].
  destruct (S j0 <? lo) eqn:Elo; [discriminate|].
  apply Nat.ltb_ge in Elo.
  destruct (Re.word_boundary (nth_error s j0) (nth_error s (S j0))) eqn:Eb.
  - intros [= <-]. replace (S j0 - 1) with j0 by lia.
    split; [lia|]. split; [lia|]. split; [lia|exact Eb].
  - intros H. destruct (IH H) as (H1 & H2 & H3 & H4).
    split; [lia|]. split; [lia|]. split; [lia|exact H4].
Qed.

Lemma takewhile_prefix (p : ascii -> bool) (s : str) (j : nat) :
  j <= length (Py.takewhile p s) ->
  forallb p (firstn j s) = true /\ length (firstn j s) = j.
Proof.
  revert j; induction s as [|c s IH]; intros j Hj; simpl in *.
  - assert (j = 0) by lia. subst. auto.
  - destruct j as [|j]; [auto|].
    destruct (p c) eqn:E; simpl in *; [|lia].
    rewrite E. destruct (IH j) as [H1 H2]; [lia|]. rewrite H1, H2. auto.
Qed.

Lemma alpha_is_word (c : ascii) :
  Py.is_ascii_alpha c = true -> Py.is_word c = true.
Proof.
  unfold Py.is_ascii_alpha, Py.is_word.
  destruct (65 <=? N_of_ascii c)%N, (N_of_ascii c <=? 90)%N,
           (97 <=? N_of_ascii c)%N, (N_of_ascii c <=? 122)%N;
    simpl; try discriminate; intros _;
    rewrite ?orb_true_r; reflexivity.
Qed.

(** What [\b[a-zA-Z]{3,}\b] finds: letters only, three at least, as a
    whole word. *)
Lemma alpha3_word_hits (h text : str) :
  In h (Re.findall Re.alpha3_word text) ->
  forallb Py.is_ascii_alpha h = true /\ 3 <= length h /\ whole_word_in h text.
Proof.
  intros Hin. apply findall_hits in Hin.
  destruct Hin as (pre & post & k & Htext & Hm & Hh).
  unfold Re.alpha3_word in Hm.
  destruct (Re.word_boundary (last_opt None pre) (hd_error (h ++ post))) eqn:Eb;
    [|discriminate].
  apply backtrack_some in Hm. destruct Hm as (H3 & _ & Hrun & Hend).
  destruct (@takewhile_prefix Py.is_ascii_alpha (h ++ post) (S k) Hrun)
    as [Hall Hlen].
  rewrite <- Hh in Hall, Hlen.
  split; [exact Hall|]. split; [lia|].
  exists pre, post. split; [exact Htext|].
  replace (S k - 1) with k in Hend by lia.
  rewrite nth_error_app1 in Hend by lia.
  rewrite nth_error_app2 in Hend by lia.
  rewrite Hlen, Nat.sub_diag in Hend.
  destruct (nth_error h k) as [cl|] eqn:En;
    [|apply nth_error_None in En; lia].
  assert (Hal : Py.is_ascii_alpha cl = true).
  { apply nth_error_In in En. rewrite forallb_forall in Hall. auto. }
  destruct h as [|c0 h']; [discriminate|].
  cbn [app hd_error] in Eb.
  cbn [forallb] in Hall. apply andb_true_iff in Hall. destruct Hall as [Hc0 _].
  unfold Re.word_boundary in *.
  rewrite (alpha_is_word _ Hc0) in Eb. rewrite (alpha_is_word _ Hal) in Hend.
  unfold is_word_opt. split.
  - destruct (last_opt None pre) as [x|]; auto.
    destruct (Py.is_word x); [discriminate|reflexivity].
  - destruct post as [|y post]; cbn [nth_error hd_error] in *; auto.
    destruct (Py.is_word y); [discriminate|reflexivity].
Qed.

Lemma lower_char_not_upper (c : ascii) :
  Py.is_ascii_alpha (Py.lower_char c) = true ->
  Py.is_ascii_lower (Py.lower_char c) = true.
Proof.
  destruct c as [[] [] [] [] [] [] [] []]; vm_compute; auto.
Qed.

(** ** Counting *)

Lemma str_eqb_eq (a b : str) : str_eqb a b = true <-> a = b.
Proof.
  unfold str_eqb. destruct (list_eq_dec ascii_dec a b); split; congruence.
Qed.

Lemma str_eqb_neq (a b : str) : str_eqb a b = false <-> a <> b.
Proof.
  unfold str_eqb. destruct (list_eq_dec ascii_dec a b); split; congruence.
Qed.

Lemma first_index_app_in (v : str) (l r : list str) :
  In v l -> first_index v (l ++ r) = first_index v l /\ first_index v l < length l.
Proof.
  induction l as [|x l IH]; simpl; [tauto|].
  intros Hin. destruct (str_eqb x v) eqn:E; [lia|].
  apply str_eqb_neq in E. destruct Hin as [->|Hin]; [congruence|].
  destruct (IH Hin). lia.
Qed.

Lemma first_index_absent (v : str) (l : list str) :
  ~ In v l -> first_index v (l ++ [v]) = length l.
Proof.
  induction l as [|x l IH]; simpl; intros Hn.
  - assert (E : str_eqb v v = true) by now apply str_eqb_eq.
    now rewrite E.
  - destruct (str_eqb x v) eqn:E.
    + apply str_eqb_eq in E. subst. tauto.
    + rewrite IH; tauto.
Qed.

Lemma Counter_snoc (l : list str) (w : str) :
  Counter (l ++ [w]) = counter_incr w (Counter l).
Proof. unfold Counter. now rewrite fold_left_app. Qed.

Lemma counter_incr_absent (w : str) (c : Counter_t) :
  ~ In w (map fst c) -> counter_incr w c = c ++ [(w, 1)].
Proof.
  induction c as [|[v n] c IH]; simpl; intros Hn; [reflexivity|].
  destruct (str_eqb v w) eqn:E.
  - apply str_eqb_eq in E. subst. tauto.
  - rewrite IH; tauto.
Qed.

Lemma counter_incr_present (w : str) (c : Counter_t) :
  In w (map fst c) ->
  exists c1 m c2,
    c = c1 ++ (w, m) :: c2 /\
    counter_incr w c = c1 ++ (w, S m) :: c2.
Proof.
  induction c as [|[v n] c IH]; simpl; intros Hin; [contradiction|].
  destruct (str_eqb v w) eqn:E.
  - apply str_eqb_eq in E. subst. exists [], n, c. auto.
  - apply str_eqb_neq in E. destruct Hin as [Hin|Hin]; [congruence|].
    destruct (IH Hin) as (c1 & m & c2 & -> & ->).
    exists ((v, n) :: c1), m, c2. auto.
Qed.

Lemma StronglySorted_impl_in {A} (R R' : A -> A -> Prop) (l : list A) :
  (forall a b, In a l -> In b l -> R a b -> R' a b) ->
  StronglySorted R l -> StronglySorted R' l.
Proof.
  intros Himp Hs. induction Hs as [|x l Hs IH Hx]; constructor.
  - apply IH. intros a b Ha Hb. apply Himp; now right.
  - rewrite Forall_forall in *. intros y Hy.
    apply Himp; [now left|now right|auto].
Qed.

Lemma StronglySorted_map {A B} (f : A -> B) (R : B -> B -> Prop) (l : list A) :
  StronglySorted R (map f l) <-> StronglySorted (fun a b => R (f a) (f b)) l.
Proof.
  induction l as [|x l IH]; simpl; split; intros H; try constructor;
    inversion H; subst.
  - now apply IH.
  - now rewrite Forall_map in *.
  - now apply IH.
  - now rewrite Forall_map.
Qed.

Lemma counts_key_in (l : list str) (c : Counter_t) (v : str) :
  counts l c -> In v (map fst c) -> In v l.
Proof.
  intros Hc Hin. apply in_map_iff in Hin. destruct Hin as [[v' n] [<- Hin]].
  now apply (counts_value Hc) in Hin.
Qed.

Lemma counts_step (l : list str) (c : Counter_t) (w : str) :
  counts l c -> counts (l ++ [w]) (counter_incr w c).
Proof.
  intros Hc.
  assert (Hord : StronglySorted
                   (fun a b => first_index a (l ++ [w]) < first_index b (l ++ [w]))
                   (map fst c)).
  { eapply StronglySorted_impl_in; [|exact (counts_order Hc)].
    intros a b Ha Hb Hab. simpl in Hab.
    destruct (@first_index_app_in a l [w]) as [-> _];
      [now apply (@counts_key_in l c _ Hc)|].
    destruct (@first_index_app_in b l [w]) as [-> _];
      [now apply (@counts_key_in l c _ Hc)|].
    exact Hab. }
  destruct (in_dec str_dec w (map fst c)) as [Hin|Hout].
  - destruct (counter_incr_present w c Hin) as (c1 & m & c2 & Ec & ->).
    assert (Hkeys : map fst (c1 ++ (w, S m) :: c2) = map fst c).
    { rewrite Ec, !map_app. reflexivity. }
    assert (Hm : m = count_occ str_dec l w).
    { apply (counts_value Hc). rewrite Ec. apply in_elt. }
    constructor.
    + rewrite Hkeys. exact (counts_nodup Hc).
    + intros v n Hvn. rewrite count_occ_app. simpl.
      apply in_app_iff in Hvn. simpl in Hvn.
      assert (Hother : In (v, n) (c1 ++ c2) ->
                       n = count_occ str_dec l v + (if str_dec w v then 1 else 0)
                       /\ In v (l ++ [w])).
      { intros Hin'.
        assert (Hc' : In (v, n) c).
        { rewrite Ec. apply in_app_iff in Hin'. apply in_app_iff.
          simpl. tauto. }
        destruct (counts_value Hc _ _ Hc') as [-> Hv].
        pose proof (counts_nodup Hc) as Hnd. rewrite Ec, map_app in Hnd.
        simpl in Hnd. apply NoDup_remove_2 in Hnd.
        destruct (str_dec w v) as [<-|Hne].
        - exfalso. apply Hnd. rewrite <- map_app.
          apply in_map_iff. exists (w, count_occ str_dec l w). auto.
        - split; [lia|]. apply in_app_iff. now left. }
      destruct Hvn as [Hvn|[Hvn|Hvn]].
      * apply Hother. apply in_app_iff. now left.
      * injection Hvn as <- <-.
        destruct (str_dec w w); [|congruence].
        split; [lia|]. apply in_app_iff. right. now left.
      * apply Hother. apply in_app_iff. now right.
    + intros v Hv. rewrite Hkeys. apply in_app_iff in Hv.
      destruct Hv as [Hv|[<-|[]]]; [now apply (counts_all Hc)|exact Hin].
    + rewrite Hkeys. exact Hord.
  - rewrite (counter_incr_absent _ _ Hout).
    assert (Hw : ~ In w l).
    { intros Hw. apply Hout. now apply (counts_all Hc). }
    constructor.
    + rewrite map_app. simpl.
      eapply Permutation_NoDup; [apply Permutation_cons_append|].
      constructor; [exact Hout|exact (counts_nodup Hc)].
    + intros v n Hvn. rewrite count_occ_app. simpl.
      apply in_app_iff in Hvn. destruct Hvn as [Hvn|[Hvn|[]]].
      * destruct (counts_value Hc _ _ Hvn) as [-> Hv].
        destruct (str_dec w v) as [<-|Hne]; [contradiction|].
        split; [lia|]. apply in_app_iff. now left.
      * injection Hvn as <- <-.
        destruct (str_dec w w); [|congruence].
        rewrite (count_occ_not_In str_dec l w) in Hw. rewrite Hw.
        split; [reflexivity|]. apply in_app_iff. right. now left.
    + intros v Hv. rewrite map_app. apply in_app_iff. simpl.
      apply in_app_iff in Hv.
      destruct Hv as [Hv|[<-|[]]]; [left; now apply (counts_all Hc)|auto].
    + rewrite map_app. simpl. apply StronglySorted_snoc; [exact Hord|].
      apply Forall_forall. intros v Hv.
      rewrite (first_index_absent _ _ Hw).
      destruct (@first_index_app_in v l [w]) as [-> Hlt];
        [now apply (@counts_key_in l c _ Hc)|exact Hlt].
Qed.

Lemma Counter_counts (l : list str) : counts l (Counter l).
Proof.
  induction l as [|w l IH] using rev_ind.
  - constructor; simpl; try constructor; contradiction.
  - rewrite Counter_snoc. now apply counts_step.
Qed.

(** ** The stable sort by count *)

Section StableSort.

Variable P : str * nat -> str * nat -> Prop.

Lemma insert_by_count_perm (x : str * nat) (l : list (str * nat)) :
  Permutation (insert_by_count x l) (x :: l).
Proof.
  induction l as [|y l IH]; simpl; auto.
  destruct (snd x <? snd y); auto.
  rewrite IH. apply perm_swap.
Qed.

Lemma sort_by_count_perm (l : list (str * nat)) :
  Permutation (sort_by_count l) l.
Proof.
  induction l as [|x l IH]; simpl; auto.
  rewrite insert_by_count_perm. auto.
Qed.

Lemma insert_by_count_sorted (x : str * nat) (l : list (str * nat)) :
  StronglySorted (count_order P) l -> Forall (P x) l ->
  StronglySorted (count_order P) (insert_by_count x l).
Proof.
  induction 1 as [|y l Hs IH Hy]; intros Hx; simpl.
  - repeat constructor.
  - inversion Hx as [|? ? Hxy Hxl]; subst.
    destruct (snd x <? snd y) eqn:E.
    + apply Nat.ltb_lt in E. constructor; auto.
      rewrite (insert_by_count_perm x l). constructor; auto.
      left. exact E.
    + apply Nat.ltb_ge in E. constructor; [constructor; auto|].
      rewrite Forall_forall in *. intros z Hz.
      assert (Hzy : snd z <= snd y).
      { destruct Hz as [<-|Hz]; [lia|].
        destruct (Hy z Hz) as [H|[H _]]; lia. }
      destruct (Nat.eq_dec (snd x) (snd z)) as [Heq|Hne].
      * right. split; [exact Heq|]. destruct Hz as [<-|Hz]; auto.
      * left. lia.
Qed.

Lemma sort_by_count_sorted (l : list (str * nat)) :
  StronglySorted P l -> StronglySorted (count_order P) (sort_by_count l).
Proof.
  induction 1 as [|x l Hs IH Hx]; simpl; [constructor|].
  apply insert_by_count_sorted; auto.
  eapply Permutation_Forall; [|exact Hx].
  apply Permutation_sym, sort_by_count_perm.
Qed.

End StableSort.

Lemma In_firstn_to_In {A} (x : A) (n : nat) (l : list A) :
  In x (firstn n l) -> In x l.
Proof.
  intros H. rewrite <- (firstn_skipn n l). apply in_app_iff. now left.
Qed.

Lemma StronglySorted_firstn {A} (R : A -> A -> Prop) (n : nat) (l : list A) :
  StronglySorted R l -> StronglySorted R (firstn n l).
Proof.
  revert l; induction n as [|n IH]; intros l Hs; [constructor|].
  destruct Hs as [|x l Hs Hx]; simpl; constructor; auto.
  rewrite Forall_forall in *. intros y Hy. apply Hx.
  eapply In_firstn_to_In; eauto.
Qed.

Lemma StronglySorted_app_inv {A} (R : A -> A -> Prop) (l1 l2 : list A) :
  StronglySorted R (l1 ++ l2) ->
  forall a b, In a l1 -> In b l2 -> R a b.
Proof.
  induction l1 as [|x l1 IH]; simpl; intros Hs a b Ha Hb; [contradiction|].
  inversion Hs as [|? ? Hs' Hx]; subst.
  destruct Ha as [<-|Ha]; [|eauto].
  rewrite Forall_forall in Hx. apply Hx. apply in_app_iff. now right.
Qed.

Lemma NoDup_firstn {A} (n : nat) (l : list A) : NoDup l -> NoDup (firstn n l).
Proof.
  revert l; induction n as [|n IH]; intros l Hn; [constructor|].
  destruct Hn as [|x l Hx Hn]; simpl; constructor; auto.
  intros Hin. apply Hx. eapply In_firstn_to_In; eauto.
Qed.

Lemma most_common_firstn (n : Z) (c : Counter_t) :
  (0 <= n)%Z -> most_common n c = firstn (Z.to_nat n) (sort_by_count c).
Proof.
  intros Hn. unfold most_common. destruct (n <=? 0)%Z eqn:E; [|reflexivity].
  assert (n = 0%Z) as -> by lia. reflexivity.
Qed.

(** A counted token: letters [a-z] only, three at least, a whole word of
    the lowered text, and not a stop word. *)
Lemma keyword_token_shape (text w : str) :
  In w (keyword_tokens text) ->
  forallb Py.is_ascii_lower w = true /\
  3 <= length w /\
  whole_word_in w (Py.lower text) /\
  in_stop_words w = false.
Proof.
  unfold keyword_tokens. intros Hin. apply filter_In in Hin.
  destruct Hin as [Hin Hstop]. apply negb_true_iff in Hstop.
  destruct (alpha3_word_hits _ _ Hin) as (Halpha & Hlen & Hword).
  split; [|auto].
  destruct Hword as (pre & post & Htext & _).
  apply forallb_forall. intros ch Hch.
  assert (Hlow : In ch (Py.lower text)).
  { rewrite Htext. apply in_app_iff. right. apply in_app_iff. now left. }
  unfold Py.lower in Hlow. apply in_map_iff in Hlow.
  destruct Hlow as [x [<- _]].
  apply lower_char_not_upper.
  rewrite forallb_forall in Halpha. auto.
Qed.

(** ** The keywords *)

(** C5.  For [top_n >= 0], [extract_keywords] emits at most [top_n]
    keywords, all of different words.  They are ranked: a larger count
    first and, among equal counts, the word met first among the counted
    tokens.  Each keyword is made of three or more letters [a-z], stands
    as a whole word in the lowered text, is not a stop word, and carries
    the number of its occurrences among the counted tokens.  A counted
    token that is not emitted has no more occurrences than any emitted
    keyword. *)
Theorem extract_keywords_spec (text : str) (top_n : Z) :
  (0 <= top_n)%Z ->
  length (extract_keywords text top_n) <= Z.to_nat top_n /\
  NoDup (map word (extract_keywords text top_n)) /\
  StronglySorted (ranks_before (keyword_tokens text))
                 (extract_keywords text top_n) /\
  Forall (fun k =>
            forallb Py.is_ascii_lower (word k) = true /\
            3 <= length (word k) /\
            whole_word_in (word k) (Py.lower text) /\
            in_stop_words (word k) = false /\
            count k = count_occ str_dec (keyword_tokens text) (word k) /\
            1 <= count k)
         (extract_keywords text top_n) /\
  (forall w k,
      In w (keyword_tokens text) ->
      ~ In w (map word (extract_keywords text top_n)) ->
      In k (extract_keywords text top_n) ->
      count_occ str_dec (keyword_tokens text) w <= count k).
Proof.
  intros Hn. unfold extract_keywords. fold (keyword_tokens text).
  set (toks := keyword_tokens text).
  rewrite most_common_firstn by assumption.
  set (n := Z.to_nat top_n).
  pose proof (Counter_counts toks) as Hc.
  set (c := Counter toks) in *.
  set (P := fun a b : str * nat =>
              first_index (fst a) toks < first_index (fst b) toks).
  assert (Hsorted : StronglySorted
                      (fun a b => snd b < snd a \/ (snd a = snd b /\ P a b))
                      (sort_by_count c)).
  { apply sort_by_count_sorted.
    apply (proj1 (StronglySorted_map fst
                    (fun a b => first_index a toks < first_index b toks) c)).
    exact (counts_order Hc). }
  assert (Hin_c : forall x, In x (firstn n (sort_by_count c)) -> In x c).
  { intros x Hx. apply In_firstn_to_In in Hx.
    eapply Permutation_in; [apply sort_by_count_perm|exact Hx]. }
  assert (Hwords : map word (map (fun wc => mkKeyword (fst wc) (snd wc))
                                 (firstn n (sort_by_count c)))
                   = firstn n (map fst (sort_by_count c))).
  { rewrite map_map. simpl. now rewrite firstn_map. }
  split; [|split; [|split; [|split]]].
  - rewrite length_map. apply firstn_le_length.
  - rewrite Hwords. apply NoDup_firstn.
    eapply Permutation_NoDup; [|exact (counts_nodup Hc)].
    apply Permutation_map, Permutation_sym, sort_by_count_perm.
  - apply StronglySorted_map. apply StronglySorted_firstn. exact Hsorted.
  - apply Forall_map. apply Forall_forall. intros [v m] Hx. simpl.
    apply Hin_c in Hx. destruct (counts_value Hc _ _ Hx) as [-> Hv].
    destruct (keyword_token_shape _ _ Hv) as (H1 & H2 & H3 & H4).
    repeat split; auto.
    now apply (count_occ_In str_dec).
  - intros w k Hw Hout Hk.
    apply in_map_iff in Hk. destruct Hk as [[v m] [<- Hk]]. simpl.
    assert (Hwc : In (w, count_occ str_dec toks w) c).
    { pose proof (counts_all Hc _ Hw) as Hkey.
      apply in_map_iff in Hkey. destruct Hkey as [[w' m'] [Ew Hkey]].
      simpl in Ew. subst w'.
      now destruct (counts_value Hc _ _ Hkey) as [<- _]. }
    eapply Permutation_in in Hwc; [|apply Permutation_sym, sort_by_count_perm].
    rewrite <- (firstn_skipn n (sort_by_count c)) in Hwc, Hsorted.
    apply in_app_iff in Hwc. destruct Hwc as [Hwc|Hwc].
    + exfalso. apply Hout. rewrite Hwords, firstn_map.
      apply in_map_iff. exists (w, count_occ str_dec toks w). auto.
    + pose proof (StronglySorted_app_inv _ _ Hsorted _ _ Hk Hwc) as HR.
      simpl in HR. lia.
Qed.

Lemma extract_keywords_spec_witness :
  length (extract_keywords pets 12) <= Z.to_nat 12 /\
  NoDup (map word (extract_keywords pets 12)) /\
  StronglySorted (ranks_before (keyword_tokens pets))
                 (extract_keywords pets 12) /\
  Forall (fun k =>
            forallb Py.is_ascii_lower (word k) = true /\
            3 <= length (word k) /\
            whole_word_in (word k) (Py.lower pets) /\
            in_stop_words (word k) = false /\
            count k = count_occ str_dec (keyword_tokens pets) (word k) /\
            1 <= count k)
         (extract_keywords pets 12) /\
  (forall w k,
      In w (keyword_tokens pets) ->
      ~ In w (map word (extract_keywords pets 12)) ->
      In k (extract_keywords pets 12) ->
      count_occ str_dec (keyword_tokens pets) w <= count k).
Proof.
  apply (@extract_keywords_spec pets 12). lia.
Defined.

(** ** The statistics *)

Lemma split_from_length (s : str) :
  forall cur,
    length (Py.split_from cur s)
    = count_runs not_space (Py.truthy cur) s
      + (if Py.truthy cur then 1 else 0).
Proof.
  unfold not_space.
  induction s as [|c s IH]; intros cur; simpl.
  - destruct cur; reflexivity.
  - destruct (Py.isspace c) eqn:E; simpl.
    + destruct cur; simpl; rewrite IH; simpl; lia.
    + rewrite IH. simpl. destruct cur; simpl; lia.
Qed.

Lemma split_length (s : str) :
  length (Py.split s) = count_runs not_space false s.
Proof. unfold Py.split. rewrite split_from_length. simpl. lia. Qed.

Lemma count_runs_inside (p : ascii -> bool) (s : str) :
  count_runs p true s = count_runs p false (Py.dropwhile p s).
Proof.
  induction s as [|c s IH]; simpl; auto.
  destruct (p c) eqn:E; simpl; [exact IH|]. now rewrite E.
Qed.

Lemma hits_length_sentence_ends (k : nat) :
  forall (s : str) (prev : option ascii) (gap : str),
    length s <= k ->
    length (Re.hits (Re.scan Re.sentence_end_run 0 prev gap s))
    = count_runs Re.is_sentence_end false s.
Proof.
  induction k as [|k IH]; intros s prev gap Hlen.
  - destruct s; [reflexivity|simpl in Hlen; lia].
  - destruct s as [|c s]; [reflexivity|].
    simpl in Hlen. cbn [Re.scan count_runs].
    unfold Re.sentence_end_run, Re.run. cbn [Py.takewhile].
    destruct (Re.is_sentence_end c) eqn:E; cbn [length Re.hits andb negb].
    + rewrite scan_skip, skipn_takewhile, count_runs_inside.
      rewrite IH; [lia|].
      pose proof (dropwhile_length Re.is_sentence_end s). lia.
    + rewrite IH by lia. reflexivity.
Qed.

Lemma findall_sentence_ends (s : str) :
  length (Re.findall Re.sentence_end_run s)
  = count_runs Re.is_sentence_end false s.
Proof. unfold Re.findall. now apply hits_length_sentence_ends with (k := length s). Qed.

(** [round]: the result is within a half of the argument, and even when it
    is exactly a half away. *)
Lemma py_round_spec (x : Q) :
  (Qabs (x - inject_Z (py_round x)) <= 1 # 2)%Q /\
  ((Qabs (x - inject_Z (py_round x)) == 1 # 2)%Q ->
   Z.even (py_round x) = true).
Proof.
  unfold py_round.
  pose proof (Qfloor_le x) as Hlo. pose proof (Qlt_floor x) as Hhi.
  set (f := Qfloor x) in *.
  assert (Hf1 : (inject_Z (f + 1) == inject_Z f + 1)%Q).
  { rewrite inject_Z_plus. reflexivity. }
  rewrite Hf1 in Hhi.
  destruct (Qcompare_spec (x - inject_Z f) (1 # 2)) as [Heq|Hlt|Hgt].
  - destruct (Z.even f) eqn:Ef.
    + split; [|auto]. apply Qabs_case; intros; lra.
    + split.
      * rewrite Hf1. apply Qabs_case; intros; lra.
      * intros _. rewrite Z.even_add, Ef. reflexivity.
  - split.
    + apply Qabs_case; intros; lra.
    + apply Qabs_case; intros; lra.
  - rewrite Hf1. split.
    + apply Qabs_case; intros; lra.
    + apply Qabs_case; intros; lra.
Qed.

(** [round(n / 200)] by integer arithmetic. *)
Lemma py_round_div_200 (n : Z) : py_round (n # 200) = round_div_200 n.
Proof.
  unfold py_round, round_div_200.
  change (Qfloor (n # 200)) with (n / 200)%Z.
  pose proof (Z.div_mod n 200 ltac:(lia)) as Hdm.
  pose proof (Z.mod_pos_bound n 200 ltac:(lia)) as Hb.
  set (q := (n / 200)%Z) in *. set (r := (n mod 200)%Z) in *.
  assert (Hcmp : ((n # 200) - inject_Z q ?= 1 # 2)%Q = (r ?= 100)%Z).
  { unfold Qcompare. simpl.
    destruct (Z.compare_spec r 100);
      [apply Z.compare_eq_iff|apply Z.compare_lt_iff|apply Z.compare_gt_iff];
      lia. }
  rewrite Hcmp.
  destruct (Z.compare_spec r 100) as [He|Hl|Hg].
  - destruct (r <? 100)%Z eqn:E1; [lia|].
    destruct (100 <? r)%Z eqn:E2; [lia|]. reflexivity.
  - destruct (r <? 100)%Z eqn:E1; [reflexivity|lia].
  - destruct (r <? 100)%Z eqn:E1; [lia|].
    destruct (100 <? r)%Z eqn:E2; [reflexivity|lia].
Qed.

Lemma last_end_rev (segments : list Segment) :
  match rev segments with
  | [] => 0%Q
  | last_seg :: _ =>
      match seg_end last_seg with
      | Some e => e
      | None => 0%Q
      end
  end = last_end segments.
Proof.
  induction segments as [|x l IH]; [reflexivity|].
  destruct l as [|y l']; [reflexivity|].
  change (last_end (x :: y :: l')) with (last_end (y :: l')).
  rewrite <- IH.
  change (rev (x :: y :: l')) with (rev (y :: l') ++ [x]).
  destruct (rev (y :: l')) as [|h t] eqn:E; [|reflexivity].
  apply (f_equal (@length Segment)) in E.
  rewrite length_rev in E. discriminate.
Qed.

(** C6.  [compute_stats] returns: as [word_count] the number of runs of
    non-whitespace in the transcript; as [sentence_count] the number of
    runs of [.], [!], [?], and 1 when there is none; as [char_count] the
    length of the transcript; as [duration_sec] the ['end'] of the last
    segment (0 without segments or without the key) rounded to a tenth;
    as [reading_time_min] the larger of 1 and [round(word_count / 200)],
    the rounding being to the nearest integer with a tie to the even one.
    The reading time is at least 1, and it is 1 for a transcript of one
    word. *)
Theorem compute_stats_spec (transcript : str) (segments : list Segment) :
  word_count (compute_stats transcript segments)
  = count_runs not_space false transcript /\
  sentence_count (compute_stats transcript segments)
  = Nat.max 1 (count_runs Re.is_sentence_end false transcript) /\
  char_count (compute_stats transcript segments) = length transcript /\
  duration_sec (compute_stats transcript segments)
  = py_round1 (last_end segments) /\
  (exists tenths : Z,
      duration_sec (compute_stats transcript segments)
      = (inject_Z tenths / 10)%Q /\
      (Qabs (last_end segments * 10 - inject_Z tenths) <= 1 # 2)%Q) /\
  reading_time_min (compute_stats transcript segments)
  = Z.max 1 (py_round
               (Z.of_nat (word_count (compute_stats transcript segments))
                # 200)) /\
  reading_time_min (compute_stats transcript segments)
  = Z.max 1 (round_div_200
               (Z.of_nat (count_runs not_space false transcript))) /\
  (1 <= reading_time_min (compute_stats transcript segments))%Z /\
  (count_runs not_space false transcript = 1 ->
   reading_time_min (compute_stats transcript segments) = 1%Z).
Proof.
  unfold compute_stats. cbn [word_count sentence_count char_count
                             duration_sec reading_time_min].
  rewrite split_length, findall_sentence_ends.
  pose proof (last_end_rev segments) as Hlast.
  rewrite Hlast.
  split; [reflexivity|].
  split.
  { destruct (count_runs Re.is_sentence_end false transcript); reflexivity. }
  split; [reflexivity|].
  split; [reflexivity|].
  split.
  { exists (py_round (last_end segments * 10)). split; [reflexivity|].
    apply py_round_spec. }
  split; [reflexivity|].
  split; [now rewrite py_round_div_200|].
  split; [apply Z.le_max_l|].
  intros ->. reflexivity.
Qed.

(** ** Normalizing the amplitude *)

Lemma Qmax_cases (a b : Q) :
  (Qmax a b = a /\ (b <= a)%Q) \/ (Qmax a b = b /\ (a <= b)%Q).
Proof.
  unfold Qmax, GenericMinMax.gmax.
  destruct (Qcompare_spec a b) as [He|Hl|Hg].
  - left. split; [reflexivity|]. rewrite He. apply Qle_refl.
  - right. split; [reflexivity|]. now apply Qlt_le_weak.
  - left. split; [reflexivity|]. now apply Qlt_le_weak.
Qed.

Lemma fold_max_spec (l : list Q) :
  forall a,
    (a <= fold_left (fun m v => Qmax m (Qabs v)) l a)%Q /\
    Forall (fun v => (Qabs v <= fold_left (fun m v => Qmax m (Qabs v)) l a)%Q) l /\
    (fold_left (fun m v => Qmax m (Qabs v)) l a = a \/
     In (fold_left (fun m v => Qmax m (Qabs v)) l a) (map Qabs l)).
Proof.
  induction l as [|v l IH]; intros a; simpl.
  - split; [apply Qle_refl|]. split; [constructor|now left].
  - destruct (IH (Qmax a (Qabs v))) as (H1 & H2 & H3).
    set (r := fold_left (fun m v => Qmax m (Qabs v)) l (Qmax a (Qabs v))) in *.
    destruct (Qmax_cases a (Qabs v)) as [[E Hle]|[E Hle]]; rewrite E in *.
    + split; [exact H1|]. split.
      * constructor; [eapply Qle_trans; eauto|exact H2].
      * destruct H3 as [H3|H3]; [now left|right; now right].
    + split; [eapply Qle_trans; eauto|]. split.
      * constructor; [exact H1|exact H2].
      * right. destruct H3 as [H3|H3]; [now left|now right].
Qed.

(** [np.max(np.abs(y))] on a signal that is not empty: an absolute value
    of the signal above all the others. *)
Lemma max_abs_spec (y : list Q) :
  y <> [] ->
  exists m,
    max_abs y = inr m /\ In m (map Qabs y) /\
    Forall (fun v => (Qabs v <= m)%Q) y /\ (0 <= m)%Q.
Proof.
  destruct y as [|x y]; [congruence|]. intros _.
  destruct (fold_max_spec y (Qabs x)) as (H1 & H2 & H3).
  eexists. split; [reflexivity|]. simpl.
  split; [|split].
  - destruct H3 as [->|H3]; auto.
  - constructor; auto.
  - eapply Qle_trans; [apply Qabs_nonneg|exact H1].
Qed.

Lemma Qpositive_iff (x : Q) : Qpositive x = true <-> (0 < x)%Q.
Proof.
  unfold Qpositive. rewrite negb_true_iff, <- not_true_iff_false, Qle_bool_iff.
  split; [apply Qnot_le_lt|apply Qlt_not_le].
Qed.

Lemma Qabs_div_pos (v m : Q) : (0 < m)%Q -> (Qabs (v / m) == Qabs v / m)%Q.
Proof.
  intros Hm. unfold Qdiv. rewrite Qabs_Qmult.
  rewrite (Qabs_pos (/ m)); [reflexivity|].
  apply Qlt_le_weak. now apply Qinv_lt_0_compat.
Qed.

(** ** The arithmetic of single precision *)


























Lemma finite_not_inf (x : spec_float) :
  F32.is_finite x = true -> F32.is_inf x = false.
Proof. destruct x; simpl; congruence. Qed.








(** The samples written for 0.1, 0.3, 0.7: the quotients by 0.7 rounded
    to single precision, 9586981 / 2^26, 14380472 / 2^25 and 1. *)
Example normalized_tenths :
  F32.save_wav_mono_16k (playing [tenth; three_tenths; seven_tenths] true)
    (lit "in.mp3") (lit "out.wav") 16000
  = inr (F32.mkWavOut (lit "out.wav")
           [S754_finite false 9586981 (-26);
            S754_finite false 14380472 (-25);
            S754_finite false 8388608 (-23)]
           16000 (lit "PCM_16")).
Proof. vm_compute. reflexivity. Qed.

(** Zeros of either sign are silence. *)
Example silence_raises :
  F32.save_wav_mono_16k (playing [F32.zero; F32.opp F32.zero] true)
    (lit "in.mp3") (lit "out.wav") 16000
  = inl (Raise ValueError (lit "Audio file contains only silence")).
Proof. reflexivity. Qed.


(** ** The format of the wave file *)

(** The recognizer loop raises nothing but the exception of
    [AcceptWaveform]. *)
Lemma feed_error (V : AsrLibs) (chunks : list (list Z)) :
  forall (rec : Rec V) (segments : list Segment) (e : exn),
    feed V rec segments chunks = inl e -> exn_class_of e = OtherException.
Proof.
  induction chunks as [|data chunks IH]; intros rec segments e; simpl.
  - discriminate.
  - destruct (AcceptWaveform V rec data) as [[[] rec']|].
    + destruct (Result V rec') as [result rec'']. apply IH.
    + apply IH.
    + intros [= <-]. reflexivity.
Qed.

(** C8.  With the model loaded and the wave file open, [transcribe_file]
    raises a [ValueError] exactly when the file has not 1 channel, or not
    2 bytes per sample, or not 16000 frames per second; the message names
    what was expected and the value found.  [process] answers such an
    error with status 400 and the message after "Audio format error: ";
    for a file of 2 channels the message contains "mono" and
    "2 channels". *)
Theorem transcribe_file_format (V : AsrLibs) (wav_path model_path : str)
  (model : VoskModel V) (wf : Wave) :
  Model V model_path = inr model ->
  wave_open V wav_path = inr wf ->
  (getnchannels wf <> 1%Z ->
   transcribe_file V wav_path model_path
   = inl (Raise ValueError
            (lit "WAV must be mono (1 channel), got "
             ++ Py.str_of_int (getnchannels wf) ++ lit " channels"))) /\
  (getnchannels wf = 1%Z -> getsampwidth wf <> 2%Z ->
   transcribe_file V wav_path model_path
   = inl (Raise ValueError
            (lit "WAV must be 16-bit (2 bytes), got "
             ++ Py.str_of_int (getsampwidth wf) ++ lit " bytes"))) /\
  (getnchannels wf = 1%Z -> getsampwidth wf = 2%Z ->
   getframerate wf <> 16000%Z ->
   transcribe_file V wav_path model_path
   = inl (Raise ValueError
            (lit "WAV must be 16kHz, got "
             ++ Py.str_of_int (getframerate wf) ++ lit "Hz"))) /\
  ((exists msg,
       transcribe_file V wav_path model_path = inl (Raise ValueError msg))
   <-> (getnchannels wf <> 1%Z \/ getsampwidth wf <> 2%Z
        \/ getframerate wf <> 16000%Z)) /\
  (forall (L : Libs) (A : AudioLibs) (W : WebLibs) (f : Upload)
          (w : World (Handle L)) (out : WavOut) (msg : str),
      filename f <> [] ->
      allowed_file (filename f) = true ->
      saved_size f <> 0%Z ->
      wav_path = temp_wav_name W ->
      model_path = VOSK_MODEL_PATH ->
      save_wav_mono_16k A (saved_upload_path W (filename f)) wav_path 16000
      = inr out ->
      transcribe_file V wav_path model_path = inl (Raise ValueError msg) ->
      process L A V W (Some f) w
      = (inr (mkResponse (ErrorBody (lit "Audio format error: " ++ msg)) 400),
         w)) /\
  (getnchannels wf = 2%Z ->
   exists msg,
     transcribe_file V wav_path model_path = inl (Raise ValueError msg) /\
     contains (lit "mono") (lit "Audio format error: " ++ msg) /\
     contains (lit "2 channels") (lit "Audio format error: " ++ msg)).
Proof.
  intros Hmodel Hopen.
  assert (H1 : getnchannels wf <> 1%Z ->
               transcribe_file V wav_path model_path
               = inl (Raise ValueError
                        (lit "WAV must be mono (1 channel), got "
                         ++ Py.str_of_int (getnchannels wf) ++ lit " channels"))).
  { intros Hn. unfold transcribe_file. rewrite Hmodel, Hopen.
    apply Z.eqb_neq in Hn. now rewrite Hn. }
  assert (H2 : getnchannels wf = 1%Z -> getsampwidth wf <> 2%Z ->
               transcribe_file V wav_path model_path
               = inl (Raise ValueError
                        (lit "WAV must be 16-bit (2 bytes), got "
                         ++ Py.str_of_int (getsampwidth wf) ++ lit " bytes"))).
  { intros Hn Hs. unfold transcribe_file. rewrite Hmodel, Hopen, Hn.
    apply Z.eqb_neq in Hs. now rewrite Hs. }
  assert (H3 : getnchannels wf = 1%Z -> getsampwidth wf = 2%Z ->
               getframerate wf <> 16000%Z ->
               transcribe_file V wav_path model_path
               = inl (Raise ValueError
                        (lit "WAV must be 16kHz, got "
                         ++ Py.str_of_int (getframerate wf) ++ lit "Hz"))).
  { intros Hn Hs Hr. unfold transcribe_file. rewrite Hmodel, Hopen, Hn, Hs.
    apply Z.eqb_neq in Hr. now rewrite Hr. }
  split; [exact H1|]. split; [exact H2|]. split; [exact H3|].
  split; [|split].
  - split.
    + intros [msg Hmsg].
      destruct (Z.eq_dec (getnchannels wf) 1) as [Hn|Hn]; [|now left].
      destruct (Z.eq_dec (getsampwidth wf) 2) as [Hs|Hs]; [|right; now left].
      destruct (Z.eq_dec (getframerate wf) 16000) as [Hr|Hr];
        [|right; now right].
      exfalso. unfold transcribe_file in Hmsg.
      rewrite Hmodel, Hopen, Hn, Hs, Hr in Hmsg. simpl in Hmsg.
      destruct (feed V _ [] _) as [e|[rec segments]] eqn:Ef; [|discriminate].
      apply feed_error in Ef. injection Hmsg as ->. discriminate.
    + intros Hbad.
      destruct (Z.eq_dec (getnchannels wf) 1) as [Hn|Hn]; [|eauto].
      destruct (Z.eq_dec (getsampwidth wf) 2) as [Hs|Hs]; [|eauto].
      destruct (Z.eq_dec (getframerate wf) 16000) as [Hr|Hr]; [|eauto].
      tauto.
  - intros L A W f w out msg Hname Hallowed Hsize Hwav Hpath Hsave Hraise.
    unfold process, try_except, process_body.
    apply str_eqb_neq in Hname. rewrite Hname, Hallowed. simpl negb. cbv iota.
    unfold process_upload. apply Z.eqb_neq in Hsize. rewrite Hsize.
    unfold bind, call. rewrite <- Hwav, Hsave, <- Hpath, Hraise.
    reflexivity.
  - intros Hn2.
    assert (Hn : getnchannels wf <> 1%Z) by lia.
    eexists. split; [exact (H1 Hn)|]. rewrite Hn2. split.
    + exists (lit "Audio format error: WAV must be "),
             (lit " (1 channel), got 2 channels"). reflexivity.
    + exists (lit "Audio format error: WAV must be mono (1 channel), got "), [].
      reflexivity.
Qed.

Lemma transcribe_file_format_witness :
  (getnchannels stereo_wf <> 1%Z ->
   transcribe_file stereo_wave (temp_wav_name plain_web) VOSK_MODEL_PATH
   = inl (Raise ValueError
            (lit "WAV must be mono (1 channel), got "
             ++ Py.str_of_int (getnchannels stereo_wf) ++ lit " channels"))) /\
  (getnchannels stereo_wf = 1%Z -> getsampwidth stereo_wf <> 2%Z ->
   transcribe_file stereo_wave (temp_wav_name plain_web) VOSK_MODEL_PATH
   = inl (Raise ValueError
            (lit "WAV must be 16-bit (2 bytes), got "
             ++ Py.str_of_int (getsampwidth stereo_wf) ++ lit " bytes"))) /\
  (getnchannels stereo_wf = 1%Z -> getsampwidth stereo_wf = 2%Z ->
   getframerate stereo_wf <> 16000%Z ->
   transcribe_file stereo_wave (temp_wav_name plain_web) VOSK_MODEL_PATH
   = inl (Raise ValueError
            (lit "WAV must be 16kHz, got "
             ++ Py.str_of_int (getframerate stereo_wf) ++ lit "Hz"))) /\
  ((exists msg,
       transcribe_file stereo_wave (temp_wav_name plain_web) VOSK_MODEL_PATH = inl (Raise ValueError msg))
   <-> (getnchannels stereo_wf <> 1%Z \/ getsampwidth stereo_wf <> 2%Z
        \/ getframerate stereo_wf <> 16000%Z)) /\
  (forall (L : Libs) (A : AudioLibs) (W : WebLibs) (f : Upload)
          (w : World (Handle L)) (out : WavOut) (msg : str),
      filename f <> [] ->
      allowed_file (filename f) = true ->
      saved_size f <> 0%Z ->
      temp_wav_name plain_web = temp_wav_name W ->
      VOSK_MODEL_PATH = VOSK_MODEL_PATH ->
      save_wav_mono_16k A (saved_upload_path W (filename f)) (temp_wav_name plain_web) 16000
      = inr out ->
      transcribe_file stereo_wave (temp_wav_name plain_web) VOSK_MODEL_PATH = inl (Raise ValueError msg) ->
      process L A stereo_wave W (Some f) w
      = (inr (mkResponse (ErrorBody (lit "Audio format error: " ++ msg)) 400),
         w)) /\
  (getnchannels stereo_wf = 2%Z ->
   exists msg,
     transcribe_file stereo_wave (temp_wav_name plain_web) VOSK_MODEL_PATH = inl (Raise ValueError msg) /\
     contains (lit "mono") (lit "Audio format error: " ++ msg) /\
     contains (lit "2 channels") (lit "Audio format error: " ++ msg)).
Proof.
  apply (@transcribe_file_format stereo_wave (temp_wav_name plain_web)
           VOSK_MODEL_PATH tt stereo_wf).
  - reflexivity.
  - reflexivity.
Defined.

(** ** The scenarios of the specification, run on the model *)

(** Four sentences, [top_k = 5]: the transcript itself and four highlights
    of score 1.0. *)
Example scenario_four_sentences :
  fst (summarize_extract length_libs four_sentences 5 (fresh _))
  = inr (four_sentences,
         [mkHighlight (lit "This is great.") 1;
          mkHighlight (lit "It works well.") 1;
          mkHighlight (lit "Testing now.") 1;
          mkHighlight (lit "Final check done.") 1]).
Proof. vm_compute. reflexivity. Qed.

(** Six sentences, [top_k = 5], a model that cannot be loaded: the first
    five sentences, each with score 0.0, and a warning on the log. *)
Example scenario_embedding_fails :
  summarize_extract broken_libs six_sentences 5 (fresh _)
  = (inr (lit "Short one here. A much longer sentence follows it. Tiny bit. Then a sentence of middle size. Another.",
          [mkHighlight (lit "Short one here.") 0;
           mkHighlight (lit "A much longer sentence follows it.") 0;
           mkHighlight (lit "Tiny bit.") 0;
           mkHighlight (lit "Then a sentence of middle size.") 0;
           mkHighlight (lit "Another.") 0]),
     mkWorld None
       [EvPrint (lit "Warning: Summarization failed, using fallback: Failed to load sentence model 'all-MiniLM-L6-v2': no such model");
        EvLoad false]).
Proof. vm_compute. reflexivity. Qed.

(** Six sentences, [top_k = 2], scored by length: the highlights by
    score, the summary in the order of the text. *)
Example scenario_scored :
  fst (summarize_extract length_libs six_sentences 2 (fresh _))
  = inr (lit "A much longer sentence follows it. Then a sentence of middle size.",
         [mkHighlight (lit "A much longer sentence follows it.") 34;
          mkHighlight (lit "Then a sentence of middle size.") 31]).
Proof. vm_compute. reflexivity. Qed.

Example tokenize_drops_short_pieces :
  sentence_tokenize (lit "  Well. Ok! Is it so?   Yes, it is.  ")
  = [lit "Well."; lit "Is it so?"; lit "Yes, it is."].
Proof. vm_compute. reflexivity. Qed.

Example tokenize_blank : sentence_tokenize (lit "   ") = [].
Proof. vm_compute. reflexivity. Qed.

Example keywords_of_pets :
  extract_keywords pets 3
  = [mkKeyword (lit "cat") 3; mkKeyword (lit "bird") 3; mkKeyword (lit "dog") 2].
Proof. vm_compute. reflexivity. Qed.

Example stats_of_one_word :
  compute_stats (lit "hello") []
  = mkStats 1 1 5 (py_round1 0) 1.
Proof. vm_compute. reflexivity. Qed.

Example stats_round_half_even :
  map (fun n => Z.max 1 (round_div_200 n)) [100; 101; 300; 500; 700]%Z
  = [1; 1; 2; 2; 4]%Z.
Proof. vm_compute. reflexivity. Qed.

(** A file of two channels reaching the recognizer: status 400. *)
Example scenario_two_channels :
  fst (process length_libs stereo_audio stereo_wave plain_web
         (Some (mkUpload (lit "talk.wav") 1024)) (fresh _))
  = inr (mkResponse
           (ErrorBody (lit "Audio format error: WAV must be mono (1 channel), got 2 channels"))
           400).
Proof. vm_compute. reflexivity. Qed.

(** An upload of no byte, and a file that is not audio. *)
Example scenario_empty_upload :
  fst (process length_libs stereo_audio stereo_wave plain_web
         (Some (mkUpload (lit "silence.wav") 0)) (fresh _))
  = inr (mkResponse (ErrorBody (lit "Uploaded file is empty")) 400).
Proof. vm_compute. reflexivity. Qed.

Example scenario_text_upload :
  fst (process length_libs stereo_audio stereo_wave plain_web
         (Some (mkUpload (lit "notes.txt") 12)) (fresh _))
  = inr (mkResponse
           (ErrorBody (lit "Invalid file type. Allowed: .flac, .m4a, .mp3, .ogg, .wav, .webm"))
           400).
Proof. vm_compute. reflexivity. Qed.

(** * Further properties of the code *)

(** ** The shape of a sentence *)

Lemma contains_refl (s : str) : contains s s.
Proof. exists [], []. now rewrite app_nil_r. Qed.

Lemma contains_trans (a b c : str) :
  contains a b -> contains b c -> contains a c.
Proof.
  intros (p1 & q1 & ->) (p2 & q2 & ->).
  exists (p2 ++ p1), (q1 ++ q2). now rewrite !app_assoc.
Qed.

Lemma split_at_ends_contains (prev : option ascii) (s : str)
  (pieces : list str) :
  split_at_ends prev s pieces -> forall p, In p pieces -> contains p s.
Proof.
  induction 1 as [prev s _|prev p c w rest pieces _ _ _ _ _ _ IH];
    intros q Hq.
  - destruct Hq as [<-|[]]. apply contains_refl.
  - destruct Hq as [<-|Hq].
    + exists [], (w ++ rest). reflexivity.
    + destruct (IH q Hq) as (a & b & ->).
      exists ((p ++ [c]) ++ w ++ a), b. now rewrite <- !app_assoc.
Qed.

Lemma dropwhile_id (p : ascii -> bool) (s : str) :
  match s with [] => True | x :: _ => p x = false end ->
  Py.dropwhile p s = s.
Proof. destruct s as [|x s]; simpl; auto. now intros ->. Qed.

Lemma rstrip_split (t : str) :
  t = Py.rstrip t ++ rev (Py.takewhile Py.isspace (rev t)).
Proof.
  unfold Py.rstrip. rewrite <- rev_app_distr, takewhile_dropwhile.
  now rewrite rev_involutive.
Qed.

Lemma strip_contains (s : str) : contains (Py.strip s) s.
Proof.
  exists (Py.takewhile Py.isspace s),
         (rev (Py.takewhile Py.isspace (rev (Py.lstrip s)))).
  unfold Py.strip. rewrite <- rstrip_split. unfold Py.lstrip.
  now rewrite takewhile_dropwhile.
Qed.

(** [strip] leaves nothing to strip. *)
Lemma strip_idem (s : str) : Py.strip (Py.strip s) = Py.strip s.
Proof.
  set (u := Py.strip s).
  assert (Hhead : match u with [] => True | x :: _ => Py.isspace x = false end).
  { pose proof (rstrip_split (Py.lstrip s)) as Ht. fold (Py.strip s) in Ht.
    fold u in Ht.
    pose proof (dropwhile_head Py.isspace s) as Hh. fold (Py.lstrip s) in Hh.
    rewrite Ht in Hh. destruct u; [exact I|exact Hh]. }
  assert (Hlast : match rev u with
                  | [] => True
                  | x :: _ => Py.isspace x = false
                  end).
  { unfold u, Py.strip, Py.rstrip. rewrite rev_involutive.
    apply dropwhile_head. }
  unfold Py.strip at 1. unfold Py.lstrip. rewrite (dropwhile_id _ _ Hhead).
  unfold Py.rstrip. rewrite (dropwhile_id _ _ Hlast).
  apply rev_involutive.
Qed.

(** X1.  Every sentence of [sentence_tokenize] has more than 3 characters,
    has no whitespace at either end, and stands in the text as it is. *)
Theorem sentence_tokenize_shape (text : str) :
  Forall (fun s => 3 < length s /\ Py.strip s = s /\ contains s text)
         (sentence_tokenize text).
Proof.
  unfold sentence_tokenize.
  destruct (negb (Py.truthy text) || negb (Py.truthy (Py.strip text)));
    [constructor|].
  apply Forall_forall. intros s Hs.
  apply filter_In in Hs. destruct Hs as [Hs Hlen].
  apply Nat.ltb_lt in Hlen.
  apply in_map_iff in Hs. destruct Hs as (p & <- & Hp).
  apply filter_In in Hp. destruct Hp as [Hp _].
  split; [exact Hlen|]. split; [apply strip_idem|].
  eapply contains_trans; [apply strip_contains|].
  eapply split_at_ends_contains; [apply re_split_at_ends|exact Hp].
Qed.

(** ** What the summary is made of *)

Lemma slice_to_incl {A} (k : Z) (l : list A) (x : A) :
  In x (Py.slice_to k l) -> In x l.
Proof. unfold Py.slice_to. apply In_firstn_to_In. Qed.

(** X2.  Whatever the libraries do and whatever [top_k] is,
    [summarize_extract] returns, and each highlight is one of the
    sentences of the transcript. *)
Theorem highlights_are_sentences (L : Libs) (text : str) (top_k : Z)
  (w : World (Handle L)) :
  exists summary hl w',
    summarize_extract L text top_k w = (inr (summary, hl), w') /\
    Forall (fun h => In (sentence h) (sentence_tokenize text)) hl.
Proof.
  unfold summarize_extract.
  set (ss := sentence_tokenize text).
  destruct (length ss =? 0).
  { eexists _, _, _. split; [reflexivity|constructor]. }
  destruct (_ <=? top_k)%Z.
  { eexists _, _, _. split; [reflexivity|].
    apply Forall_map, Forall_forall. auto. }
  unfold try_except.
  destruct (embedding_path L ss top_k w) as [[e|[summary hl]] w1] eqn:Hbody.
  - unfold fallback_path, bind, emit, ret. simpl.
    eexists _, _, _. split; [reflexivity|].
    apply Forall_map, Forall_forall. intros s Hs. simpl.
    eapply slice_to_incl; eauto.
  - exists summary, hl, w1. split; [reflexivity|].
    apply embedding_path_inr in Hbody.
    destruct Hbody as (h & e & d & sc & parts & _ & _ & _ & _ & Hhl & _).
    apply traverse_Forall2 in Hhl.
    induction Hhl as [|i x idxs hl' Hx _ IH]; constructor; auto.
    apply highlight_at in Hx. destruct Hx as [Hx _].
    eapply nth_error_In; eauto.
Qed.

(** ** The scored path, when the libraries answer *)

Lemma traverse_total {A B} (f : A -> exn + B) (g : A -> B) (l : list A) :
  Forall (fun x => f x = inr (g x)) l -> traverse f l = inr (map g l).
Proof.
  induction 1 as [|x l Hx _ IH]; simpl; [reflexivity|].
  now rewrite Hx, IH.
Qed.

Lemma getitem_nth {A} (l : list A) (i : nat) (d : A) :
  i < length l -> getitem l i = inr (nth i l d).
Proof.
  intros Hi. unfold getitem. now rewrite (nth_error_nth' l d Hi).
Qed.

Lemma slice_from_incl {A} (k : Z) (l : list A) (x : A) :
  In x (Py.slice_from k l) -> In x l.
Proof.
  unfold Py.slice_from. intros H.
  rewrite <- (firstn_skipn (Z.to_nat (if (k <? 0)%Z
                                      then Z.max (Z.of_nat (length l) + k) 0
                                      else Z.min k (Z.of_nat (length l)))) l).
  apply in_app_iff. now right.
Qed.

(** The indices the scored path selects, for the scores [sc]. *)
Lemma top_indices_in_range (L : Libs) (ok : LibsOk L) (sc : list Q) (k : Z)
  (i : nat) :
  In i (rev (Py.slice_from k (argsort L sc))) -> i < length sc.
Proof.
  intros Hi. apply in_rev, slice_from_incl in Hi.
  eapply Permutation_in in Hi; [|apply (argsort_perm ok)].
  apply in_seq in Hi. lia.
Qed.

(** With a model, an embedding and scores, the [try] body returns: the
    highlights are the sentences at the selected indices with their
    scores, the summary joins the sentences at these indices in
    increasing order. *)
Lemma scored_result (L : Libs) (ok : LibsOk L) (ss : list str) (top_k : Z)
  (w w1 : World (Handle L)) (h : Handle L) (e d : Emb L) (sc : list Q) :
  get_model L w = (inr h, w1) ->
  encode L h ss = inr e ->
  np_mean L e = inr d ->
  cosine_similarity L e d = inr sc ->
  embedding_path L ss top_k w
  = (inr (Py.join (lit " ")
            (map (fun i => nth i ss [])
               (sorted (rev (Py.slice_from
                               (- Z.min top_k (Z.of_nat (length ss)))
                               (argsort L sc))))),
          map (fun i => mkHighlight (nth i ss []) (nth i sc 0%Q))
              (rev (Py.slice_from (- Z.min top_k (Z.of_nat (length ss)))
                                  (argsort L sc)))),
     mkWorld (_model w1) (EvEncode ss :: events w1)).
Proof.
  intros Hg He Hd Hs.
  pose proof (scores_length ok _ _ _ He Hs) as Hlen.
  unfold embedding_path, bind, call, emit, ret.
  rewrite Hg. cbn [_model events]. rewrite He, Hd, Hs.
  set (top := rev (Py.slice_from (- Z.min top_k (Z.of_nat (length ss)))
                                 (argsort L sc))).
  assert (Hrange : Forall (fun i => i < length sc) top).
  { apply Forall_forall. intros i Hi.
    eapply top_indices_in_range; eauto. }
  rewrite (@traverse_total _ _ _
             (fun i => mkHighlight (nth i ss []) (nth i sc 0%Q)) top).
  2:{ eapply Forall_impl; [|exact Hrange]. intros i Hi. simpl in Hi.
      assert (Hi' : i < length ss) by lia.
      rewrite (getitem_nth ss [] Hi'), (getitem_nth sc 0%Q Hi).
      reflexivity. }
  rewrite (@traverse_total _ _ _ (fun i => nth i ss []) (sorted top)).
  2:{ eapply Permutation_Forall; [apply Permutation_sym, sorted_perm|].
      eapply Forall_impl; [|exact Hrange]. intros i Hi. simpl in Hi.
      apply getitem_nth. lia. }
  reflexivity.
Qed.

Lemma skipn_from_end {A} (k : Z) (l : list A) :
  (1 <= k)%Z -> (k <= Z.of_nat (length l))%Z ->
  Py.slice_from (- k) l = skipn (length l - Z.to_nat k) l.
Proof.
  intros H1 H2. unfold Py.slice_from.
  destruct (- k <? 0)%Z eqn:E; [|lia].
  f_equal. lia.
Qed.

(** X3.  With [1 <= top_k < n] and libraries that answer, the scored path
    selects [top_k] distinct sentences: the highlights are these
    sentences with their own scores, the summary joins them in the order
    of the text, and no sentence left out has a higher score than a
    selected one. *)
Theorem top_k_by_score (L : Libs) (ok : LibsOk L) (text : str) (top_k : Z)
  (w w1 : World (Handle L)) (h : Handle L) (e d : Emb L) (sc : list Q) :
  (1 <= top_k)%Z ->
  (top_k < Z.of_nat (length (sentence_tokenize text)))%Z ->
  get_model L w = (inr h, w1) ->
  encode L h (sentence_tokenize text) = inr e ->
  np_mean L e = inr d ->
  cosine_similarity L e d = inr sc ->
  exists idxs,
    length idxs = Z.to_nat top_k /\
    NoDup idxs /\
    Forall (fun i => i < length (sentence_tokenize text)) idxs /\
    fst (summarize_extract L text top_k w)
    = inr (Py.join (lit " ")
             (map (fun i => nth i (sentence_tokenize text) []) (sorted idxs)),
           map (fun i => mkHighlight (nth i (sentence_tokenize text) [])
                                     (nth i sc 0%Q)) idxs) /\
    (forall i j,
        In i idxs -> j < length (sentence_tokenize text) -> ~ In j idxs ->
        (nth j sc 0 <= nth i sc 0)%Q).
Proof.
  intros Hk1 Hkn Hg He Hd Hs.
  set (ss := sentence_tokenize text) in *.
  pose proof (scores_length ok _ _ _ He Hs) as Hlen.
  pose proof (Permutation_length (argsort_perm ok sc)) as Hla.
  rewrite length_seq in Hla.
  pose proof (scored_result ok ss top_k w Hg He Hd Hs) as Hbody.
  rewrite Z.min_l in Hbody by lia.
  rewrite skipn_from_end in Hbody by lia.
  set (m := length (argsort L sc) - Z.to_nat top_k) in *.
  exists (rev (skipn m (argsort L sc))).
  assert (Hnd : NoDup (argsort L sc)).
  { eapply Permutation_NoDup; [apply Permutation_sym, (argsort_perm ok)|].
    apply seq_NoDup. }
  split; [rewrite length_rev, length_skipn; unfold m; lia|].
  split; [apply NoDup_rev_list, NoDup_skipn, Hnd|].
  split.
  { apply Forall_forall. intros i Hi. apply in_rev in Hi.
    assert (Hin : In i (argsort L sc)).
    { rewrite <- (firstn_skipn m). apply in_app_iff. now right. }
    eapply Permutation_in in Hin; [|apply (argsort_perm ok)].
    apply in_seq in Hin. lia. }
  split.
  { rewrite summarize_extract_long; [|lia|exact Hkn]. fold ss.
    unfold try_except. rewrite Hbody. reflexivity. }
  intros i j Hi Hj Hout. apply in_rev in Hi.
  assert (Hjin : In j (firstn m (argsort L sc))).
  { assert (Hj' : In j (argsort L sc)).
    { eapply Permutation_in; [apply Permutation_sym, (argsort_perm ok)|].
      apply in_seq. lia. }
    rewrite <- (firstn_skipn m) in Hj'. apply in_app_iff in Hj'.
    destruct Hj' as [Hj'|Hj']; [exact Hj'|].
    exfalso. apply Hout. now apply in_rev in Hj'. }
  pose proof (argsort_sorted ok sc) as Hsorted.
  rewrite <- (firstn_skipn m (argsort L sc)) in Hsorted.
  exact (StronglySorted_app_inv _ _ Hsorted _ _ Hjin Hi).
Qed.

Lemma top_k_by_score_witness :
  exists sc idxs,
    cosine_similarity length_libs
      (map (fun s => inject_Z (Z.of_nat (length s)))
           (sentence_tokenize six_sentences))
      (map (fun s => inject_Z (Z.of_nat (length s)))
           (sentence_tokenize six_sentences)) = inr sc /\
    length idxs = Z.to_nat 2 /\
    NoDup idxs /\
    Forall (fun i => i < length (sentence_tokenize six_sentences)) idxs /\
    fst (summarize_extract length_libs six_sentences 2 (fresh _))
    = inr (Py.join (lit " ")
             (map (fun i => nth i (sentence_tokenize six_sentences) [])
                  (sorted idxs)),
           map (fun i => mkHighlight (nth i (sentence_tokenize six_sentences) [])
                                     (nth i sc 0%Q)) idxs) /\
    (forall i j,
        In i idxs -> j < length (sentence_tokenize six_sentences) ->
        ~ In j idxs -> (nth j sc 0 <= nth i sc 0)%Q).
Proof.
  eexists. 
  assert (H := @top_k_by_score length_libs length_libs_ok six_sentences 2
                 (fresh _) _ tt _ _ _
                 ltac:(lia) ltac:(vm_compute; reflexivity)
                 eq_refl eq_refl eq_refl eq_refl).
  destruct H as [idxs H]. exists idxs. split; [reflexivity|exact H].
Defined.

Lemma seq_increasing (n start : nat) : StronglySorted lt (seq start n).
Proof.
  revert start; induction n as [|n IH]; intros start; simpl; constructor; auto.
  apply Forall_forall. intros i Hi. apply in_seq in Hi. lia.
Qed.

Lemma increasing_unique (l1 : list nat) :
  forall l2,
    StronglySorted lt l1 -> StronglySorted lt l2 -> Permutation l1 l2 ->
    l1 = l2.
Proof.
  induction l1 as [|a l1 IH]; intros l2 H1 H2 Hp.
  - apply Permutation_nil in Hp. now subst.
  - destruct l2 as [|b l2];
      [apply Permutation_sym, Permutation_nil in Hp; discriminate|].
    inversion H1 as [|? ? H1' Ha]; inversion H2 as [|? ? H2' Hb]; subst.
    assert (a = b).
    { assert (Hain : In a (b :: l2))
        by (eapply Permutation_in; [exact Hp|now left]).
      assert (Hbin : In b (a :: l1))
        by (eapply Permutation_in; [apply Permutation_sym, Hp|now left]).
      rewrite Forall_forall in Ha, Hb.
      destruct Hain as [->|Hain]; [reflexivity|].
      destruct Hbin as [->|Hbin]; [reflexivity|].
      specialize (Ha _ Hbin). specialize (Hb _ Hain). lia. }
    subst b. f_equal. apply IH; auto.
    eapply Permutation_cons_inv; eauto.
Qed.

Lemma map_nth_seq {A} (l : list A) (d : A) :
  map (fun i => nth i l d) (seq 0 (length l)) = l.
Proof.
  induction l as [|x l IH]; [reflexivity|].
  cbn [length seq map nth]. f_equal.
  rewrite <- seq_shift, map_map. exact IH.
Qed.

Lemma slice_from_zero {A} (l : list A) : Py.slice_from 0 l = l.
Proof.
  unfold Py.slice_from. cbn [Z.ltb Z.compare].
  rewrite Z.min_l by lia. reflexivity.
Qed.

(** X4.  For [top_k = 0] and a transcript with sentences, the scored path
    does not return an empty result: [scores[-0:]] is every index, so the
    summary is all the sentences joined and there is one highlight per
    sentence. *)
Theorem top_k_zero_takes_all (L : Libs) (ok : LibsOk L) (text : str)
  (w w1 : World (Handle L)) (h : Handle L) (e d : Emb L) (sc : list Q) :
  sentence_tokenize text <> [] ->
  get_model L w = (inr h, w1) ->
  encode L h (sentence_tokenize text) = inr e ->
  np_mean L e = inr d ->
  cosine_similarity L e d = inr sc ->
  exists hl,
    fst (summarize_extract L text 0 w)
    = inr (Py.join (lit " ") (sentence_tokenize text), hl) /\
    Permutation (map sentence hl) (sentence_tokenize text).
Proof.
  intros Hne Hg He Hd Hs.
  set (ss := sentence_tokenize text) in *.
  pose proof (scores_length ok _ _ _ He Hs) as Hlen.
  pose proof (scored_result ok ss 0 w Hg He Hd Hs) as Hbody.
  assert (Hn : 1 <= length ss) by (destruct ss; [congruence|simpl; lia]).
  rewrite Z.min_l in Hbody by lia.
  change (- 0)%Z with 0%Z in Hbody. rewrite slice_from_zero in Hbody.
  assert (Hperm : Permutation (rev (argsort L sc)) (seq 0 (length ss))).
  { rewrite <- Hlen.
    eapply Permutation_trans;
      [apply Permutation_sym, Permutation_rev|apply (argsort_perm ok)]. }
  assert (Hsorted : sorted (rev (argsort L sc)) = seq 0 (length ss)).
  { apply increasing_unique.
    - apply sorted_nodup_increasing; [apply sorted_sorted|].
      eapply Permutation_NoDup;
        [apply Permutation_sym; rewrite sorted_perm; exact Hperm|].
      apply seq_NoDup.
    - apply seq_increasing.
    - rewrite sorted_perm. exact Hperm. }
  rewrite Hsorted, map_nth_seq in Hbody.
  eexists. split.
  - rewrite summarize_extract_long; [|lia|fold ss; lia]. fold ss.
    unfold try_except. rewrite Hbody. reflexivity.
  - rewrite map_map. cbn [sentence].
    eapply Permutation_trans; [apply Permutation_map; exact Hperm|].
    rewrite map_nth_seq. apply Permutation_refl.
Qed.

Lemma top_k_zero_takes_all_witness :
  exists hl,
    fst (summarize_extract length_libs four_sentences 0 (fresh _))
    = inr (Py.join (lit " ") (sentence_tokenize four_sentences), hl) /\
    Permutation (map sentence hl) (sentence_tokenize four_sentences).
Proof.
  refine (@top_k_zero_takes_all length_libs length_libs_ok four_sentences
            (fresh _) _ tt _ _ _ _ eq_refl eq_refl eq_refl eq_refl).
  vm_compute. discriminate.
Defined.

(** ** What one call costs *)

Lemma get_model_events (L : Libs) (w : World (Handle L)) :
  exists new,
    events (snd (get_model L w)) = new ++ events w /\
    length (filter is_load new) <= 1 /\
    filter is_encode new = [] /\
    (_model w <> None -> new = []).
Proof.
  unfold get_model. destruct (_model w) as [h|].
  - exists []. repeat split; auto.
  - destruct (SentenceTransformer L _ _) as [e|h]; simpl.
    + exists [EvLoad false]. repeat split; auto. congruence.
    + exists [EvLoad true]. repeat split; auto. congruence.
Qed.

(** X5.  One call of [summarize_extract] adds to the log at most one
    attempt to load the model and at most one call of [encode]; it adds
    no attempt when the model is cached, and nothing at all when the
    transcript has no more than [top_k] sentences. *)
Theorem summarize_extract_cost (L : Libs) (text : str) (top_k : Z)
  (w : World (Handle L)) :
  exists new,
    events (snd (summarize_extract L text top_k w)) = new ++ events w /\
    length (filter is_load new) <= 1 /\
    length (filter is_encode new) <= 1 /\
    (_model w <> None -> filter is_load new = []) /\
    ((Z.of_nat (length (sentence_tokenize text)) <= top_k)%Z -> new = []).
Proof.
  unfold summarize_extract.
  destruct (length (sentence_tokenize text) =? 0) eqn:E0.
  { exists []. repeat split; auto. }
  destruct (_ <=? top_k)%Z eqn:Ek.
  { exists []. repeat split; auto. }
  apply Z.leb_gt in Ek.
  destruct (get_model_events L w) as (g & Hg & Hgl & Hge & Hgc).
  assert (Hshape :
            forall tail,
              filter is_load tail = [] -> length (filter is_encode tail) <= 1 ->
              length (filter is_load (tail ++ g)) <= 1 /\
              length (filter is_encode (tail ++ g)) <= 1 /\
              (_model w <> None -> filter is_load (tail ++ g) = []) /\
              ((Z.of_nat (length (sentence_tokenize text)) <= top_k)%Z ->
               tail ++ g = [])).
  { intros tail Ht1 Ht2. rewrite !filter_app, Ht1, Hge, app_nil_r. simpl.
    repeat split; auto; try lia.
    intros Hc. now rewrite (Hgc Hc). }
  unfold try_except, embedding_path, fallback_path, bind, call, emit, ret.
  destruct (get_model L w) as [[e0|h] w1]; cbn [snd fst events _model] in *.
  - exists ([EvPrint (lit "Warning: Summarization failed, using fallback: "
                      ++ exn_msg e0)] ++ g).
    split; [rewrite <- app_assoc, Hg; reflexivity|].
    apply Hshape; simpl; auto.
  - assert (Hraise :
              forall e1,
              exists new,
                EvPrint (lit "Warning: Summarization failed, using fallback: "
                         ++ exn_msg e1) :: EvEncode (sentence_tokenize text)
                  :: events w1 = new ++ events w /\
                length (filter is_load new) <= 1 /\
                length (filter is_encode new) <= 1 /\
                (_model w <> None -> filter is_load new = []) /\
                ((Z.of_nat (length (sentence_tokenize text)) <= top_k)%Z ->
                 new = [])).
    { intros e1.
      exists ([EvPrint (lit "Warning: Summarization failed, using fallback: "
                        ++ exn_msg e1); EvEncode (sentence_tokenize text)] ++ g).
      split; [rewrite <- app_assoc, Hg; reflexivity|].
      apply Hshape; simpl; auto. }
    destruct (encode L h _) as [e1|e]; cbn [snd events]; [apply Hraise|].
    destruct (np_mean L e) as [e1|d]; cbn [snd events]; [apply Hraise|].
    destruct (cosine_similarity L e d) as [e1|sc]; cbn [snd events];
      [apply Hraise|].
    match goal with
    | |- context [traverse ?f ?l] =>
        destruct (traverse f l) as [e1|hl]; cbn [snd events]; [apply Hraise|]
    end.
    match goal with
    | |- context [traverse ?f ?l] =>
        destruct (traverse f l) as [e1|parts]; cbn [snd events];
          [apply Hraise|]
    end.
    exists ([EvEncode (sentence_tokenize text)] ++ g).
    split; [rewrite <- app_assoc, Hg; reflexivity|].
    apply Hshape; simpl; auto.
Qed.

(** ** The normalizer *)

Lemma reraise_class (e : exn) :
  exn_class_of (reraise_value_error e) = ValueError.
Proof. destruct e as [[] m]; reflexivity. Qed.

(** A signal divided by its positive peak has peak 1. *)
Lemma scaled_peak (y : list Q) (m : Q) :
  In m (map Qabs y) -> Forall (fun v => (Qabs v <= m)%Q) y -> (0 < m)%Q ->
  Exists (fun v => (Qabs v == 1)%Q) (map (fun v => (v / m)%Q) y) /\
  Forall (fun v => (Qabs v <= 1)%Q) (map (fun v => (v / m)%Q) y).
Proof.
  intros Hin Hall Hm. split.
  - apply in_map_iff in Hin. destruct Hin as (v0 & Hv0 & Hin0).
    apply Exists_exists. exists (v0 / m)%Q. split.
    + apply in_map_iff. exists v0. auto.
    + rewrite (Qabs_div_pos v0 Hm), Hv0. unfold Qdiv.
      apply Qmult_inv_r. intros Hz. rewrite Hz in Hm. discriminate.
  - apply Forall_map. rewrite Forall_forall in *. intros v Hv.
    rewrite (Qabs_div_pos v Hm).
    apply Qle_shift_div_r; [exact Hm|]. rewrite Qmult_1_l. auto.
Qed.

(** What a normal return of the [try] body tells. *)
Lemma save_wav_body_inr (A : AudioLibs) (input_path out : str) (target_sr : Z)
  (f : WavOut) :
  save_wav_body A input_path out target_sr = inr f ->
  exists y0 sr y m,
    _load_audio A input_path = inr (y0, sr) /\
    (if (sr =? target_sr)%Z then inr (downmix y0)
     else resample A (downmix y0) sr target_sr) = inr y /\
    max_abs y = inr m /\ (0 < m)%Q /\
    f = mkWavOut out (map (fun v => (v / m)%Q) y) target_sr (lit "PCM_16") /\
    sf_write A f = inr tt.
Proof.
  unfold save_wav_body.
  destruct (_load_audio A input_path) as [e|[y0 sr]]; [discriminate|].
  destruct (if (sr =? target_sr)%Z then _ else _) as [e|y] eqn:Er;
    [discriminate|].
  destruct (max_abs y) as [e|m] eqn:Em; [discriminate|].
  destruct (Qpositive m) eqn:Ep; [|discriminate].
  destruct (sf_write A _) as [e|[]] eqn:Ew; [discriminate|].
  intros [= <-]. exists y0, sr, y, m.
  apply Qpositive_iff in Ep. repeat split; auto.
Qed.

Lemma max_abs_inr (y : list Q) (m : Q) :
  max_abs y = inr m ->
  y <> [] /\ In m (map Qabs y) /\ Forall (fun v => (Qabs v <= m)%Q) y.
Proof.
  intros Hm. assert (Hy : y <> []) by (destruct y; [discriminate|congruence]).
  destruct (max_abs_spec Hy) as (m' & Hm' & Hin & Hall & _).
  rewrite Hm in Hm'. injection Hm' as <-. auto.
Qed.


(** X7.  A signal of one channel at the target rate whose peak is 1
    already is written as it is: each sample written equals the sample
    decoded. *)
Theorem save_wav_keeps_unit_peak (A : AudioLibs) (input_path out : str)
  (target_sr : Z) (y : list Q) (f : WavOut) :
  _load_audio A input_path = inr (Arr1 y, target_sr) ->
  Forall (fun v => (Qabs v <= 1)%Q) y ->
  Exists (fun v => (Qabs v == 1)%Q) y ->
  save_wav_mono_16k A input_path out target_sr = inr f ->
  Forall2 Qeq (out_samples f) y.
Proof.
  intros Hload Hle Hex Hsave.
  unfold save_wav_mono_16k in Hsave.
  destruct (save_wav_body A input_path out target_sr) as [e|f'] eqn:Eb;
    [discriminate|].
  injection Hsave as ->. apply save_wav_body_inr in Eb.
  destruct Eb as (y0 & sr & y' & m & Hload' & Hres & Hm & Hpos & -> & _).
  rewrite Hload in Hload'. injection Hload' as <- <-.
  rewrite Z.eqb_refl in Hres. injection Hres as <-. cbn [downmix] in Hm.
  destruct (@max_abs_inr y m Hm) as (_ & Hin & Hall).
  assert (Hm1 : (m == 1)%Q).
  { apply Qle_antisym.
    - apply in_map_iff in Hin. destruct Hin as (v & <- & Hv).
      rewrite Forall_forall in Hle. auto.
    - apply Exists_exists in Hex. destruct Hex as (v & Hv & Hv1).
      rewrite <- Hv1. rewrite Forall_forall in Hall. auto. }
  cbn [out_samples downmix]. clear - Hm1.
  induction y as [|v y IH]; simpl; constructor; auto.
  rewrite Hm1. unfold Qdiv. change (/ 1)%Q with 1%Q. apply Qmult_1_r.
Qed.

Lemma save_wav_keeps_unit_peak_witness :
  exists f,
    save_wav_mono_16k mono_audio (lit "loud.wav") (lit "out.wav") 16000
    = inr f /\
    Forall2 Qeq (out_samples f) loud_samples.
Proof.
  eexists. split; [reflexivity|].
  apply (@save_wav_keeps_unit_peak mono_audio (lit "loud.wav") (lit "out.wav")
           16000 loud_samples).
  - reflexivity.
  - repeat constructor; vm_compute; discriminate.
  - constructor. reflexivity.
  - reflexivity.
Defined.

(** X8.  The volume of the input does not matter: a signal and the same
    signal at [c] times the volume, [c > 0], are written as the same
    samples. *)
Theorem save_wav_volume_free (A : AudioLibs) (path1 path2 out : str)
  (target_sr : Z) (y : list Q) (c : Q) (f1 f2 : WavOut) :
  (0 < c)%Q ->
  _load_audio A path1 = inr (Arr1 y, target_sr) ->
  _load_audio A path2 = inr (Arr1 (map (Qmult c) y), target_sr) ->
  save_wav_mono_16k A path1 out target_sr = inr f1 ->
  save_wav_mono_16k A path2 out target_sr = inr f2 ->
  Forall2 Qeq (out_samples f1) (out_samples f2).
Proof.
  intros Hc Hl1 Hl2 Hs1 Hs2.
  unfold save_wav_mono_16k in Hs1, Hs2.
  destruct (save_wav_body A path1 out target_sr) as [e|g1] eqn:E1;
    [discriminate|].
  destruct (save_wav_body A path2 out target_sr) as [e|g2] eqn:E2;
    [discriminate|].
  injection Hs1 as ->. injection Hs2 as ->.
  apply save_wav_body_inr in E1. apply save_wav_body_inr in E2.
  destruct E1 as (a1 & sr1 & y1 & m1 & Ha1 & Hr1 & Hm1 & Hp1 & -> & _).
  destruct E2 as (a2 & sr2 & y2 & m2 & Ha2 & Hr2 & Hm2 & Hp2 & -> & _).
  rewrite Hl1 in Ha1. injection Ha1 as <- <-.
  rewrite Hl2 in Ha2. injection Ha2 as <- <-.
  rewrite Z.eqb_refl in Hr1, Hr2.
  injection Hr1 as <-. injection Hr2 as <-. cbn [downmix] in *.
  destruct (@max_abs_inr y m1 Hm1) as (_ & Hin1 & Hall1).
  destruct (@max_abs_inr (map (Qmult c) y) m2 Hm2) as (_ & Hin2 & Hall2).
  assert (Habs : forall v, (Qabs (c * v) == c * Qabs v)%Q).
  { intros v. rewrite Qabs_Qmult, (Qabs_pos c); [reflexivity|].
    now apply Qlt_le_weak. }
  assert (Hm : (m2 == c * m1)%Q).
  { apply Qle_antisym.
    - rewrite map_map in Hin2. apply in_map_iff in Hin2.
      destruct Hin2 as (v & <- & Hv). rewrite Habs.
      apply Qmult_le_l; [exact Hc|].
      rewrite Forall_forall in Hall1. auto.
    - apply in_map_iff in Hin1. destruct Hin1 as (v0 & <- & Hv0).
      rewrite <- Habs. rewrite Forall_forall in Hall2.
      apply Hall2. apply in_map_iff. exists v0. auto. }
  cbn [out_samples]. rewrite map_map.
  clear - Hm Hc Hp1.
  induction y as [|v y IH]; simpl; constructor; auto.
  rewrite Hm. field. split; intros Hz.
  - rewrite Hz in Hp1. discriminate.
  - rewrite Hz in Hc. discriminate.
Qed.

Lemma save_wav_volume_free_witness :
  exists f1 f2,
    save_wav_mono_16k mono_audio (lit "loud.wav") (lit "out.wav") 16000
    = inr f1 /\
    save_wav_mono_16k mono_audio (lit "quiet.wav") (lit "out.wav") 16000
    = inr f2 /\
    Forall2 Qeq (out_samples f1) (out_samples f2).
Proof.
  eexists _, _. split; [reflexivity|]. split; [reflexivity|].
  apply (@save_wav_volume_free mono_audio (lit "loud.wav") (lit "quiet.wav")
           (lit "out.wav") 16000 loud_samples (1 # 4)).
  - reflexivity.
  - reflexivity.
  - reflexivity.
  - reflexivity.
  - reflexivity.
Defined.

(** X9.  [_load_audio] has two ways to fail and two ways to succeed: it
    raises the [ValueError] that pydub is required or the [ValueError]
    that the conversion failed, never the error of the first decoder; it
    returns what [librosa.load] gives for the file, or what it gives for
    the wave file pydub converted the file to.  A [.webm] file, in any
    case of the letters, always takes the second way. *)
Theorem load_audio_outcome (A : AudioLibs) (input_path : str) :
  match _load_audio A input_path with
  | inl e => e = pydub_required \/ exists e0, e = conversion_error e0
  | inr r =>
      (Py.lower (snd (splitext input_path)) <> lit ".webm" /\
       librosa_load A input_path = inr r) \/
      (exists tmp, pydub_convert A input_path = inr tmp /\
                   librosa_load A tmp = inr r)
  end.
Proof.
  assert (Hpydub :
            match _load_via_pydub A input_path with
            | inl e => e = pydub_required \/ exists e0, e = conversion_error e0
            | inr r =>
                exists tmp, pydub_convert A input_path = inr tmp /\
                            librosa_load A tmp = inr r
            end).
  { unfold _load_via_pydub.
    destruct (pydub_installed A); simpl; [|now left].
    destruct (pydub_convert A input_path) as [e|tmp]; [right; eauto|].
    destruct (librosa_load A tmp) as [e|r] eqn:E; [right; eauto|eauto]. }
  unfold _load_audio.
  destruct (str_eqb (Py.lower (snd (splitext input_path))) (lit ".webm")) eqn:Ew.
  - destruct (_load_via_pydub A input_path); auto.
  - apply str_eqb_neq in Ew.
    destruct (librosa_load A input_path) as [e|r] eqn:El; [|auto].
    destruct (_load_via_pydub A input_path); auto.
Qed.

(** ** Feeding the recognizer *)

Lemma readframes_all_spec (n : nat) (l : list Z) :
  1 <= n ->
  forall room cur,
    room + length cur = n ->
    concat (readframes_all n room cur l) = rev cur ++ l /\
    Forall (fun c => 1 <= length c <= n) (readframes_all n room cur l) /\
    Forall (fun c => length c = n) (removelast (readframes_all n room cur l)) /\
    (cur <> [] -> readframes_all n room cur l <> []).
Proof.
  intros Hn. induction l as [|x l IH]; intros room cur Hsum.
  - destruct cur as [|c cur]; cbn [readframes_all].
    + repeat split; auto; try congruence.
    + cbn [concat removelast]. rewrite !app_nil_r.
      repeat split; auto; try discriminate.
      constructor; [|constructor]. rewrite length_rev. simpl in *. lia.
  - cbn [readframes_all]. destruct room as [|room].
    + destruct n as [|n']; [lia|].
      destruct (IH n' [x]) as (H1 & H2 & H3 & H4); [simpl; lia|].
      assert (Hne : readframes_all (S n') n' [x] l <> [])
        by (apply H4; discriminate).
      cbn [concat]. rewrite H1. simpl rev. simpl app.
      split; [reflexivity|]. split; [|split; [|discriminate]].
      * constructor; [rewrite length_rev; simpl in *; lia|exact H2].
      * destruct (readframes_all (S n') n' [x] l) as [|c0 r] eqn:E;
          [congruence|].
        change (removelast (rev cur :: c0 :: r))
          with (rev cur :: removelast (c0 :: r)).
        constructor; [rewrite length_rev; simpl in *; lia|exact H3].
    + destruct (IH room (x :: cur)) as (H1 & H2 & H3 & H4); [simpl; lia|].
      rewrite H1. simpl rev. rewrite <- app_assoc. simpl app.
      repeat split; auto. intros _. apply H4. discriminate.
Qed.

Lemma feed_fed (V : AsrLibs) (chunks : list (list Z)) :
  forall (rec rec' : Rec V) (segments segments' : list Segment),
    feed V rec segments chunks = inr (rec', segments') ->
    fed V rec chunks rec'.
Proof.
  induction chunks as [|data chunks IH]; intros rec rec' segments segments';
    cbn [feed].
  - intros [= <- <-]. constructor.
  - destruct (AcceptWaveform V rec data) as [[[] rec1]|] eqn:Ea;
      [| |discriminate].
    + destruct (Result V rec1) as [result rec2] eqn:Er. intros Hfeed.
      eapply fed_utterance; [exact Ea|]. rewrite Er. cbn [snd].
      eapply IH. exact Hfeed.
    + intros Hfeed. eapply fed_partial; [exact Ea|]. eapply IH. exact Hfeed.
Qed.

(** The loop stops at the first chunk the recognizer does not accept:
    whatever comes after it in the file plays no part. *)
Lemma feed_stops (V : AsrLibs) (chunks1 : list (list Z)) :
  forall (rec rec1 : Rec V) (segments : list Segment) (data : list Z)
         (chunks2 : list (list Z)),
    fed V rec chunks1 rec1 ->
    AcceptWaveform V rec1 data = None ->
    feed V rec segments (chunks1 ++ data :: chunks2)
    = inl (Raise OtherException (lit "Failed to process waveform")).
Proof.
  intros rec rec1 segments data chunks2 Hfed. revert segments.
  induction Hfed as [rec|rec d rec0 chunks rec' Ha _ IH
                        |rec d rec0 chunks rec' Ha _ IH];
    intros segments Hnone; cbn [app feed].
  - now rewrite Hnone.
  - rewrite Ha. now apply IH.
  - rewrite Ha. destruct (Result V rec0) as [result rec2]. cbn [snd] in IH.
    now apply IH.
Qed.

(** X11.  When [transcribe_file] returns, the recognizer made for the
    model and the rate of the file has been handed every frame of the
    file, once and in order: the chunks it accepted one after the other,
    put end to end, are the frames; no chunk is empty or longer than 4000
    frames, and every chunk but the last has 4000.  The last segment, if
    the final result has a text, comes from the recognizer after the last
    chunk. *)
Theorem frames_fed_once (V : AsrLibs) (wav_path model_path : str)
  (transcript : str) (segments : list Segment) :
  transcribe_file V wav_path model_path = inr (transcript, segments) ->
  exists model wf chunks rec' segments0,
    Model V model_path = inr model /\
    wave_open V wav_path = inr wf /\
    concat chunks = frames wf /\
    Forall (fun c => 1 <= length c <= 4000) chunks /\
    Forall (fun c => length c = 4000) (removelast chunks) /\
    fed V (KaldiRecognizer V model (getframerate wf)) chunks rec' /\
    segments = append_opt segments0 (segment_of (FinalResult V rec')).
Proof.
  unfold transcribe_file.
  destruct (Model V model_path) as [e|model]; [discriminate|].
  destruct (wave_open V wav_path) as [e|wf]; [discriminate|].
  destruct (negb (getnchannels wf =? 1)%Z); [discriminate|].
  destruct (negb (getsampwidth wf =? 2)%Z); [discriminate|].
  destruct (negb (getframerate wf =? 16000)%Z); [discriminate|].
  destruct (feed V _ [] _) as [e|[rec segs]] eqn:Ef; [discriminate|].
  intros [= _ <-].
  destruct (@readframes_all_spec 4000 (frames wf) ltac:(lia) 4000 [] eq_refl)
    as (H1 & H2 & H3 & _).
  exists model, wf, (readframes_all 4000 4000 [] (frames wf)), rec, segs.
  repeat split; auto. eapply feed_fed. exact Ef.
Qed.

Lemma frames_fed_once_witness :
  exists transcript segments model wf chunks rec' segments0,
    transcribe_file talking_wave (lit "/tmp/tmpwav.wav") VOSK_MODEL_PATH
    = inr (transcript, segments) /\
    Model talking_wave VOSK_MODEL_PATH = inr model /\
    wave_open talking_wave (lit "/tmp/tmpwav.wav") = inr wf /\
    concat chunks = frames wf /\
    Forall (fun c => 1 <= length c <= 4000) chunks /\
    Forall (fun c => length c = 4000) (removelast chunks) /\
    fed talking_wave (KaldiRecognizer talking_wave model (getframerate wf))
        chunks rec' /\
    segments = append_opt segments0 (segment_of (FinalResult talking_wave rec')).
Proof.
  eexists _, _.
  destruct (@frames_fed_once talking_wave (lit "/tmp/tmpwav.wav")
              VOSK_MODEL_PATH _ _ eq_refl)
    as (model & wf & chunks & rec' & segments0 & H).
  exists model, wf, chunks, rec', segments0. split; [reflexivity|exact H].
Defined.

(** ** The segments *)

Lemma segment_of_shape (r : RecResult) (s : Segment) :
  segment_of r = Some s -> well_formed_segment s.
Proof.
  unfold segment_of, well_formed_segment.
  destruct (r_text r) as [t|]; [|discriminate].
  destruct (Py.truthy (Py.strip t)) eqn:Et; [|discriminate].
  assert (Hne : Py.strip t <> []) by (destruct (Py.strip t); [discriminate|congruence]).
  destruct (r_result r) as [[|w0 ws]|]; intros [= <-]; cbn;
    (split; [exact Hne|]); (split; [apply strip_idem|]);
    split; congruence.
Qed.

Lemma append_opt_shape (P : Segment -> Prop) (segments : list Segment)
  (r : RecResult) :
  (forall s, segment_of r = Some s -> P s) ->
  Forall P segments ->
  Forall P (append_opt segments (segment_of r)) /\
  length (append_opt segments (segment_of r)) <= S (length segments).
Proof.
  intros Hr Hs. unfold append_opt. destruct (segment_of r) as [s|].
  - split; [apply Forall_app; split; auto|rewrite length_app; simpl; lia].
  - split; [exact Hs|lia].
Qed.

Lemma feed_segments (V : AsrLibs) (chunks : list (list Z)) :
  forall (rec rec' : Rec V) (segments segments' : list Segment),
    Forall well_formed_segment segments ->
    feed V rec segments chunks = inr (rec', segments') ->
    Forall well_formed_segment segments' /\
    length segments' <= length segments + length chunks.
Proof.
  induction chunks as [|data chunks IH];
    intros rec rec' segments segments' Hs; cbn [feed].
  - intros [= <- <-]. split; [exact Hs|simpl; lia].
  - destruct (AcceptWaveform V rec data) as [[[] rec1]|]; [| |discriminate].
    + destruct (Result V rec1) as [result rec2]. intros Hfeed.
      destruct (@append_opt_shape well_formed_segment segments result)
        as [Hwf Hlen]; [apply segment_of_shape|exact Hs|].
      apply IH in Hfeed; [|exact Hwf]. simpl. split; [tauto|lia].
    + intros Hfeed. apply IH in Hfeed; [|exact Hs]. simpl. split; [tauto|lia].
Qed.

Lemma trimmed_not_blank (p : str) :
  p <> [] -> Py.strip p = p -> forallb Py.isspace p = false.
Proof.
  intros Hne Hp. destruct (forallb Py.isspace p) eqn:E; [|reflexivity].
  apply strip_nil_iff in E. congruence.
Qed.

Lemma join_not_blank (sep : str) (parts : list str) :
  parts <> [] ->
  Forall (fun p => p <> [] /\ Py.strip p = p) parts ->
  Py.strip (Py.join sep parts) <> [].
Proof.
  intros Hne Hall Hblank. apply strip_nil_iff in Hblank.
  destruct parts as [|p parts]; [congruence|].
  inversion Hall as [|? ? [Hp1 Hp2] _]; subst.
  pose proof (trimmed_not_blank Hp1 Hp2) as Hp.
  destruct parts; cbn [Py.join] in Hblank.
  - congruence.
  - rewrite forallb_app in Hblank. apply andb_true_iff in Hblank.
    destruct Hblank. congruence.
Qed.

Lemma transcribe_file_inr (V : AsrLibs) (wav_path model_path : str)
  (transcript : str) (segments : list Segment) :
  transcribe_file V wav_path model_path = inr (transcript, segments) ->
  Forall well_formed_segment segments /\
  transcript = Py.join (lit " ") (map seg_text segments) /\
  exists wf,
    wave_open V wav_path = inr wf /\
    length segments <= length (readframes_all 4000 4000 [] (frames wf)) + 1.
Proof.
  unfold transcribe_file.
  destruct (Model V model_path) as [e|model]; [discriminate|].
  destruct (wave_open V wav_path) as [e|wf]; [discriminate|].
  destruct (negb (getnchannels wf =? 1)%Z); [discriminate|].
  destruct (negb (getsampwidth wf =? 2)%Z); [discriminate|].
  destruct (negb (getframerate wf =? 16000)%Z); [discriminate|].
  destruct (feed V _ [] _) as [e|[rec segs]] eqn:Ef; [discriminate|].
  intros [= <- <-].
  apply feed_segments in Ef; [|constructor]. destruct Ef as [Hwf Hlen].
  destruct (@append_opt_shape well_formed_segment segs (FinalResult V rec))
    as [Hall Hlen']; [apply segment_of_shape|exact Hwf|].
  set (segments := append_opt segs (segment_of (FinalResult V rec))) in *.
  assert (Htexts : map (fun s => Py.strip (seg_text s)) segments
                   = map seg_text segments).
  { apply map_ext_in. intros s Hs. rewrite Forall_forall in Hall.
    apply (Hall s Hs). }
  rewrite Htexts.
  split; [exact Hall|]. split; [reflexivity|].
  exists wf. split; [reflexivity|]. simpl in Hlen. lia.
Qed.

Lemma segments_not_blank (segments : list Segment) :
  Forall well_formed_segment segments -> segments <> [] ->
  Py.strip (Py.join (lit " ") (map seg_text segments)) <> [].
Proof.
  intros Hall Hne. apply join_not_blank.
  - destruct segments; [congruence|discriminate].
  - apply Forall_map. eapply Forall_impl; [|exact Hall].
    intros s (H1 & H2 & _). auto.
Qed.

(** X12.  When [transcribe_file] returns, every segment has a text that is
    not empty and has no whitespace at either end, and has both times or
    none; the transcript is the texts joined by one space, so it is blank
    exactly when there is no segment; and there is at most one segment per
    chunk read, and one more for the final result. *)
Theorem transcribe_file_segments (V : AsrLibs) (wav_path model_path : str)
  (transcript : str) (segments : list Segment) :
  transcribe_file V wav_path model_path = inr (transcript, segments) ->
  Forall well_formed_segment segments /\
  transcript = Py.join (lit " ") (map seg_text segments) /\
  (segments = [] <-> Py.strip transcript = []) /\
  exists wf,
    wave_open V wav_path = inr wf /\
    length segments <= length (readframes_all 4000 4000 [] (frames wf)) + 1.
Proof.
  intros Hrun. apply transcribe_file_inr in Hrun.
  destruct Hrun as (Hall & -> & Hwf).
  split; [exact Hall|]. split; [reflexivity|]. split; [|exact Hwf].
  split.
  - intros ->. reflexivity.
  - intros Hblank.
    destruct segments as [|s0 rest] eqn:E; [reflexivity|exfalso].
    revert Hblank. apply segments_not_blank; [exact Hall|discriminate].
Qed.

Lemma transcribe_file_segments_witness :
  exists transcript segments,
    transcribe_file talking_wave (lit "/tmp/tmpwav.wav") VOSK_MODEL_PATH
    = inr (transcript, segments) /\
    Forall well_formed_segment segments /\
    transcript = Py.join (lit " ") (map seg_text segments) /\
    (segments = [] <-> Py.strip transcript = []) /\
    exists wf,
      wave_open talking_wave (lit "/tmp/tmpwav.wav") = inr wf /\
      length segments <= length (readframes_all 4000 4000 [] (frames wf)) + 1.
Proof.
  eexists _, _. split; [reflexivity|].
  apply (@transcribe_file_segments talking_wave (lit "/tmp/tmpwav.wav")
           VOSK_MODEL_PATH).
  reflexivity.
Defined.

(** ** The request handler *)

(** [process] on an upload that passes the checks: the stages in turn. *)
Lemma process_accepted (L : Libs) (A : AudioLibs) (V : AsrLibs) (W : WebLibs)
  (f : Upload) (w : World (Handle L)) :
  filename f <> [] ->
  allowed_file (filename f) = true ->
  saved_size f <> 0%Z ->
  process L A V W (Some f) w
  = match save_wav_mono_16k A (saved_upload_path W (filename f))
            (temp_wav_name W) 16000 with
    | inl e => process_except L e w
    | inr _ =>
        match transcribe_file V (temp_wav_name W) VOSK_MODEL_PATH with
        | inl e => process_except L e w
        | inr (transcript, segments) =>
            if negb (Py.truthy transcript)
               || negb (Py.truthy (Py.strip transcript))
            then (inr (mkResponse
                         (ErrorBody (lit "No speech detected in audio file"))
                         400), w)
            else
              match summarize_extract L transcript 5 w with
              | (inl e, w') => process_except L e w'
              | (inr (summary, top_sentences), w') =>
                  (inr (mkResponse
                          (ResultBody transcript summary top_sentences
                             (extract_keywords_default transcript)
                             (compute_stats transcript segments)
                             (py_round2 (inject_Z (saved_size f)
                                         / inject_Z (1024 * 1024))%Q)
                             (Py.slice_to 50 segments))
                          200), w')
              end
        end
    end.
Proof.
  intros Hname Hallowed Hsize.
  unfold process, try_except, process_body.
  apply str_eqb_neq in Hname. rewrite Hname, Hallowed. cbn [negb].
  unfold process_upload. apply Z.eqb_neq in Hsize. rewrite Hsize.
  unfold bind, call, ret.
  destruct (save_wav_mono_16k A _ _ 16000) as [e|out]; [reflexivity|].
  destruct (transcribe_file V _ _) as [e|[transcript segments]];
    [reflexivity|].
  destruct (negb (Py.truthy transcript) || negb (Py.truthy (Py.strip transcript)));
    [reflexivity|].
  destruct (summarize_extract L transcript 5 w) as [[e|[summary top]] w'];
    reflexivity.
Qed.

Lemma process_except_returns (L : Libs) (e : exn) (w : World (Handle L)) :
  exists msg st,
    process_except L e w = (inr (mkResponse (ErrorBody msg) st), w) /\
    (st = 400%Z \/ st = 500%Z).
Proof.
  unfold process_except, ret.
  destruct (exn_class_of e); eexists _, _; split; try reflexivity; auto.
Qed.

(** X13.  [process] lets no exception out: whatever the upload, the
    libraries and the state, it answers with status 200, 400 or 500, and
    the body is a result exactly when the status is 200, an error message
    otherwise. *)
Theorem process_always_answers (L : Libs) (A : AudioLibs) (V : AsrLibs)
  (W : WebLibs) (files_audio : option Upload) (w : World (Handle L)) :
  exists resp w',
    process L A V W files_audio w = (inr resp, w') /\
    (status resp = 200%Z \/ status resp = 400%Z \/ status resp = 500%Z) /\
    (is_result (body resp) = true <-> status resp = 200%Z).
Proof.
  assert (Herr : forall e w0,
             exists resp w',
               process_except L e w0 = (inr resp, w') /\
               (status resp = 200%Z \/ status resp = 400%Z
                \/ status resp = 500%Z) /\
               (is_result (body resp) = true <-> status resp = 200%Z)).
  { intros e w0. destruct (process_except_returns L e w0)
      as (msg & st & -> & Hst).
    eexists _, _. split; [reflexivity|]. cbn.
    split; [tauto|]. split; [discriminate|]. destruct Hst; lia. }
  assert (H400 : forall msg,
             exists resp w',
               (inr (mkResponse (ErrorBody msg) 400), w)
               = (@inr exn Response resp, w') /\
               (status resp = 200%Z \/ status resp = 400%Z
                \/ status resp = 500%Z) /\
               (is_result (body resp) = true <-> status resp = 200%Z)).
  { intros msg. eexists _, _. split; [reflexivity|]. cbn.
    split; [tauto|]. split; [discriminate|lia]. }
  destruct files_audio as [f|]; [|apply H400].
  destruct (str_eqb (filename f) []) eqn:Ename.
  { unfold process, try_except, process_body. rewrite Ename. apply H400. }
  destruct (allowed_file (filename f)) eqn:Eallowed.
  2:{ unfold process, try_except, process_body.
      rewrite Ename, Eallowed. apply H400. }
  destruct (Z.eq_dec (saved_size f) 0) as [Esize|Esize].
  { unfold process, try_except, process_body, process_upload.
    rewrite Ename, Eallowed, Esize. apply H400. }
  apply str_eqb_neq in Ename.
  rewrite (@process_accepted L A V W f w Ename Eallowed Esize).
  destruct (save_wav_mono_16k A _ _ 16000) as [e|out]; [apply Herr|].
  destruct (transcribe_file V _ _) as [e|[transcript segments]];
    [apply Herr|].
  destruct (negb (Py.truthy transcript) || negb (Py.truthy (Py.strip transcript)));
    [apply H400|].
  destruct (summarize_extract L transcript 5 w) as [[e|[summary top]] w'];
    [apply Herr|].
  eexists _, _. split; [reflexivity|]. cbn. split; [tauto|]. split; auto.
Qed.

(** X14.  When [request.files] can be read, an upload that is missing,
    has no name or has a name that is not allowed is answered with status
    400 before anything is saved: the answer is the same whatever the
    libraries, and the state is left as it is.  When reading
    [request.files] raises, as for a body above the limit, the upload is
    not looked at: the answer is the one of the [except] clauses, status
    500 unless the exception is a [ValueError].  And on a request that can
    be read, [process_request] is [process]. *)
Theorem process_rejects_early (files_audio : option Upload) :
  turned_away files_audio ->
  exists msg,
    (forall (L : Libs) (A : AudioLibs) (V : AsrLibs) (W : WebLibs)
            (w : World (Handle L)),
        process_request L A V W (inr files_audio) w
        = (inr (mkResponse (ErrorBody msg) 400), w)) /\
    (forall (L : Libs) (A : AudioLibs) (V : AsrLibs) (W : WebLibs)
            (w : World (Handle L)) (e : exn),
        exn_class_of e <> ValueError ->
        process_request L A V W (inl e) w
        = (inr (mkResponse
                  (ErrorBody (lit "Processing failed: " ++ exn_msg e)) 500),
           w)) /\
    (forall (L : Libs) (A : AudioLibs) (V : AsrLibs) (W : WebLibs)
            (w : World (Handle L)) (files : option Upload),
        process_request L A V W (inr files) w = process L A V W files w).
Proof.
  unfold turned_away. intros Hrej.
  assert (Hraise : forall (L : Libs) (A : AudioLibs) (V : AsrLibs)
                     (W : WebLibs) (w : World (Handle L)) (e : exn),
             exn_class_of e <> ValueError ->
             process_request L A V W (inl e) w
             = (inr (mkResponse
                       (ErrorBody (lit "Processing failed: " ++ exn_msg e)) 500),
                w)).
  { intros L A V W w e He.
    unfold process_request, try_except, bind, call, process_except.
    destruct (exn_class_of e); try reflexivity. congruence. }
  assert (Hsame : forall (L : Libs) (A : AudioLibs) (V : AsrLibs)
                    (W : WebLibs) (w : World (Handle L))
                    (files : option Upload),
             process_request L A V W (inr files) w = process L A V W files w).
  { intros. reflexivity. }
  destruct files_audio as [f|].
  2:{ eexists. split; [|split; [exact Hraise|exact Hsame]].
      intros. reflexivity. }
  destruct (str_eqb (filename f) []) eqn:Ename.
  { eexists. split; [|split; [exact Hraise|exact Hsame]].
    intros. unfold process_request, try_except, bind, call, process_body.
    rewrite Ename. reflexivity. }
  destruct (allowed_file (filename f)) eqn:Eallowed.
  2:{ eexists. split; [|split; [exact Hraise|exact Hsame]].
      intros. unfold process_request, try_except, bind, call, process_body.
      rewrite Ename, Eallowed. reflexivity. }
  apply str_eqb_neq in Ename.
  destruct Hrej as [Hrej|Hrej]; congruence.
Qed.

Lemma process_rejects_early_witness :
  exists msg,
    (forall (L : Libs) (A : AudioLibs) (V : AsrLibs) (W : WebLibs)
            (w : World (Handle L)),
        process_request L A V W
          (inr (Some (mkUpload (lit "notes.txt") 12))) w
        = (inr (mkResponse (ErrorBody msg) 400), w)) /\
    (forall (L : Libs) (A : AudioLibs) (V : AsrLibs) (W : WebLibs)
            (w : World (Handle L)) (e : exn),
        exn_class_of e <> ValueError ->
        process_request L A V W (inl e) w
        = (inr (mkResponse
                  (ErrorBody (lit "Processing failed: " ++ exn_msg e)) 500),
           w)) /\
    (forall (L : Libs) (A : AudioLibs) (V : AsrLibs) (W : WebLibs)
            (w : World (Handle L)) (files : option Upload),
        process_request L A V W (inr files) w = process L A V W files w).
Proof.
  apply (@process_rejects_early (Some (mkUpload (lit "notes.txt") 12))).
  right. reflexivity.
Defined.

(** A request above the limit, whatever it uploads. *)
Example request_above_limit :
  process_request length_libs stereo_audio talking_wave plain_web
    (inl request_too_large) (fresh _)
  = (inr (mkResponse
            (ErrorBody (lit "Processing failed: 413 Request Entity Too Large: The data value transmitted exceeds the capacity limit."))
            500),
     fresh _).
Proof. reflexivity. Qed.

Lemma save_wav_raises_value_error (A : AudioLibs) (input_path out : str)
  (target_sr : Z) (e : exn) :
  save_wav_mono_16k A input_path out target_sr = inl e ->
  exn_class_of e = ValueError.
Proof.
  unfold save_wav_mono_16k.
  destruct (save_wav_body A input_path out target_sr); [|discriminate].
  intros [= <-]. apply reraise_class.
Qed.

(** X15.  Whatever goes wrong while the upload is decoded, resampled,
    normalized or written, [process] answers with status 400 and the
    message of the error after "Audio format error: ", never with 500;
    the state is left as it is. *)
Theorem process_normalizer_failure (L : Libs) (A : AudioLibs) (V : AsrLibs)
  (W : WebLibs) (f : Upload) (w : World (Handle L)) (e : exn) :
  filename f <> [] ->
  allowed_file (filename f) = true ->
  saved_size f <> 0%Z ->
  save_wav_mono_16k A (saved_upload_path W (filename f)) (temp_wav_name W)
                    16000 = inl e ->
  process L A V W (Some f) w
  = (inr (mkResponse (ErrorBody (lit "Audio format error: " ++ exn_msg e)) 400),
     w).
Proof.
  intros Hname Hallowed Hsize Hsave.
  rewrite (@process_accepted L A V W f w Hname Hallowed Hsize), Hsave.
  apply save_wav_raises_value_error in Hsave.
  unfold process_except. now rewrite Hsave.
Qed.

Lemma process_normalizer_failure_witness :
  process length_libs silent_audio talking_wave plain_web
          (Some (mkUpload (lit "hush.mp3") 2048)) (fresh _)
  = (inr (mkResponse
            (ErrorBody (lit "Audio format error: "
                        ++ lit "Audio file contains only silence")) 400),
     fresh _).
Proof.
  apply (@process_normalizer_failure length_libs silent_audio talking_wave
           plain_web (mkUpload (lit "hush.mp3") 2048) (fresh _)
           (Raise ValueError (lit "Audio file contains only silence"))).
  - discriminate.
  - reflexivity.
  - discriminate.
  - reflexivity.
Defined.

(** X16.  What [process] answers when the recognizer stage fails on a
    normalized upload, cause by cause.  The model cannot be loaded: status
    500, with the path of the model in the message.  The model is loaded
    and the wave file cannot be opened: status 400.  The file is open and
    has the expected header, the recognizer has accepted the chunks before
    and does not accept the next one: status 500 with "Failed to process
    waveform", whatever follows that chunk in the file. *)
Theorem process_recognizer_failure (L : Libs) (A : AudioLibs) (W : WebLibs)
  (f : Upload) (w : World (Handle L)) (out : WavOut) :
  filename f <> [] ->
  allowed_file (filename f) = true ->
  saved_size f <> 0%Z ->
  save_wav_mono_16k A (saved_upload_path W (filename f)) (temp_wav_name W)
                    16000 = inr out ->
  (forall (V : AsrLibs) e0,
      Model V VOSK_MODEL_PATH = inl e0 ->
      process L A V W (Some f) w
      = (inr (mkResponse
                (ErrorBody
                   (lit "Processing failed: Failed to load Vosk model from models/vosk-model: "
                    ++ exn_msg e0))
                500), w)) /\
  (forall (V : AsrLibs) model e0,
      Model V VOSK_MODEL_PATH = inr model ->
      wave_open V (temp_wav_name W) = inl e0 ->
      process L A V W (Some f) w
      = (inr (mkResponse
                (ErrorBody
                   (lit "Audio format error: Failed to open WAV file: "
                    ++ exn_msg e0))
                400), w)) /\
  (forall (V : AsrLibs) model wf chunks1 data chunks2 rec1,
      Model V VOSK_MODEL_PATH = inr model ->
      wave_open V (temp_wav_name W) = inr wf ->
      getnchannels wf = 1%Z -> getsampwidth wf = 2%Z ->
      getframerate wf = 16000%Z ->
      readframes_all 4000 4000 [] (frames wf) = chunks1 ++ data :: chunks2 ->
      fed V (KaldiRecognizer V model 16000) chunks1 rec1 ->
      AcceptWaveform V rec1 data = None ->
      process L A V W (Some f) w
      = (inr (mkResponse
                (ErrorBody (lit "Processing failed: Failed to process waveform"))
                500), w)).
Proof.
  intros Hname Hallowed Hsize Hsave.
  split; [|split].
  - intros V e0 Hm.
    rewrite (@process_accepted L A V W f w Hname Hallowed Hsize), Hsave.
    unfold transcribe_file. rewrite Hm. reflexivity.
  - intros V model e0 Hm Ho.
    rewrite (@process_accepted L A V W f w Hname Hallowed Hsize), Hsave.
    unfold transcribe_file. rewrite Hm, Ho. reflexivity.
  - intros V model wf chunks1 data chunks2 rec1 Hm Ho H1 H2 H3 Hchunks
           Hfed Hnone.
    rewrite (@process_accepted L A V W f w Hname Hallowed Hsize), Hsave.
    unfold transcribe_file. rewrite Hm, Ho, H1, H2, H3. simpl negb. cbv iota.
    rewrite Hchunks, (@feed_stops V chunks1 _ rec1 [] data chunks2 Hfed Hnone).
    reflexivity.
Qed.

(** The three causes, each on a recognizer that has it. *)
Lemma process_recognizer_failure_witness :
  process length_libs stereo_audio no_model_wave plain_web
    (Some (mkUpload (lit "talk.wav") 1024)) (fresh _)
  = (inr (mkResponse
            (ErrorBody (lit "Processing failed: Failed to load Vosk model from models/vosk-model: folder is empty"))
            500), fresh _) /\
  process length_libs stereo_audio unreadable_wave plain_web
    (Some (mkUpload (lit "talk.wav") 1024)) (fresh _)
  = (inr (mkResponse
            (ErrorBody (lit "Audio format error: Failed to open WAV file: file does not start with RIFF id"))
            400), fresh _) /\
  process length_libs stereo_audio failing_wave plain_web
    (Some (mkUpload (lit "talk.wav") 1024)) (fresh _)
  = (inr (mkResponse
            (ErrorBody (lit "Processing failed: Failed to process waveform"))
            500), fresh _).
Proof.
  destruct (@process_recognizer_failure length_libs stereo_audio plain_web
              (mkUpload (lit "talk.wav") 1024) (fresh _)
              (mkWavOut (lit "/tmp/tmpwav.wav")
                 (map (fun v => (v / (1 # 4))%Q) (downmix stereo_samples))
                 16000 (lit "PCM_16")))
    as (Hload & Hopen & Hchunk).
  - discriminate.
  - reflexivity.
  - discriminate.
  - reflexivity.
  - split; [|split].
    + apply (Hload no_model_wave
               (Raise OtherException (lit "folder is empty"))).
      reflexivity.
    + apply (Hopen unreadable_wave tt
               (Raise OtherException (lit "file does not start with RIFF id")));
        reflexivity.
    + apply (Hchunk failing_wave tt talking_wf [] [1%Z; 2%Z; 3%Z] [] tt);
        try reflexivity.
      constructor.
Defined.

(** X17.  On an upload that was normalized and recognized, [process]
    answers "No speech detected" with status 400 exactly when the
    recognizer gave no segment.  Otherwise the status is 200: the summary
    and the highlights are those of [summarize_extract] with [top_k = 5],
    the keywords the 12 of [extract_keywords], the statistics are computed
    on all the segments, and the segments sent are the first 50. *)
Theorem process_speech (L : Libs) (A : AudioLibs) (V : AsrLibs)
  (W : WebLibs) (f : Upload) (w : World (Handle L)) (out : WavOut)
  (transcript : str) (segments : list Segment) :
  filename f <> [] ->
  allowed_file (filename f) = true ->
  saved_size f <> 0%Z ->
  save_wav_mono_16k A (saved_upload_path W (filename f)) (temp_wav_name W)
                    16000 = inr out ->
  transcribe_file V (temp_wav_name W) VOSK_MODEL_PATH
  = inr (transcript, segments) ->
  (segments = [] ->
   process L A V W (Some f) w
   = (inr (mkResponse (ErrorBody (lit "No speech detected in audio file")) 400),
      w)) /\
  (segments <> [] ->
   exists summary hl w',
     summarize_extract L transcript 5 w = (inr (summary, hl), w') /\
     process L A V W (Some f) w
     = (inr (mkResponse
               (ResultBody transcript summary hl
                  (extract_keywords transcript 12)
                  (compute_stats transcript segments)
                  (py_round2 (inject_Z (saved_size f)
                              / inject_Z (1024 * 1024))%Q)
                  (firstn 50 segments))
               200), w')).
Proof.
  intros Hname Hallowed Hsize Hsave Hrun.
  rewrite (@process_accepted L A V W f w Hname Hallowed Hsize), Hsave, Hrun.
  apply transcribe_file_inr in Hrun. destruct Hrun as (Hall & -> & _).
  split.
  - intros ->. reflexivity.
  - intros Hne.
    pose proof (segments_not_blank Hall Hne) as Hblank.
    set (t := Py.join (lit " ") (map seg_text segments)) in *.
    assert (Ht : Py.truthy t = true).
    { destruct t; [exfalso; apply Hblank; reflexivity|reflexivity]. }
    assert (Hs : Py.truthy (Py.strip t) = true).
    { destruct (Py.strip t); [congruence|reflexivity]. }
    rewrite Ht, Hs. cbn [negb orb].
    destruct (summarize_extract_returns L t 5 w) as ([summary hl] & w' & ->).
    exists summary, hl, w'. split; [reflexivity|].
    rewrite slice_to_firstn by lia. reflexivity.
Qed.

Lemma process_speech_witness :
  exists transcript segments,
    transcribe_file talking_wave (temp_wav_name plain_web) VOSK_MODEL_PATH
    = inr (transcript, segments) /\
    (segments = [] ->
     process length_libs stereo_audio talking_wave plain_web
             (Some (mkUpload (lit "talk.wav") 1024)) (fresh _)
     = (inr (mkResponse (ErrorBody (lit "No speech detected in audio file")) 400),
        fresh _)) /\
    (segments <> [] ->
     exists summary hl w',
       summarize_extract length_libs transcript 5 (fresh _)
       = (inr (summary, hl), w') /\
       process length_libs stereo_audio talking_wave plain_web
               (Some (mkUpload (lit "talk.wav") 1024)) (fresh _)
       = (inr (mkResponse
                 (ResultBody transcript summary hl
                    (extract_keywords transcript 12)
                    (compute_stats transcript segments)
                    (py_round2 (inject_Z 1024 / inject_Z (1024 * 1024))%Q)
                    (firstn 50 segments))
                 200), w')).
Proof.
  eexists _, _. split; [reflexivity|].
  refine (@process_speech length_libs stereo_audio talking_wave plain_web
            (mkUpload (lit "talk.wav") 1024) (fresh _) _ _ _ _ _ _ _ _).
  - discriminate.
  - reflexivity.
  - discriminate.
  - reflexivity.
  - reflexivity.
Defined.

(** ** The names of the uploads *)

Lemma rfind_from_bounds (c : ascii) (p : str) :
  forall i best,
    rfind_from i best c p = best \/
    (i <= rfind_from i best c p < i + Z.of_nat (length p))%Z.
Proof.
  induction p as [|x p IH]; intros i best; cbn [rfind_from length].
  - now left.
  - destruct (IH (i + 1)%Z (if (x =? c)%char then i else best)) as [H|H].
    + rewrite H. destruct (x =? c)%char; [right; lia|now left].
    + right. lia.
Qed.

Lemma rfind_bounds (c : ascii) (p : str) :
  rfind c p = (-1)%Z \/ (0 <= rfind c p < Z.of_nat (length p))%Z.
Proof.
  unfold rfind.
  destruct (rfind_from_bounds c p 0 (-1)) as [H|H]; [now left|right; lia].
Qed.

Lemma rfind_from_app (c : ascii) (a b : str) :
  forall i best,
    rfind_from i best c (a ++ b)
    = rfind_from (i + Z.of_nat (length a)) (rfind_from i best c a) c b.
Proof.
  induction a as [|x a IH]; intros i best; cbn [app rfind_from length].
  - f_equal. lia.
  - rewrite IH. f_equal. lia.
Qed.

Lemma rfind_from_absent (c : ascii) (p : str) :
  forallb (fun x => negb (x =? c)%char) p = true ->
  forall i best, rfind_from i best c p = best.
Proof.
  induction p as [|x p IH]; intros Hp i best; cbn [rfind_from]; auto.
  cbn [forallb] in Hp. apply andb_true_iff in Hp. destruct Hp as [Hx Hp].
  apply negb_true_iff in Hx. rewrite Hx. now apply IH.
Qed.

(** X18.  A name that [allowed_file] accepts, once lowered, is a stem that
    is not empty followed by one of the six extensions. *)
Theorem allowed_file_sound (name : str) :
  allowed_file name = true ->
  exists stem ext,
    Py.lower name = stem ++ ext /\ In ext ALLOWED_EXT /\ stem <> [].
Proof.
  unfold allowed_file. set (p := Py.lower name). intros Hext.
  apply existsb_exists in Hext. destruct Hext as (ext & Hin & Heq).
  apply str_eqb_eq in Heq.
  assert (Hne : ext <> []).
  { clear Heq. cbn in Hin.
    decompose [or] Hin; subst; try contradiction; discriminate. }
  unfold splitext in Heq.
  destruct (rfind "." p >? rfind "/" p)%Z eqn:Egt;
    [|cbn [snd] in Heq; congruence].
  destruct (existsb _ _) eqn:Estem in Heq; [|cbn [snd] in Heq; congruence].
  cbn [snd] in Heq.
  exists (firstn (Z.to_nat (rfind "." p)) p), ext.
  split; [rewrite <- Heq; symmetry; apply firstn_skipn|].
  split; [exact Hin|].
  apply existsb_exists in Estem. destruct Estem as (x & Hx & _).
  apply Z.gtb_lt in Egt.
  assert (Hpos : (0 < rfind "." p)%Z).
  { destruct (Z.to_nat (rfind "." p - (rfind "/" p + 1))) eqn:En;
      [rewrite firstn_O in Hx; contradiction|].
    destruct (rfind_bounds "/" p); lia. }
  destruct (rfind_bounds "." p) as [Hd|Hd]; [lia|].
  destruct p as [|x0 p']; [cbn in Hd; lia|].
  destruct (Z.to_nat (rfind "." (x0 :: p'))) eqn:En; [lia|discriminate].
Qed.

Lemma allowed_file_sound_witness :
  exists stem ext,
    Py.lower (lit "My.Talk.WAV") = stem ++ ext /\ In ext ALLOWED_EXT /\
    stem <> [].
Proof.
  apply (@allowed_file_sound (lit "My.Talk.WAV")). reflexivity.
Defined.

(** X19.  A name which, lowered, is a stem without dot and slash, not
    empty, followed by one of the six extensions is accepted, whatever
    the case of its letters. *)
Theorem allowed_file_complete (name stem ext : str) :
  Py.lower name = stem ++ ext ->
  In ext ALLOWED_EXT ->
  stem <> [] ->
  forallb (fun c => negb (c =? ".")%char) stem = true ->
  forallb (fun c => negb (c =? "/")%char) stem = true ->
  allowed_file name = true.
Proof.
  intros Hname Hext Hne Hdots Hslashes.
  unfold allowed_file, splitext. rewrite Hname.
  assert (Hsep : rfind "/" (stem ++ ext) = (-1)%Z).
  { unfold rfind. rewrite rfind_from_app, (rfind_from_absent _ _ Hslashes).
    apply rfind_from_absent.
    cbn in Hext. decompose [or] Hext; subst; try contradiction; reflexivity. }
  assert (Hdot : rfind "." (stem ++ ext) = Z.of_nat (length stem)).
  { unfold rfind. rewrite rfind_from_app, (rfind_from_absent _ _ Hdots).
    cbn in Hext. decompose [or] Hext; subst; try contradiction;
      cbn; lia. }
  rewrite Hsep, Hdot.
  destruct (Z.of_nat (length stem) >? -1)%Z eqn:Egt;
    [|rewrite Z.gtb_ltb in Egt; apply Z.ltb_ge in Egt; lia].
  replace (Z.to_nat (Z.of_nat (length stem) - (-1 + 1))) with (length stem)
    by lia.
  cbn [Z.add Z.to_nat skipn]. rewrite Nat2Z.id.
  rewrite firstn_app, Nat.sub_diag, firstn_O, app_nil_r, firstn_all.
  assert (Hstem : existsb (fun ch => negb (ch =? ".")%char) stem = true).
  { destruct stem as [|c stem]; [congruence|].
    cbn [forallb] in Hdots. apply andb_true_iff in Hdots.
    cbn [existsb]. destruct Hdots as [-> _]. reflexivity. }
  change (Z.to_nat (Z.pos_sub 1 1)) with 0. cbn [skipn].
  rewrite firstn_app, Nat.sub_diag, firstn_O, app_nil_r, firstn_all.
  rewrite Hstem. cbn [snd].
  rewrite skipn_app, Nat.sub_diag, skipn_all. cbn [skipn app].
  apply existsb_exists. exists ext. split; [exact Hext|].
  now apply str_eqb_eq.
Qed.

Lemma allowed_file_complete_witness :
  allowed_file (lit "Interview_03.MP3") = true.
Proof.
  apply (@allowed_file_complete (lit "Interview_03.MP3")
           (lit "interview_03") (lit ".mp3")).
  - reflexivity.
  - right. left. reflexivity.
  - discriminate.
  - reflexivity.
  - reflexivity.
Defined.

(** ** More on the keywords *)

(** X20.  Asking for more keywords only adds keywords at the end: the
    answer for [n] is the beginning of the answer for any larger [m]; and
    there is no keyword for [n <= 0]. *)
Theorem extract_keywords_prefix (text : str) (n m : Z) :
  ((n <= 0)%Z -> extract_keywords text n = []) /\
  ((0 <= n <= m)%Z ->
   extract_keywords text n
   = firstn (Z.to_nat n) (extract_keywords text m)).
Proof.
  unfold extract_keywords. split.
  - intros Hn. unfold most_common.
    destruct (n <=? 0)%Z eqn:E; [reflexivity|lia].
  - intros [H0 Hm].
    rewrite !most_common_firstn by lia.
    rewrite firstn_map, firstn_firstn, Nat.min_l by lia. reflexivity.
Qed.

Lemma lower_char_idem (c : ascii) :
  Py.lower_char (Py.lower_char c) = Py.lower_char c.
Proof. destruct c as [[] [] [] [] [] [] [] []]; reflexivity. Qed.

Lemma lower_idem (s : str) : Py.lower (Py.lower s) = Py.lower s.
Proof.
  unfold Py.lower. rewrite map_map. apply map_ext. apply lower_char_idem.
Qed.

(** X21.  The case of the letters does not matter to the keywords: a text
    and the same text lowered have the same keywords with the same
    counts. *)
Theorem extract_keywords_ignores_case (text : str) (top_n : Z) :
  extract_keywords (Py.lower text) top_n = extract_keywords text top_n.
Proof.
  unfold extract_keywords. now rewrite lower_idem.
Qed.

(** ** More on the statistics *)

Lemma count_runs_bound (p : ascii -> bool) (s : str) :
  forall inside,
    2 * count_runs p inside s <= length s + (if inside then 0 else 1).
Proof.
  induction s as [|c s IH]; intros inside; cbn [count_runs length].
  - destruct inside; lia.
  - specialize (IH (p c)).
    destruct (p c), inside; cbn [andb negb] in *; lia.
Qed.

Lemma round_div_200_le (n : Z) : (0 <= n)%Z -> (round_div_200 n <= Z.max 1 n)%Z.
Proof.
  intros Hn. unfold round_div_200.
  pose proof (Z.div_mod n 200 ltac:(lia)) as Hdm.
  pose proof (Z.mod_pos_bound n 200 ltac:(lia)) as Hb.
  assert (Hq : (0 <= n / 200)%Z) by (apply Z.div_pos; lia).
  destruct (n mod 200 <? 100)%Z eqn:E1; [lia|].
  apply Z.ltb_ge in E1.
  destruct (100 <? n mod 200)%Z; [lia|]. destruct (Z.even (n / 200)); lia.
Qed.

Lemma round_div_200_mono (n m : Z) :
  (n <= m)%Z -> (round_div_200 n <= round_div_200 m)%Z.
Proof.
  intros Hnm. unfold round_div_200.
  pose proof (Z.div_mod n 200 ltac:(lia)) as Hn.
  pose proof (Z.mod_pos_bound n 200 ltac:(lia)) as Hbn.
  pose proof (Z.div_mod m 200 ltac:(lia)) as Hm.
  pose proof (Z.mod_pos_bound m 200 ltac:(lia)) as Hbm.
  pose proof (Z.div_le_mono n m 200 ltac:(lia) Hnm) as Hq.
  destruct (Z.eq_dec (n / 200) (m / 200)) as [Heq|Hne].
  - rewrite <- Heq in *.
    destruct (n mod 200 <? 100)%Z eqn:En, (m mod 200 <? 100)%Z eqn:Em,
             (100 <? n mod 200)%Z eqn:En', (100 <? m mod 200)%Z eqn:Em',
             (Z.even (n / 200)); lia.
  - destruct (n mod 200 <? 100)%Z, (m mod 200 <? 100)%Z,
             (100 <? n mod 200)%Z, (100 <? m mod 200)%Z,
             (Z.even (n / 200)), (Z.even (m / 200)); lia.
Qed.

(** X22.  The statistics keep within the size of the transcript: words
    are separated, so twice their number is at most the length plus one;
    the number of sentences is at least 1 and twice it is at most the
    length plus two; the reading time is at most the number of words, or
    1.  Only the last segment counts for the duration, and the segments
    count for nothing else. *)
Theorem compute_stats_bounds (transcript : str) (segments : list Segment) :
  2 * word_count (compute_stats transcript segments)
  <= char_count (compute_stats transcript segments) + 1 /\
  1 <= sentence_count (compute_stats transcript segments) /\
  2 * sentence_count (compute_stats transcript segments)
  <= char_count (compute_stats transcript segments) + 2 /\
  (reading_time_min (compute_stats transcript segments)
   <= Z.max 1 (Z.of_nat (word_count (compute_stats transcript segments))))%Z /\
  (forall l s,
      duration_sec (compute_stats transcript (l ++ [s]))
      = duration_sec (compute_stats transcript [s])) /\
  (forall segments',
      word_count (compute_stats transcript segments')
      = word_count (compute_stats transcript segments) /\
      sentence_count (compute_stats transcript segments')
      = sentence_count (compute_stats transcript segments) /\
      char_count (compute_stats transcript segments')
      = char_count (compute_stats transcript segments) /\
      reading_time_min (compute_stats transcript segments')
      = reading_time_min (compute_stats transcript segments)).
Proof.
  unfold compute_stats.
  cbn [word_count sentence_count char_count duration_sec reading_time_min].
  rewrite split_length, findall_sentence_ends.
  pose proof (count_runs_bound not_space transcript false) as Hw.
  pose proof (count_runs_bound Re.is_sentence_end transcript false) as Hs.
  cbn iota in Hw, Hs.
  split; [exact Hw|]. split; [|split; [|split; [|split]]].
  - destruct (count_runs Re.is_sentence_end false transcript); lia.
  - destruct (count_runs Re.is_sentence_end false transcript); lia.
  - rewrite py_round_div_200.
    pose proof (@round_div_200_le
                  (Z.of_nat (count_runs not_space false transcript))
                  ltac:(lia)).
    lia.
  - intros l s. now rewrite rev_app_distr.
  - intros segments'. auto.
Qed.

(** X23.  A transcript with more words never has a shorter reading
    time. *)
Theorem reading_time_monotone (t1 t2 : str) (s1 s2 : list Segment) :
  word_count (compute_stats t1 s1) <= word_count (compute_stats t2 s2) ->
  (reading_time_min (compute_stats t1 s1)
   <= reading_time_min (compute_stats t2 s2))%Z.
Proof.
  unfold compute_stats. cbn [word_count reading_time_min].
  intros Hw. rewrite !py_round_div_200.
  apply Z.max_le_compat_l. apply round_div_200_mono. lia.
Qed.

Lemma reading_time_monotone_witness :
  (reading_time_min (compute_stats (lit "one two") [])
   <= reading_time_min (compute_stats (lit "one two three") []))%Z.
Proof.
  apply (@reading_time_monotone (lit "one two") (lit "one two three") [] []).
  vm_compute. lia.
Defined.

(** ** No embedding without a model *)

Lemma get_model_encode_inv (L : Libs) (w : World (Handle L)) :
  encode_inv w -> encode_inv (snd (get_model L w)).
Proof.
  unfold encode_inv, get_model. intros Hinv.
  destruct (_model w) as [h|] eqn:Em; cbn [snd].
  - rewrite Em. congruence.
  - destruct (SentenceTransformer L _ _) as [e|h]; cbn [snd events _model].
    + cbn [existsb is_encode orb]. intros He. specialize (Hinv He). congruence.
    + discriminate.
Qed.

Lemma summarize_extract_encode_inv (L : Libs) (text : str) (top_k : Z)
  (w : World (Handle L)) :
  encode_inv w -> encode_inv (snd (summarize_extract L text top_k w)).
Proof.
  intros Hinv. unfold summarize_extract.
  destruct (length (sentence_tokenize text) =? 0); [exact Hinv|].
  destruct (_ <=? top_k)%Z; [exact Hinv|].
  pose proof (get_model_encode_inv L Hinv) as Hg.
  unfold try_except, embedding_path, fallback_path, bind, call, emit, ret.
  destruct (get_model L w) as [[e0|h] w1] eqn:Eg; cbn [snd] in Hg.
  - unfold encode_inv in *. cbn [snd events _model existsb is_encode orb].
    exact Hg.
  - apply get_model_stores in Eg.
    assert (Hheld : forall evs,
               encode_inv (mkWorld (_model w1) evs)).
    { intros evs _. cbn [_model]. congruence. }
    destruct (encode L h _) as [e1|e]; cbn [snd]; [apply Hheld|].
    destruct (np_mean L e) as [e1|d]; cbn [snd]; [apply Hheld|].
    destruct (cosine_similarity L e d) as [e1|sc]; cbn [snd]; [apply Hheld|].
    match goal with
    | |- context [traverse ?f ?l] =>
        destruct (traverse f l) as [e1|hl]; cbn [snd]; [apply Hheld|]
    end.
    match goal with
    | |- context [traverse ?f ?l] =>
        destruct (traverse f l) as [e1|parts]; cbn [snd]; apply Hheld
    end.
Qed.

Lemma steps_encode_inv (L : Libs) (w w' : World (Handle L)) :
  steps L w w' -> encode_inv w -> encode_inv w'.
Proof.
  induction 1; intros Hinv; auto.
  - apply get_model_encode_inv. auto.
  - apply summarize_extract_encode_inv. auto.
Qed.

(** X24.  In every state a fresh process can reach, [_model] is unset
    exactly when no load has succeeded, and [encode] has been called only
    if a model is held: no sentence is ever embedded without a loaded
    model. *)
Theorem no_encode_without_model (L : Libs) (w : World (Handle L)) :
  steps L (fresh _) w ->
  (_model w = None <-> loads_done w = 0) /\
  (forall ss, In (EvEncode ss) (events w) -> exists h, _model w = Some h).
Proof.
  intros Hsteps. split.
  - apply steps_evolves in Hsteps. destruct Hsteps as [Hinv _].
    specialize (Hinv eq_refl). unfold model_inv in Hinv.
    destruct (_model w); split; intros; try congruence; lia.
  - intros ss Hin.
    apply steps_encode_inv in Hsteps; [|intros H; discriminate].
    assert (He : existsb is_encode (events w) = true).
    { apply existsb_exists. exists (EvEncode ss). auto. }
    specialize (Hsteps He). destruct (_model w) as [h|]; [eauto|congruence].
Qed.

Lemma no_encode_without_model_witness :
  let w := snd (summarize_extract flaky_libs six_sentences 5
             (snd (summarize_extract flaky_libs six_sentences 5
                (snd (get_model flaky_libs (fresh _)))))) in
  (_model w = None <-> loads_done w = 0) /\
  (forall ss, In (EvEncode ss) (events w) -> exists h, _model w = Some h).
Proof.
  apply (@no_encode_without_model flaky_libs).
  apply steps_summarize, steps_summarize, steps_get_model, steps_refl.
Defined.

(** ** Two counts of sentences *)

Lemma count_runs_app (p : ascii -> bool) (a b : str) :
  forall inside,
    count_runs p inside (a ++ b)
    = count_runs p inside a
      + count_runs p (match rev a with [] => inside | c :: _ => p c end) b.
Proof.
  induction a as [|x a IH]; intros inside; cbn [app count_runs rev].
  - lia.
  - rewrite IH, Nat.add_assoc. f_equal. f_equal.
    destruct (rev a) as [|y r]; reflexivity.
Qed.

Lemma count_runs_none (p : ascii -> bool) (s : str) :
  forallb (fun c => negb (p c)) s = true ->
  forall inside, count_runs p inside s = 0.
Proof.
  induction s as [|c s IH]; intros Hs inside; cbn [count_runs]; auto.
  cbn [forallb] in Hs. apply andb_true_iff in Hs. destruct Hs as [Hc Hs].
  apply negb_true_iff in Hc. rewrite Hc. cbn [andb]. now rewrite IH.
Qed.

Lemma count_runs_some (p : ascii -> bool) (s : str) (c : ascii) :
  p c = true -> 1 <= count_runs p false (s ++ [c]).
Proof.
  intros Hc. induction s as [|x s IH]; cbn [app count_runs].
  - rewrite Hc. cbn. lia.
  - destruct (p x) eqn:Ex; cbn [andb negb]; [lia|exact IH].
Qed.

Lemma spaces_not_ends (w : str) :
  forallb Py.isspace w = true ->
  forallb (fun c => negb (Re.is_sentence_end c)) w = true.
Proof.
  induction w as [|x w IH]; cbn [forallb]; auto.
  intros H. apply andb_true_iff in H. destruct H as [Hx Hw].
  rewrite (space_not_end _ Hx). cbn. auto.
Qed.

Lemma pieces_bound (prev : option ascii) (s : str) (pieces : list str) :
  split_at_ends prev s pieces ->
  is_end_opt prev = false ->
  length pieces <= count_runs Re.is_sentence_end false s + 1.
Proof.
  induction 1 as [prev s _|prev p c w rest pieces _ Hc Hw Hsp _ _ IH];
    intros Hprev.
  - simpl. lia.
  - destruct (nonempty_spaces_head Hw Hsp) as (x & w' & Ew & Hx).
    assert (Hlast : is_end_opt (last_opt None w) = false).
    { rewrite Ew, last_opt_cons. apply last_opt_spaces; auto.
      rewrite Ew in Hsp. cbn [forallb] in Hsp.
      apply andb_true_iff in Hsp. tauto. }
    specialize (IH Hlast).
    rewrite (count_runs_app _ (p ++ [c]) (w ++ rest)), rev_app_distr.
    cbn [rev app]. rewrite Hc.
    rewrite (count_runs_app _ w rest).
    rewrite (count_runs_none _ _ (spaces_not_ends _ Hsp)).
    assert (Hin : match rev w with
                  | [] => true
                  | c0 :: _ => Re.is_sentence_end c0
                  end = false).
    { unfold last_opt, is_end_opt in Hlast.
      destruct (rev w) as [|y r] eqn:Er; [|exact Hlast].
      apply (f_equal (@rev ascii)) in Er. rewrite rev_involutive in Er.
      subst w. discriminate. }
    rewrite Hin.
    pose proof (count_runs_some Re.is_sentence_end p c Hc).
    cbn [length]. lia.
Qed.

(** X25.  The tokenizer finds at most one sentence more than the
    statistics count: the number of sentences of [sentence_tokenize] is
    at most [sentence_count] plus one. *)
Theorem sentences_and_sentence_count (text : str) (segments : list Segment) :
  length (sentence_tokenize text)
  <= sentence_count (compute_stats text segments) + 1.
Proof.
  unfold compute_stats. cbn [sentence_count].
  rewrite findall_sentence_ends.
  assert (Hn : length (sentence_tokenize text)
               <= count_runs Re.is_sentence_end false text + 1).
  { unfold sentence_tokenize.
    destruct (negb (Py.truthy text) || negb (Py.truthy (Py.strip text)));
      [simpl; lia|].
    eapply Nat.le_trans; [apply filter_length_le|].
    rewrite length_map.
    eapply Nat.le_trans; [apply filter_length_le|].
    apply (pieces_bound (re_split_at_ends text)). reflexivity. }
  destruct (count_runs Re.is_sentence_end false text); lia.
Qed.

Example two_sentences_one_counted :
  length (sentence_tokenize (lit "Hello world. Good night")) = 2 /\
  sentence_count (compute_stats (lit "Hello world. Good night") []) = 1.
Proof. vm_compute. auto. Qed.
